(** * WordParser: the markdown post-processing core of [word_parser++.py]

    A shallow embedding of the line classifier, the list-block normalizer,
    the list segmentation pass, the table-grouping pass and the image and
    link resolution of [WordDocumentParser], with the properties of its
    specification stated and settled against that embedding.

    A Python [str] is a [list ascii]: a sequence of code points below 256.
    On that range [str.isspace] and the regex class [\s] are the characters
    of [isspace] below, and the regex class [\d] is ['0'..'9'].

    Python's [re] is embedded as far as the program uses it: the patterns
    written in the source by matchers of their own, the replacement strings
    by the template parser of the library, and the relationship id that the
    source writes into the link pattern by the regular expressions made of
    literal characters and dots. *)

From Stdlib Require Import Ascii String.
From stdpp Require Import gmap list sorting pretty.

Local Open Scope nat_scope.

(** ** Python strings *)

Abbreviation str := (list ascii).

(** A string literal of the source. *)
Definition py (s : string) : list ascii := list_ascii_of_string s.

(** [str.isspace] on one character: TAB..CR, FS..US, SPACE, NEL, NBSP. *)
Definition isspace (c : ascii) : bool :=
  let n := nat_of_ascii c in
  ((9 <=? n) && (n <=? 13)) || ((28 <=? n) && (n <=? 32))
  || (n =? 133) || (n =? 160).

(** The regex class [\d]. *)
Definition isdigit (c : ascii) : bool :=
  let n := nat_of_ascii c in (48 <=? n) && (n <=? 57).

Definition ascii_eqb (a b : ascii) : bool := Ascii.eqb a b.

Fixpoint drop_while {A} (p : A → bool) (l : list A) : list A :=
  match l with
  | [] => []
  | x :: l' => if p x then drop_while p l' else l
  end.

Fixpoint take_while {A} (p : A → bool) (l : list A) : list A :=
  match l with
  | [] => []
  | x :: l' => if p x then x :: take_while p l' else []
  end.

(** [s.lstrip()], [s.rstrip()], [s.strip()]. *)
Definition lstrip (s : str) : str := drop_while isspace s.
Definition rstrip (s : str) : str := reverse (drop_while isspace (reverse s)).
Definition strip (s : str) : str := rstrip (lstrip s).

(** [s.lstrip(chars)]. *)
Definition in_chars (chars : str) (c : ascii) : bool :=
  existsb (ascii_eqb c) chars.
Definition lstrip_chars (chars : str) (s : str) : str :=
  drop_while (in_chars chars) s.

(** [s.startswith(p)]. *)
Fixpoint startswith (p s : str) : bool :=
  match p, s with
  | [], _ => true
  | a :: p', b :: s' => ascii_eqb a b && startswith p' s'
  | _ :: _, [] => false
  end.

(** [p in s]. *)
Fixpoint contains (p s : str) : bool :=
  startswith p s ||
  match s with
  | [] => false
  | _ :: s' => contains p s'
  end.

(** [s * n]. *)
Fixpoint str_mul (s : str) (n : nat) : str :=
  match n with
  | 0 => []
  | S n' => s ++ str_mul s n'
  end.

(** [bool(s)] of a string. *)
Definition nonempty (s : str) : bool :=
  match s with [] => false | _ :: _ => true end.

(** [bool(l)] of a list. *)
Definition nonempty_list {A} (l : list A) : bool :=
  match l with [] => false | _ :: _ => true end.

(** [sep.join(ls)]. *)
Fixpoint join (sep : str) (ls : list (list ascii)) : str :=
  match ls with
  | [] => []
  | [l] => l
  | l :: ls' => l ++ sep ++ join sep ls'
  end.

(** ** The regular expressions used on list items *)

(** [re.match(r'^\d+\.', s)] as a truth value. *)
Definition match_number_dot (s : str) : bool :=
  nonempty (take_while isdigit s) && startswith (py ".") (drop_while isdigit s).

(** [re.sub(r'^\d+\.\s*', '', s)]: the anchored pattern matches at most
    once, at the start; [\d+] and [\s*] are greedy and what follows them
    never needs a shorter run. *)
Definition sub_number_prefix (s : str) : str :=
  if match_number_dot s
  then drop_while isspace (drop 1 (drop_while isdigit s))
  else s.

(** ** Line classification helpers *)

Definition _is_list_item (line : str) : bool :=
  let stripped := lstrip line in
  nonempty stripped &&
  (startswith (py "*") stripped || startswith (py "-") stripped
   || startswith (py "+") stripped || match_number_dot stripped).

Definition _get_indent_level (line : str) : nat :=
  length line - length (lstrip line).

(** ** _process_list_block *)

Definition LIST_BLOCK_COMMENT : list ascii := py "<!-- Type: List Block -->".

(** First pass: the loop body that fills [indent_to_level]. *)
Definition collect_step (st : gmap nat nat * nat) (line : str)
  : gmap nat nat * nat :=
  let '(indent_to_level, current_level) := st in
  if _is_list_item line then
    let indent := _get_indent_level line in
    match indent_to_level !! indent with
    | None => (<[indent := current_level]> indent_to_level, S current_level)
    | Some _ => st
    end
  else st.

Definition collect_levels (lines : list (list ascii)) : gmap nat nat * nat :=
  foldl collect_step (∅, 0) lines.

(** [sorted(indent_to_level.keys())]. *)
Definition sorted_keys (m : gmap nat nat) : list nat :=
  merge_sort Nat.le (elements (dom m)).

(** [abs(x - indent)] on non-negative integers. *)
Definition abs_diff (x indent : nat) : nat := (x - indent) + (indent - x).

(** [min(l, key=key)]: the first element with the least key; [None] is the
    [ValueError] on an empty sequence. *)
Definition py_min {A} (key : A → nat) (l : list A) : option A :=
  match l with
  | [] => None
  | x :: l' =>
      Some (foldl (λ best y, if key y <? key best then y else best) x l')
  end.

(** The content kept of a list item, from its left-stripped text. *)
Definition item_content (stripped : str) : str :=
  let content := lstrip (lstrip_chars (py "*-+") stripped) in
  if match_number_dot stripped then sub_number_prefix stripped else content.

(** Second pass: the loop body on one line; [None] is an exception
    ([ValueError] of [min], [KeyError] of the lookup). *)
Definition normalize_line (indent_to_level : gmap nat nat)
    (indent_levels : list nat) (line : str) : option (list ascii) :=
  let stripped := lstrip line in
  if negb (nonempty stripped) then Some line
  else
    let indent := _get_indent_level line in
    closest_indent ← py_min (λ x, abs_diff x indent) indent_levels;
    level ← indent_to_level !! closest_indent;
    if _is_list_item line
    then Some (str_mul (py "  ") level ++ py "* " ++ item_content stripped)
    else Some (str_mul (py "  ") (level + 1) ++ stripped).

Definition _process_list_block (lines : list (list ascii))
  : option (list (list ascii)) :=
  match lines with
  | [] => Some []
  | _ =>
      let indent_to_level := (collect_levels lines).1 in
      let indent_levels := sorted_keys indent_to_level in
      result ← mapM (normalize_line indent_to_level indent_levels) lines;
      Some (result ++ [LIST_BLOCK_COMMENT])
  end.


(** ** _add_metadata *)

(** The second component of [_add_metadata]'s result. *)
Inductive metadata : Type :=
  | heading (level : nat)
  | list_item
  | table_separator
  | table_row
  | image
  | text.

(** [HEADING_PATTERN.match(line)] for [^#+\s]. *)
Definition HEADING_PATTERN_match (line : str) : bool :=
  let hashes := take_while (ascii_eqb "#") line in
  nonempty hashes &&
  match drop (length hashes) line with
  | c :: _ => isspace c
  | [] => false
  end.

(** [line.split()[0]] of a line with a non-blank character. *)
Definition first_token (line : str) : str :=
  take_while (λ c, negb (isspace c)) (lstrip line).

Definition type_comment (body : str) : list ascii :=
  py "<!-- Type: " ++ body ++ py " -->".

Definition _add_metadata (line : str) (in_list : bool)
  : list (list ascii) * option metadata :=
  let line := rstrip line in
  if negb (nonempty line) then ([line], None)
  else if HEADING_PATTERN_match line then
    let level := length (first_token line) in
    ([line; type_comment (py "Heading " ++ py (pretty level))],
     Some (heading level))
  else if _is_list_item line then ([line], Some list_item)
  else if startswith (py "|") (strip line) && contains (py "-|-") line then
    ([line; type_comment (py "Table")], Some table_separator)
  else if startswith (py "|") (strip line) then ([line], Some table_row)
  else if contains (py "![") line && contains (py "](") line then
    ([line; type_comment (py "Image")], Some image)
  else if nonempty (strip line) && negb in_list then
    ([line; type_comment (py "Text Body")], Some text)
  else ([line], None).

(** ** _process_nested_lists *)

(** The loop state. [passed] is a ghost field: the arguments of the calls
    to [_process_list_block] made so far, oldest first. *)
Record seg_state : Type := SegState {
  seg_result : list (list ascii);
  list_block : list (list ascii);
  in_list : bool;
  passed : list (list (list ascii))
}.

(** [result.extend(self._process_list_block(list_block)); list_block = []] *)
Definition flush_block (st : seg_state) : option seg_state :=
  out ← _process_list_block (list_block st);
  Some (SegState (seg_result st ++ out) [] (in_list st)
                 (passed st ++ [list_block st])).

Definition set_in_list (b : bool) (st : seg_state) : seg_state :=
  SegState (seg_result st) (list_block st) b (passed st).

Definition seg_step (st : seg_state) (line : str) : option seg_state :=
  let stripped := lstrip line in
  if _is_list_item line then
    st ← (if in_list st then Some st
          else st' ← (if nonempty_list (list_block st) then flush_block st
                      else Some st);
               Some (set_in_list true st'));
    Some (SegState (seg_result st) (list_block st ++ [line]) (in_list st)
                   (passed st))
  else if in_list st then
    if nonempty stripped then
      Some (SegState (seg_result st) (list_block st ++ [line]) (in_list st)
                     (passed st))
    else
      st ← (if nonempty_list (list_block st) then flush_block st else Some st);
      Some (SegState (seg_result st ++ [line]) (list_block st) false
                     (passed st))
  else
    let processed_content := (_add_metadata line false).1 in
    Some (SegState (seg_result st ++ processed_content) (list_block st)
                   (in_list st) (passed st)).

Fixpoint seg_loop (st : seg_state) (lines : list (list ascii))
  : option seg_state :=
  match lines with
  | [] => Some st
  | line :: lines' => st' ← seg_step st line; seg_loop st' lines'
  end.

Definition seg_init : seg_state := SegState [] [] false [].

(** The statement after the loop: the final flush. *)
Definition seg_finish (st : seg_state) : option seg_state :=
  if nonempty_list (list_block st) then flush_block st else Some st.

Definition seg_run (lines : list (list ascii)) : option seg_state :=
  st ← seg_loop seg_init lines; seg_finish st.

Definition _process_nested_lists (lines : list (list ascii))
  : option (list (list ascii)) :=
  seg_result <$> seg_run lines.

(** ** The table-grouping pass of convert_to_markdown *)

Record tbl_state : Type := TblState {
  markdown_lines : list (list ascii);
  current_table : list (list ascii);
  in_table : bool
}.

Definition is_metadata_line (line : str) : bool :=
  contains (py "<!-- Type:") line.

Definition is_table_line (line : str) : bool :=
  startswith (py "|") (strip line).

Definition tbl_step (st : tbl_state) (line : str) : tbl_state :=
  if is_metadata_line line then
    TblState (markdown_lines st ++ [line]) (current_table st) (in_table st)
  else if is_table_line line then
    if negb (in_table st) then TblState (markdown_lines st) [line] true
    else TblState (markdown_lines st) (current_table st ++ [line]) (in_table st)
  else
    let st :=
      if in_table st
      then TblState (markdown_lines st ++ current_table st ++ [[]]) [] false
      else st in
    TblState (markdown_lines st ++ [line]) (current_table st) (in_table st).

Definition tbl_init : tbl_state := TblState [] [] false.

(** The statements after the loop. *)
Definition tbl_finish (st : tbl_state) : list (list ascii) :=
  if nonempty_list (current_table st)
  then markdown_lines st ++ current_table st ++ [[]]
  else markdown_lines st.

Definition group_tables (processed_lines : list (list ascii))
  : list (list ascii) :=
  tbl_finish (foldl tbl_step tbl_init processed_lines).

(** ** The outcome of a call into Python's [re] *)

(** A substitution returns a text or raises. The third outcome marks the
    inputs on which this development fixes no behaviour: a relationship id
    that uses regular-expression syntax beyond literal characters and the
    dot, and a group name on which the interpreter's versions differ. No
    theorem below speaks about a run that ends there. *)
Inductive result (A : Type) : Type :=
  | Returns (a : A)
  | Raises
  | Unmodelled.
Arguments Returns {A} a.
Arguments Raises {A}.
Arguments Unmodelled {A}.

#[global] Instance result_bind : MBind result := λ A B f r,
  match r with
  | Returns a => f a
  | Raises => Raises
  | Unmodelled => Unmodelled
  end.

(** ** Replacement templates *)

(** [re.sub] reads a replacement string as a template: what follows a
    backslash is a group reference or an escape. The template is compiled
    before the text is searched, so a malformed one raises whatever the
    text is. An unknown escape made of a backslash and an ASCII letter is
    an error from Python 3.7 on, the version the dataclass of the source
    asks for. *)
Inductive template_item : Type :=
  | Literal (c : ascii)
  | GroupRef (index : nat).

Definition backslash : ascii := ascii_of_nat 92.

Definition is_octdigit (c : ascii) : bool :=
  let n := nat_of_ascii c in (48 <=? n) && (n <=? 55).

Definition is_ascii_letter (c : ascii) : bool :=
  let n := nat_of_ascii c in
  ((65 <=? n) && (n <=? 90)) || ((97 <=? n) && (n <=? 122)).

Definition digit_value (c : ascii) : nat := nat_of_ascii c - 48.

(** [int(ds)] for a string of ASCII digits. *)
Definition decimal (ds : str) : nat :=
  foldl (λ n d, 10 * n + digit_value d) 0 ds.

(** The table ESCAPES of the template parser: a, b, f, n, r, t, v and the
    backslash itself. *)
Definition ESCAPES (c : ascii) : option ascii :=
  if ascii_eqb c "a" then Some (ascii_of_nat 7)
  else if ascii_eqb c "b" then Some (ascii_of_nat 8)
  else if ascii_eqb c "f" then Some (ascii_of_nat 12)
  else if ascii_eqb c "n" then Some (ascii_of_nat 10)
  else if ascii_eqb c "r" then Some (ascii_of_nat 13)
  else if ascii_eqb c "t" then Some (ascii_of_nat 9)
  else if ascii_eqb c "v" then Some (ascii_of_nat 11)
  else if ascii_eqb c backslash then Some backslash
  else None.

Definition literal (c : ascii) (rest : result (list template_item))
  : result (list template_item) :=
  items ← rest; Returns (Literal c :: items).

(** [addgroup]: a reference beyond the groups of the pattern is refused. *)
Definition addgroup (groups index : nat)
    (rest : result (list template_item)) : result (list template_item) :=
  if index <=? groups
  then items ← rest; Returns (GroupRef index :: items)
  else Raises.

(** A character [int] accepts around or between digits. *)
Definition is_int_char (c : ascii) : bool :=
  isdigit c || isspace c || in_chars (py "+-_") c.

(** The name between the angle brackets of a reference by name. A run of
    digits is a group number. The patterns of this program name no group,
    so an identifier raises, and so does every name [int] refuses: one
    without a digit, or with a character [int] does not accept. The other
    names are read as numbers by some versions of the interpreter and
    refused by others. *)
Definition group_name (groups : nat) (name : str)
    (rest : result (list template_item)) : result (list template_item) :=
  if negb (nonempty name) then Raises
  else if forallb isdigit name then addgroup groups (decimal name) rest
  else if forallb is_int_char name && existsb isdigit name then Unmodelled
  else Raises.

(** [parse_template]: [groups] is the number of groups of the pattern;
    [name] is the group name read so far while the parser is between the
    angle brackets of a reference by name. *)
Fixpoint parse_template (groups : nat) (name : option (list ascii))
    (s : str) : result (list template_item) :=
  match name with
  | Some acc =>
      match s with
      | [] => Raises
      | c :: r =>
          if ascii_eqb c ">"
          then group_name groups acc (parse_template groups None r)
          else if ascii_eqb c backslash then
            match r with
            | [] => Raises
            | c' :: r' => parse_template groups (Some (acc ++ [c; c'])) r'
            end
          else parse_template groups (Some (acc ++ [c])) r
      end
  | None =>
      match s with
      | [] => Returns []
      | c :: r =>
          if negb (ascii_eqb c backslash)
          then literal c (parse_template groups None r)
          else
            match r with
            | [] => Raises
            | c1 :: r1 =>
                if ascii_eqb c1 "g" then
                  match r1 with
                  | c2 :: r2 =>
                      if ascii_eqb c2 "<"
                      then parse_template groups (Some []) r2
                      else Raises
                  | [] => Raises
                  end
                else if ascii_eqb c1 "0" then
                  match r1 with
                  | d1 :: r2 =>
                      if is_octdigit d1 then
                        match r2 with
                        | d2 :: r3 =>
                            if is_octdigit d2
                            then literal
                                   (ascii_of_nat
                                      (8 * digit_value d1 + digit_value d2))
                                   (parse_template groups None r3)
                            else literal (ascii_of_nat (digit_value d1))
                                   (parse_template groups None r2)
                        | [] => literal (ascii_of_nat (digit_value d1))
                                  (parse_template groups None r2)
                        end
                      else literal (ascii_of_nat 0)
                             (parse_template groups None r1)
                  | [] => literal (ascii_of_nat 0)
                            (parse_template groups None r1)
                  end
                else if isdigit c1 then
                  match r1 with
                  | d1 :: r2 =>
                      if isdigit d1 then
                        match r2 with
                        | d2 :: r3 =>
                            if is_octdigit c1 && is_octdigit d1
                               && is_octdigit d2
                            then
                              let v := 64 * digit_value c1
                                       + 8 * digit_value d1
                                       + digit_value d2 in
                              if 255 <? v then Raises
                              else literal (ascii_of_nat v)
                                     (parse_template groups None r3)
                            else addgroup groups
                                   (10 * digit_value c1 + digit_value d1)
                                   (parse_template groups None r2)
                        | [] => addgroup groups
                                  (10 * digit_value c1 + digit_value d1)
                                  (parse_template groups None r2)
                        end
                      else addgroup groups (digit_value c1)
                             (parse_template groups None r1)
                  | [] => addgroup groups (digit_value c1)
                            (parse_template groups None r1)
                  end
                else
                  match ESCAPES c1 with
                  | Some x => literal x (parse_template groups None r1)
                  | None =>
                      if is_ascii_letter c1 then Raises
                      else literal c
                             (literal c1 (parse_template groups None r1))
                  end
            end
      end
  end.

(** [expand_template]: [groups] holds the whole match and then the text
    of each group. *)
Definition expand_template (repl : list template_item)
    (groups : list (list ascii)) : list ascii :=
  repl ≫= λ item,
    match item with
    | Literal c => [c]
    | GroupRef index => default [] (groups !! index)
    end.

(** ** Image and link resolution *)

Record ImageInfo : Type := mkImageInfo {
  filename : list ascii;
  content : list ascii;
  content_type : list ascii
}.

Definition newline : ascii := ascii_of_nat 10.

(** The tail [\]\(data:image[^\)]*\)] of IMAGE_PATTERN at the start of [r]:
    the length matched. The greedy class stops at the first [)] or at the
    end of the text, and no shorter run can be followed by [)]. *)
Definition image_close (r : str) : option nat :=
  if startswith (py "](data:image") r then
    let r2 := drop 12 r in
    let run := take_while (λ c, negb (ascii_eqb c ")")) r2 in
    if startswith (py ")") (drop (length run) r2)
    then Some (12 + length run + 1)
    else None
  else None.

(** The lazy [.*?] followed by the tail: the fewest characters, none of
    them a newline, after which the tail matches. *)
Fixpoint image_lazy (r : str) : option nat :=
  match image_close r with
  | Some n => Some n
  | None =>
      match r with
      | [] => None
      | c :: r' =>
          if ascii_eqb c newline then None else S <$> image_lazy r'
      end
  end.

(** IMAGE_PATTERN matched at the start of [s]: the length of the match. *)
Definition IMAGE_PATTERN_match (s : str) : option nat :=
  if startswith (py "![") s then (λ n, 2 + n) <$> image_lazy (drop 2 s)
  else None.

(** [IMAGE_PATTERN.sub(repl, s, 1)] once the template is compiled: the
    leftmost match is replaced by the expansion of the template. The
    pattern has no group beside the whole match. *)
Fixpoint IMAGE_PATTERN_replace (repl : list template_item) (s : str) : str :=
  match IMAGE_PATTERN_match s with
  | Some n => expand_template repl [take n s] ++ drop n s
  | None =>
      match s with
      | [] => []
      | c :: s' => c :: IMAGE_PATTERN_replace repl s'
      end
  end.

(** [IMAGE_PATTERN.sub(image_tag, content, 1)]: the template is compiled
    first. *)
Definition IMAGE_PATTERN_sub1 (image_tag : str) (content : str)
  : result (list ascii) :=
  repl ← parse_template 0 None image_tag;
  Returns (IMAGE_PATTERN_replace repl content).

Definition image_tag (image_info : ImageInfo) : list ascii :=
  py "![Image](images/" ++ filename image_info ++ py ")".

(** The loop over [self.image_map.items()], in insertion order. *)
Fixpoint resolve_images (image_map : list (list ascii * ImageInfo))
    (content : str) : result (list ascii) :=
  match image_map with
  | [] => Returns content
  | entry :: image_map' =>
      content ← IMAGE_PATTERN_sub1 (image_tag entry.2) content;
      resolve_images image_map' content
  end.

(** A relationship of the document part. *)
Record Rel : Type := mkRel {
  rId : list ascii;
  is_external : bool;
  target_ref : list ascii
}.

Definition quote : ascii := ascii_of_nat 34.

(** The relationship id is written into the link pattern as it is, so it
    is read as a regular expression. The syntax embedded here: the dot
    stands for any character but the newline, and a character that is not
    special stands for itself. *)
Inductive atom : Type :=
  | Char (c : ascii)
  | AnyChar.

(** The special characters of a regular expression. *)
Definition is_special (c : ascii) : bool :=
  in_chars (py ".^$*+?{}[]\|()") c.

Definition compile_char (c : ascii) : option atom :=
  if ascii_eqb c "." then Some AnyChar
  else if is_special c then None
  else Some (Char c).

Definition compile_rId (rid : str) : option (list atom) :=
  mapM compile_char rid.

Definition atom_match (a : atom) (c : ascii) : bool :=
  match a with
  | Char x => ascii_eqb x c
  | AnyChar => negb (ascii_eqb c newline)
  end.

(** The atoms at the start of [s]: what follows them. *)
Fixpoint atoms_match (atoms : list atom) (s : str) : option (list ascii) :=
  match atoms, s with
  | [], _ => Some s
  | a :: atoms', c :: s' =>
      if atom_match a c then atoms_match atoms' s' else None
  | _ :: _, [] => None
  end.

(** The link pattern at the start of [s]: an opening bracket, the group
    (the longest run of characters other than a closing bracket), a closing
    bracket, then in parentheses rel= and the id between double quotes.
    Returns the captured group and the length of the match. *)
Definition link_match (rid : list atom) (s : str)
  : option (list ascii * nat) :=
  match s with
  | c :: s1 =>
      if ascii_eqb c "[" then
        let group := take_while (λ c, negb (ascii_eqb c "]")) s1 in
        let s2 := drop (length group) s1 in
        if startswith (py "](rel=" ++ [quote]) s2 then
          match atoms_match rid (drop 7 s2) with
          | Some s3 =>
              if startswith (quote :: py ")") s3
              then Some (group, 1 + length group + 7 + length rid + 2)
              else None
          | None => None
          end
        else None
      else None
  | [] => None
  end.

(** [re.sub] of the compiled link pattern by the compiled template: every
    match that does not overlap an earlier one, left to right; [skip] is
    the number of characters of [s] still covered by the last match. *)
Fixpoint link_replace (rid : list atom) (repl : list template_item)
    (skip : nat) (s : str) : str :=
  match s with
  | [] => []
  | c :: s' =>
      match skip with
      | S k => link_replace rid repl k s'
      | 0 =>
          match link_match rid s with
          | Some (group, n) =>
              expand_template repl [take n s; group]
              ++ link_replace rid repl (n - 1) s'
          | None => c :: link_replace rid repl 0 s'
          end
      end
  end.

(** The replacement of a link: the first group in brackets, then the
    target in parentheses. *)
Definition link_template (target_ref : str) : list ascii :=
  py "[\1](" ++ target_ref ++ py ")".

(** The call of [re.sub] for one external relationship: the pattern is
    compiled, then the template (the pattern has one group), then the
    text is searched. *)
Definition link_sub (rel : Rel) (content : str) : result (list ascii) :=
  match compile_rId (rId rel) with
  | None => Unmodelled
  | Some rid =>
      repl ← parse_template 1 None (link_template (target_ref rel));
      Returns (link_replace rid repl 0 content)
  end.

(** The loop over [self.document.part.rels.values()]. *)
Fixpoint resolve_links (rels : list Rel) (content : str)
  : result (list ascii) :=
  match rels with
  | [] => Returns content
  | rel :: rels' =>
      content ← (if is_external rel then link_sub rel content
                 else Returns content);
      resolve_links rels' content
  end.

(** ** convert_to_markdown, from the raw markdown lines on *)

(** [lines] is [raw_markdown.splitlines()], [image_map] the collected
    images and [rels] the relationships of the document part. The
    exceptions that can escape the method are the one of the list pass
    and those of the two substitution loops. *)
Definition convert_to_markdown (lines : list (list ascii))
    (image_map : list (list ascii * ImageInfo)) (rels : list Rel)
  : result (list ascii) :=
  match _process_nested_lists lines with
  | None => Raises
  | Some processed_lines =>
      let markdown_lines := group_tables processed_lines in
      let content := join [newline] markdown_lines in
      content ← resolve_images image_map content;
      resolve_links rels content
  end.

(** ** Specification-level notions *)

(** The indentation widths of the list items of a block, top to bottom. *)
Definition item_widths (lines : list (list ascii)) : list nat :=
  _get_indent_level <$> filter (λ line, _is_list_item line = true) lines.

(** The distinct values of a list in the order of their first appearance:
    the IndentLevelMap of the specification gives the [k]-th of them the
    level [k]. *)
Fixpoint first_seen (ws : list nat) : list nat :=
  match ws with
  | [] => []
  | w :: ws' => w :: filter (λ v, v ≠ w) (first_seen ws')
  end.

(** The state [(m, c)] of the first pass holds exactly the widths [ds]. *)
Definition represents (st : gmap nat nat * nat) (ds : list nat) : Prop :=
  st.2 = length ds ∧ ∀ w k, st.1 !! w = Some k ↔ ds !! k = Some w.

(** A string that is empty or starts with a character that is no space. *)
Definition no_leading_space (s : list ascii) : Prop :=
  match s with [] => True | c :: _ => isspace c = false end.

Definition whitespace (s : list ascii) : Prop :=
  Forall (λ c, isspace c = true) s.

(** The list markers of the specification: [*], [-], [+], or one or more
    digits followed by a period. *)
Definition is_marker (t : list ascii) : Prop :=
  t = py "*" ∨ t = py "-" ∨ t = py "+" ∨
  ∃ ds, ds ≠ [] ∧ Forall (λ c, isdigit c = true) ds ∧ t = ds ++ py ".".


(** The level the second pass finds for a line of the block [lines]: that
    of the closest known width. *)
Definition line_level (lines : list (list ascii)) (line : str) : option nat :=
  let indent_to_level := (collect_levels lines).1 in
  closest_indent ←
    py_min (λ x, abs_diff x (_get_indent_level line))
           (sorted_keys indent_to_level);
  indent_to_level !! closest_indent.

(** A continuation line: not blank and no list item. *)
Definition is_continuation (line : list ascii) : bool :=
  nonempty (lstrip line) && negb (_is_list_item line).

(** Every continuation line of the block hangs under an item of the
    deepest level of the block. *)
Definition continuations_deepest (lines : list (list ascii)) : bool :=
  forallb
    (λ line,
       implb (is_continuation line)
             match line_level lines line with
             | Some level => S level =? (collect_levels lines).2
             | None => false
             end)
    lines.

(** A block as the segmentation builds it: a list item first. *)
Definition starts_with_item (block : list (list ascii)) : Prop :=
  ∃ hd tl, block = hd :: tl ∧ _is_list_item hd = true.

(** The invariant of the segmentation loop. *)
Definition seg_inv (st : seg_state) : Prop :=
  (if in_list st then starts_with_item (list_block st)
   else list_block st = [])
  ∧ Forall starts_with_item (passed st).

(** The state [st] with [r] put before its output and [p] before its
    recorded calls. *)
Definition seg_shift (r : list (list ascii)) (p : list (list (list ascii)))
    (st : seg_state) : seg_state :=
  SegState (r ++ seg_result st) (list_block st) (in_list st) (p ++ passed st).

(** A run of lines that the segmentation keeps in one block when it meets
    it outside a list: a list item, then lines that are not blank. *)
Definition is_list_run (block : list (list ascii)) : bool :=
  match block with
  | [] => false
  | hd :: tl => _is_list_item hd && forallb (λ l, nonempty (lstrip l)) tl
  end.

(** The loop is outside a list after the lines [pre]. *)
Definition ends_outside_list (pre : list (list ascii)) : bool :=
  match seg_loop seg_init pre with
  | Some st => negb (in_list st)
  | None => false
  end.

(** The state [st] with [r] put before its output. *)
Definition tbl_shift (r : list (list ascii)) (st : tbl_state) : tbl_state :=
  TblState (r ++ markdown_lines st) (current_table st) (in_table st).

(** A line that the grouping pass buffers as a table row. *)
Definition is_buffered_row (line : list ascii) : bool :=
  negb (is_metadata_line line) && is_table_line line.

(** A line that ends a table: no metadata comment and no table line. *)
Definition ends_table (line : list ascii) : bool :=
  negb (is_metadata_line line) && negb (is_table_line line).

(** The grouping loop is outside a table after the lines [pre]. *)
Definition ends_outside_table (pre : list (list ascii)) : bool :=
  negb (in_table (foldl tbl_step tbl_init pre)).

(** The invariant of the grouping loop. *)
Definition tbl_inv (st : tbl_state) : Prop :=
  if in_table st then current_table st ≠ [] else current_table st = [].

(** ** The class-level patterns that no method uses *)

(** [LIST_BULLET_PATTERN.match(s)] as a truth value, for [^\s*[\*\-\+]\s]:
    the whitespace run is taken whole, as a bullet is no whitespace. *)
Definition LIST_BULLET_PATTERN_match (s : str) : bool :=
  match lstrip s with
  | c :: d :: _ => in_chars (py "*-+") c && isspace d
  | _ => false
  end.

(** [LIST_NUMBER_PATTERN.match(s)] as a truth value, for [^\s*\d+\.\s]. *)
Definition LIST_NUMBER_PATTERN_match (s : str) : bool :=
  let r := lstrip s in
  nonempty (take_while isdigit r) &&
  match drop_while isdigit r with
  | c :: d :: _ => ascii_eqb c "." && isspace d
  | _ => false
  end.

Definition is_dash_or_colon (c : ascii) : bool :=
  ascii_eqb c "-" || ascii_eqb c ":".

(** TABLE_SEPARATOR_PATTERN at the start of [s]: a pipe, whitespace, one
    or more dashes or colons, whitespace, a pipe. Each run is taken whole:
    the character classes are disjoint and a pipe is in none of them. *)
Definition table_separator_at (s : str) : bool :=
  match s with
  | c :: r =>
      ascii_eqb c "|" &&
      let r1 := drop_while isspace r in
      nonempty (take_while is_dash_or_colon r1) &&
      startswith (py "|")
        (drop_while isspace (drop_while is_dash_or_colon r1))
  | [] => false
  end.

(** [TABLE_SEPARATOR_PATTERN.search(s)] as a truth value. *)
Fixpoint TABLE_SEPARATOR_PATTERN_search (s : str) : bool :=
  table_separator_at s ||
  match s with
  | [] => false
  | _ :: s' => TABLE_SEPARATOR_PATTERN_search s'
  end.

(** ** Documents with at most one image placeholder per line *)

(** The text [t] does not hold the character [c]. *)
Definition lacks (c : ascii) (t : str) : bool :=
  forallb (λ x, negb (ascii_eqb x c)) t.

(** A character that neither opens nor closes an image reference and does
    not end a line. *)
Definition plain_char (c : ascii) : bool :=
  negb (ascii_eqb c "!") && negb (ascii_eqb c "]")
  && negb (ascii_eqb c newline).

Definition plain (t : str) : bool := forallb plain_char t.

Definition no_bang (t : str) : bool :=
  forallb (λ c, negb (ascii_eqb c "!")) t.

Definition no_close_paren (t : str) : bool :=
  forallb (λ c, negb (ascii_eqb c ")")) t.

(** The placeholder the converter writes for an embedded image: an alt
    text and a data URI. *)
Definition placeholder (alt data : str) : list ascii :=
  py "![" ++ alt ++ py "](data:image" ++ data ++ py ")".

(** A line that holds one placeholder between two stretches of text. *)
Record image_line : Type := mkImageLine {
  il_before : list ascii;
  il_alt : list ascii;
  il_data : list ascii;
  il_after : list ascii
}.

Definition well_formed_line (l : image_line) : bool :=
  plain (il_before l) && plain (il_alt l) && no_close_paren (il_data l)
  && plain (il_after l).

Definition raw_line (l : image_line) : list ascii :=
  il_before l ++ placeholder (il_alt l) (il_data l) ++ il_after l.

(** The line with its placeholder replaced by the reference to an image. *)
Definition resolved_line (image_info : ImageInfo) (l : image_line)
  : list ascii :=
  il_before l ++ image_tag image_info ++ il_after l.

(** A file name that the template parser and the image pattern leave as
    it is: plain and without a backslash. *)
Definition plain_filename (f : str) : bool := plain f && lacks backslash f.

(** The lines of a text: a line with a placeholder, or a stretch of text
    in which the two characters that open an image reference nowhere
    follow each other (a metadata comment, a heading, a table row, ...). *)
Inductive text_line : Type :=
  | WithImage (l : image_line)
  | Without (t : list ascii).

Definition well_formed_text_line (l : text_line) : bool :=
  match l with
  | WithImage l => well_formed_line l
  | Without t => negb (contains (py "![") t)
  end.

Definition raw_text_line (l : text_line) : list ascii :=
  match l with
  | WithImage l => raw_line l
  | Without t => t
  end.

(** The binding of the specification: the i-th placeholder gets the i-th
    image; the placeholders beyond the images and the other lines stay. *)
Fixpoint bind_in_order (image_map : list (list ascii * ImageInfo))
    (ls : list text_line) : list (list ascii) :=
  match ls with
  | [] => []
  | Without t :: ls' => t :: bind_in_order image_map ls'
  | WithImage l :: ls' =>
      match image_map with
      | entry :: image_map' =>
          resolved_line entry.2 l :: bind_in_order image_map' ls'
      | [] => raw_line l :: bind_in_order [] ls'
      end
  end.

(** A text in which no substitution takes place, alone or before a newline
    and more text. *)
Definition inert (s : list ascii) : Prop :=
  (∀ repl, IMAGE_PATTERN_replace repl s = s)
  ∧ (∀ repl rest,
       IMAGE_PATTERN_replace repl (s ++ newline :: rest)
       = s ++ newline :: IMAGE_PATTERN_replace repl rest).

(** What [join] puts behind the first line. *)
Definition join_tail (ls : list (list ascii)) : list ascii :=
  match ls with
  | [] => []
  | _ :: _ => newline :: join [newline] ls
  end.

(** ** Shapes of the output of the grouping pass *)

(** Every buffered row is followed by a buffered row or by an empty line. *)
Fixpoint rows_closed (out : list (list ascii)) : bool :=
  match out with
  | [] => true
  | l :: out' =>
      (if is_buffered_row l then
         match out' with
         | [] => false
         | l' :: _ => is_buffered_row l' || negb (nonempty l')
         end
       else true)
      && rows_closed out'
  end.

(** A line other than a metadata comment and other than the empty line. *)
Definition is_content_line (line : list ascii) : Prop :=
  is_metadata_line line = false ∧ line ≠ [].

(** ** Documents with link placeholders *)

(** The pieces of a text with links: text without an opening bracket, a
    placeholder for the relationship [rid], a link to a target. *)
Inductive piece : Type :=
  | Plain (t : list ascii)
  | LinkRef (label rid : list ascii)
  | Link (label url : list ascii).

Definition render_piece (p : piece) : list ascii :=
  match p with
  | Plain t => t
  | LinkRef label rid =>
      py "[" ++ label ++ py "](rel=" ++ [quote] ++ rid ++ [quote] ++ py ")"
  | Link label url => py "[" ++ label ++ py "](" ++ url ++ py ")"
  end.

Definition render (ps : list piece) : list ascii :=
  concat (render_piece <$> ps).

Definition well_formed_piece (p : piece) : bool :=
  match p with
  | Plain t => lacks "[" t
  | LinkRef label rid =>
      lacks "[" label && lacks "]" label && lacks "[" rid && lacks quote rid
  | Link label url =>
      lacks "[" label && lacks "]" label && lacks "[" url && lacks quote url
  end.

(** The first external relationship with the identifier [rid]. *)
Fixpoint external_target (rels : list Rel) (rid : str)
  : option (list ascii) :=
  match rels with
  | [] => None
  | rel :: rels' =>
      if is_external rel && bool_decide (rId rel = rid)
      then Some (target_ref rel)
      else external_target rels' rid
  end.

(** Resolution by identifier, as the specification has it. *)
Definition resolve_piece (rels : list Rel) (p : piece) : piece :=
  match p with
  | LinkRef label rid =>
      match external_target rels rid with
      | Some url => Link label url
      | None => p
      end
  | _ => p
  end.

(** An identifier that the pattern compiler reads as a run of literal
    characters: none of them is special. *)
Definition literal_id (rid : str) : bool :=
  forallb (λ c, negb (is_special c)) rid.

(** An identifier within the syntax of [compile_rId]: no special character
    but the dot. *)
Definition regular_id (rid : str) : bool :=
  forallb (λ c, ascii_eqb c "." || negb (is_special c)) rid.

(** A relationship whose identifier is literal and without a double quote,
    and whose target holds no backslash, opening bracket or double
    quote. *)
Definition well_formed_rel (rel : Rel) : bool :=
  literal_id (rId rel) && lacks quote (rId rel)
  && lacks backslash (target_ref rel) && lacks "[" (target_ref rel)
  && lacks quote (target_ref rel).

(** The replacement of a link whose target holds no backslash, once
    compiled. *)
Definition literal_link (target : str) : list template_item :=
  [Literal "["; GroupRef 1; Literal "]"; Literal "("]
  ++ (Literal <$> target) ++ [Literal ")"].

(** One pass of the substitution, on a piece. *)
Definition resolve_one (rid target : str) (p : piece) : piece :=
  match p with
  | LinkRef label rid' =>
      if bool_decide (rid' = rid) then Link label target else p
  | _ => p
  end.

(** ** _process_image and _collect_images *)

(** What the two methods read of a relationship of the document part:
    whether it is external, whether its target part is an image part, and
    the content type and the bytes of that part. *)
Record PartRel : Type := mkPartRel {
  part_is_external : bool;
  part_is_image : bool;
  part_content_type : list ascii;
  part_blob : list ascii
}.

(** [s.split(sep)[-1]]: what follows the last separator. *)
Definition split_last (sep : ascii) (s : str) : list ascii :=
  reverse (take_while (λ c, negb (ascii_eqb c sep)) (reverse s)).

(** The file name of the source: stem, underscore, counter, dot,
    extension. *)
Definition image_filename (stem : str) (image_counter : nat)
    (extension : str) : list ascii :=
  stem ++ py "_" ++ py (pretty image_counter) ++ py "." ++ extension.

(** [None] is the [None] of the source, also returned when the lookup or
    the access to the target part raises. *)
Definition _process_image (stem : str) (rels : gmap (list ascii) PartRel)
    (image_counter : nat) (rId : str) : option ImageInfo :=
  match rels !! rId with
  | None => None
  | Some rel =>
      if part_is_external rel then None
      else if negb (part_is_image rel) then None
      else
        let extension := split_last "/" (part_content_type rel) in
        Some (mkImageInfo (image_filename stem image_counter extension)
                          (part_blob rel) (part_content_type rel))
  end.

(** [rId in image_rels]: the comprehension keeps the internal image
    relationships, each under its [rId], the key it has in [rels]. *)
Definition in_image_rels (rels : gmap (list ascii) PartRel) (rId : str)
  : bool :=
  match rels !! rId with
  | Some rel => negb (part_is_external rel) && part_is_image rel
  | None => false
  end.

(** [d[k] = v] on a dictionary kept in insertion order. *)
Fixpoint dict_set (k : str) (v : ImageInfo)
    (d : list (list ascii * ImageInfo)) : list (list ascii * ImageInfo) :=
  match d with
  | [] => [(k, v)]
  | (k', v') :: d' =>
      if bool_decide (k' = k) then (k, v) :: d'
      else (k', v') :: dict_set k v d'
  end.

(** The body of the loops on one run; [run] is the [r:embed] of the first
    blip of the run, if there is one. The state is [image_map] and
    [image_counter]. *)
Definition collect_run (stem : str) (rels : gmap (list ascii) PartRel)
    (st : list (list ascii * ImageInfo) * nat) (run : option (list ascii))
  : list (list ascii * ImageInfo) * nat :=
  match run with
  | None => st
  | Some rId =>
      if negb (in_image_rels rels rId) then st
      else
        match _process_image stem rels st.2 rId with
        | Some image_info => (dict_set rId image_info st.1, S st.2)
        | None => st
        end
  end.

Definition _collect_images (extract_images_option : bool) (stem : str)
    (rels : gmap (list ascii) PartRel)
    (paragraphs : list (list (option (list ascii))))
    (st : list (list ascii * ImageInfo) * nat)
  : list (list ascii * ImageInfo) * nat :=
  if negb extract_images_option then st
  else foldl (collect_run stem rels) st (concat paragraphs).

(** The runs that refer to an internal image, in document order, each
    with its relationship. *)
Definition image_runs (rels : gmap (list ascii) PartRel)
    (paragraphs : list (list (option (list ascii))))
  : list (list ascii * PartRel) :=
  omap (λ run : option (list ascii),
          rId ← run;
          rel ← rels !! rId;
          if negb (part_is_external rel) && part_is_image rel
          then Some (rId, rel) else None)
       (concat paragraphs).

(** The image of the [i]-th such run. *)
Definition image_info_of (stem : str) (i : nat) (rel : PartRel) : ImageInfo :=
  mkImageInfo
    (image_filename stem i (split_last "/" (part_content_type rel)))
    (part_blob rel) (part_content_type rel).

(** The images of the runs [rs], numbered from [i] on. *)
Fixpoint number_from (stem : str) (i : nat)
    (rs : list (list ascii * PartRel)) : list (list ascii * ImageInfo) :=
  match rs with
  | [] => []
  | (rId, rel) :: rs' =>
      (rId, image_info_of stem i rel) :: number_from stem (S i) rs'
  end.

(** The file names of an image map are distinct and carry counters below
    the current one. *)
Definition filenames_fresh (stem : str)
    (st : list (list ascii * ImageInfo) * nat) : Prop :=
  NoDup ((λ entry, filename entry.2) <$> st.1)
  ∧ ∀ entry, entry ∈ st.1 →
      ∃ c ext, c < st.2 ∧ filename entry.2 = image_filename stem c ext.
(** * Properties *)

(** ** Worked inputs *)

Example process_list_block_example :
  _process_list_block [py "* Item A"; py "  * Item B"; py "- Item C"]
  = Some [py "* Item A"; py "  * Item B"; py "* Item C"; LIST_BLOCK_COMMENT].
Proof. vm_compute. reflexivity. Qed.

Example two_rows_then_text :
  convert_to_markdown [py "| a |"; py "| b |"; py "body"] [] []
  = Returns (join [newline]
      [py "| a |"; py "| b |"; []; py "body"; py "<!-- Type: Text Body -->"]).
Proof. vm_compute. reflexivity. Qed.

Example images_same_line :
  resolve_images
    [(py "rId1", mkImageInfo (py "d_0.png") [] (py "image/png"));
     (py "rId2", mkImageInfo (py "d_1.png") [] (py "image/png"))]
    (py "![a](data:image/png;base64,AA) ![b](data:image/png;base64,BB)")
  = Returns (py "![Image](images/d_1.png)").
Proof. vm_compute. reflexivity. Qed.

Example links_by_identifier :
  let q := [ascii_of_nat 34] in
  resolve_links
    [mkRel (py "rId5") true (py "http://x"); mkRel (py "rId6") false (py "y")]
    (py "see [a](rel=" ++ q ++ py "rId5" ++ q ++ py ") and [b](rel=" ++ q
     ++ py "rId6" ++ q ++ py ") and [c](rel=" ++ q ++ py "rId5" ++ q ++ py ")")
  = Returns (py "see [a](http://x) and [b](rel=" ++ q ++ py "rId6" ++ q
             ++ py ") and [c](http://x)").
Proof. vm_compute. reflexivity. Qed.

Example images_two_lines :
  resolve_images
    [(py "rId1", mkImageInfo (py "d_0.png") [] (py "image/png"));
     (py "rId2", mkImageInfo (py "d_1.png") [] (py "image/png"))]
    (py "![a](data:image/png;base64,AA)" ++ [newline]
     ++ py "![b](data:image/png;base64,BB)")
  = Returns (py "![Image](images/d_0.png)" ++ [newline]
             ++ py "![Image](images/d_1.png)").
Proof. vm_compute. reflexivity. Qed.

(** A backslash in a file name or in a target is read by the template
    parser: an escape it does not know raises whatever the text is, one it
    knows is expanded, and a dot in an id stands for any character. *)
Example backslash_in_names :
  resolve_images
    [(py "rId1", mkImageInfo (py "C:\docs_0.png") [] (py "image/png"))] []
  = Raises
  ∧ resolve_links [mkRel (py "rId5") true (py "file:///C:\docs\x.docx")] []
    = Raises
  ∧ resolve_links [mkRel (py "rId5") true (py "C:\new")]
      (py "[a](rel=" ++ [quote] ++ py "rId5" ++ [quote] ++ py ")")
    = Returns (py "[a](C:" ++ [newline] ++ py "ew)")
  ∧ resolve_links [mkRel (py "rId.5") true (py "http://x")]
      (py "[a](rel=" ++ [quote] ++ py "rIdX5" ++ [quote] ++ py ")")
    = Returns (py "[a](http://x)").
Proof. vm_compute. repeat split; reflexivity. Qed.

(** ** Strings *)

Section strings.
Context {A : Type} (p : A → bool).

Lemma drop_while_app_all (l k : list A) :
  Forall (λ x, p x = true) l → drop_while p (l ++ k) = drop_while p k.
Proof. induction 1 as [|x l Hx _ IH]; simpl; [done|]. by rewrite Hx. Qed.

Lemma drop_while_fixed (l : list A) :
  match l with [] => True | x :: _ => p x = false end →
  drop_while p l = l.
Proof. destruct l as [|x l]; simpl; [done|]. by intros ->. Qed.

Lemma drop_while_head (l : list A) :
  match drop_while p l with [] => True | x :: _ => p x = false end.
Proof.
  induction l as [|x l IH]; simpl; [done|].
  destruct (p x) eqn:Hx; [done|]. by simpl.
Qed.

Lemma drop_while_idemp (l : list A) :
  drop_while p (drop_while p l) = drop_while p l.
Proof. apply drop_while_fixed, drop_while_head. Qed.

Lemma take_while_app_stop (l k : list A) :
  Forall (λ x, p x = true) l →
  match k with [] => True | x :: _ => p x = false end →
  take_while p (l ++ k) = l.
Proof.
  induction 1 as [|x l Hx _ IH]; simpl; intros Hk.
  - destruct k as [|y k]; simpl; [done|]. by rewrite Hk.
  - by rewrite Hx, IH.
Qed.

End strings.

Lemma ascii_eqb_true (a b : ascii) : ascii_eqb a b = true ↔ a = b.
Proof. apply Ascii.eqb_eq. Qed.

Lemma lstrip_no_leading_space (s : list ascii) : no_leading_space (lstrip s).
Proof. apply drop_while_head. Qed.

Lemma lstrip_fixed (s : list ascii) : no_leading_space s → lstrip s = s.
Proof. apply drop_while_fixed. Qed.

Lemma lstrip_idemp (s : list ascii) : lstrip (lstrip s) = lstrip s.
Proof. apply drop_while_idemp. Qed.

Lemma str_mul_spaces (n : nat) :
  Forall (λ c, isspace c = true) (str_mul (py "  ") n).
Proof. induction n as [|n IH]; simpl; repeat constructor; done. Qed.

Lemma length_str_mul (n : nat) : length (str_mul (py "  ") n) = 2 * n.
Proof. induction n as [|n IH]; simpl in *; lia. Qed.

Lemma lstrip_pad (n : nat) (s : list ascii) :
  lstrip (str_mul (py "  ") n ++ s) = lstrip s.
Proof. apply drop_while_app_all, str_mul_spaces. Qed.

Lemma indent_pad (n : nat) (s : list ascii) :
  no_leading_space s → _get_indent_level (str_mul (py "  ") n ++ s) = 2 * n.
Proof.
  intros Hs. unfold _get_indent_level.
  rewrite lstrip_pad, (lstrip_fixed s Hs), length_app, length_str_mul. lia.
Qed.

Lemma is_list_item_lstrip (line : list ascii) :
  _is_list_item (lstrip line) = _is_list_item line.
Proof. unfold _is_list_item. by rewrite lstrip_idemp. Qed.

Lemma is_list_item_pad (n : nat) (s : list ascii) :
  _is_list_item (str_mul (py "  ") n ++ s) = _is_list_item s.
Proof.
  rewrite <-(is_list_item_lstrip (_ ++ _)), lstrip_pad. apply is_list_item_lstrip.
Qed.

Lemma item_content_no_leading_space (s : list ascii) :
  no_leading_space (item_content s).
Proof.
  unfold item_content, sub_number_prefix.
  destruct (match_number_dot s); apply drop_while_head.
Qed.

(** The content of a normalized item is what follows its ["* "]. *)
Lemma item_content_star (c : list ascii) :
  no_leading_space c → item_content (py "* " ++ c) = c.
Proof.
  intros Hc. unfold item_content, lstrip_chars, match_number_dot.
  change (py "* " ++ c) with ("*"%char :: " "%char :: c).
  cbn. by apply lstrip_fixed.
Qed.

(** ** The level map of a list block *)

Lemma filter_ext_elem {A} (P Q : A → Prop) `{!∀ x, Decision (P x)}
    `{!∀ x, Decision (Q x)} (l : list A) :
  (∀ x, x ∈ l → P x ↔ Q x) → filter P l = filter Q l.
Proof.
  induction l as [|a l IH]; intros HPQ; [done|].
  rewrite !filter_cons, IH by (intros x Hx; apply HPQ; by right).
  destruct (decide (P a)) as [HP|HP], (decide (Q a)) as [HQ|HQ]; try done;
    exfalso; apply (HPQ a) in HP || apply (HPQ a) in HQ; try done; by left.
Qed.

Lemma filter_all {A} (P : A → Prop) `{!∀ x, Decision (P x)} (l : list A) :
  (∀ x, P x) → filter P l = l.
Proof.
  intros HP. induction l as [|a l IH]; [done|].
  by rewrite filter_cons, decide_True, IH.
Qed.

Lemma filter_fmap_comm {A B} (f : A → B) (P : B → Prop)
    `{!∀ x, Decision (P x)} (l : list A) :
  filter P (f <$> l) = f <$> filter (λ x, P (f x)) l.
Proof.
  induction l as [|a l IH]; [done|].
  rewrite fmap_cons, !filter_cons, IH. by destruct (decide (P (f a))).
Qed.

Lemma elem_of_first_seen (ws : list nat) (x : nat) :
  x ∈ first_seen ws ↔ x ∈ ws.
Proof.
  induction ws as [|w ws IH]; simpl; [done|].
  rewrite !elem_of_cons, list_elem_of_filter, IH.
  destruct (decide (x = w)); tauto.
Qed.

Lemma NoDup_first_seen (ws : list nat) : NoDup (first_seen ws).
Proof.
  induction ws as [|w ws IH]; simpl; constructor.
  - rewrite list_elem_of_filter. tauto.
  - by apply NoDup_filter.
Qed.

Lemma first_seen_fmap (f : nat → nat) (ws : list nat) :
  (∀ a b, a ∈ ws → b ∈ ws → f a = f b → a = b) →
  first_seen (f <$> ws) = f <$> first_seen ws.
Proof.
  induction ws as [|w ws IH]; intros Hinj; [done|].
  rewrite fmap_cons. cbn [first_seen].
  rewrite IH by (intros a b Ha Hb; apply Hinj; by right).
  rewrite fmap_cons.
  f_equal. rewrite filter_fmap_comm. f_equal.
  apply filter_ext_elem. intros v Hv. rewrite elem_of_first_seen in Hv. split.
  - intros Hne ->. done.
  - intros Hne Heq. apply Hne, Hinj; [by right|by left|done].
Qed.

Lemma represents_snoc (m : gmap nat nat) (ds : list nat) (w : nat) :
  represents (m, length ds) ds → m !! w = None →
  represents (<[w := length ds]> m, S (length ds)) (ds ++ [w]).
Proof.
  intros [_ Hm] Hw. split; simpl; [rewrite length_app; simpl; lia|].
  intros v k. rewrite lookup_insert. case_decide as Hv; subst.
  - split.
    + intros [= <-]. by rewrite lookup_app_r, Nat.sub_diag.
    + intros Hk. f_equal. destruct (decide (k < length ds)) as [Hlt|Hge].
      * rewrite lookup_app_l in Hk by done. apply Hm in Hk. simpl in Hk. congruence.
      * apply lookup_lt_Some in Hk. rewrite length_app in Hk. simpl in Hk. lia.
  - simpl in Hm. rewrite Hm. split.
    + intros Hk. by apply lookup_app_l_Some.
    + intros Hk. apply lookup_app_Some in Hk as [Hk|[Hge Hk]]; [done|].
      apply list_lookup_singleton_Some in Hk as [_ ?]. congruence.
Qed.

Lemma item_widths_cons (line : list ascii) (lines : list (list ascii)) :
  item_widths (line :: lines) =
  if _is_list_item line then _get_indent_level line :: item_widths lines
  else item_widths lines.
Proof.
  unfold item_widths. rewrite filter_cons.
  destruct (_is_list_item line); by case_decide.
Qed.

Lemma collect_levels_from (lines : list (list ascii)) (st : gmap nat nat * nat)
    (ds : list nat) :
  represents st ds →
  represents (foldl collect_step st lines)
    (ds ++ filter (λ v, v ∉ ds) (first_seen (item_widths lines))).
Proof.
  revert st ds. induction lines as [|line lines IH]; intros [m c] ds Hst.
  { simpl. by rewrite app_nil_r. }
  rewrite item_widths_cons. cbn [foldl]. unfold collect_step at 2.
  destruct (_is_list_item line) eqn:Hitem; [|by apply IH].
  set (w := _get_indent_level line). cbn [first_seen].
  pose proof Hst as [Hc Hm]. simpl in Hc, Hm. subst c.
  rewrite filter_cons, list_filter_filter.
  destruct (m !! w) as [k|] eqn:Hw.
  - apply Hm, list_elem_of_lookup_2 in Hw.
    rewrite decide_False by tauto.
    erewrite list_filter_iff; [by apply IH|].
    intros v. simpl. split; [tauto|].
    intros Hv. split; [done|]. by intros ->.
  - assert (w ∉ ds) as Hnotin.
    { intros [k Hk]%list_elem_of_lookup. apply Hm in Hk. congruence. }
    rewrite decide_True by done.
    erewrite list_filter_iff.
    + rewrite cons_middle, app_assoc. apply IH. by apply represents_snoc.
    + intros v. simpl. rewrite elem_of_app, list_elem_of_singleton. tauto.
Qed.

(** The first pass builds the IndentLevelMap of the specification: the
    width that is [k]-th in first-seen order gets the level [k]. *)
Lemma collect_levels_first_seen (lines : list (list ascii)) :
  represents (collect_levels lines) (first_seen (item_widths lines)).
Proof.
  unfold collect_levels.
  pose proof (collect_levels_from lines (∅, 0) []) as H. simpl in H.
  rewrite filter_all in H by (intros; apply not_elem_of_nil).
  apply H. split; simpl; [done|]. intros w k. by rewrite lookup_empty.
Qed.

(** ** The closest known width *)

Lemma py_min_fold {A} (key : A → nat) (l : list A) (b : A) :
  let r := foldl (λ best y, if key y <? key best then y else best) b l in
  r ∈ b :: l ∧ key r ≤ key b ∧ ∀ y, y ∈ l → key r ≤ key y.
Proof.
  revert b. induction l as [|x l IH]; intros b; simpl.
  { split; [by left|]. split; [done|]. by intros y ?%elem_of_nil. }
  destruct (key x <? key b) eqn:Hlt.
  - apply Nat.ltb_lt in Hlt. destruct (IH x) as (Hin & Hle & Hall).
    split; [by right|]. split; [lia|].
    intros y [->|Hy]%elem_of_cons; [done|by apply Hall].
  - apply Nat.ltb_ge in Hlt. destruct (IH b) as (Hin & Hle & Hall).
    split; [|split; [done|]].
    + apply elem_of_cons in Hin as [->|Hin]; [by left|by do 2 right].
    + intros y [->|Hy]%elem_of_cons; [lia|by apply Hall].
Qed.

(** [min] returns an element whose key no other element undercuts. *)
Lemma py_min_spec {A} (key : A → nat) (l : list A) (x : A) :
  py_min key l = Some x → x ∈ l ∧ ∀ y, y ∈ l → key x ≤ key y.
Proof.
  destruct l as [|b l]; simpl; [done|]. intros [= <-].
  destruct (py_min_fold key l b) as (Hin & Hle & Hall).
  split; [done|]. intros y [->|Hy]%elem_of_cons; [done|by apply Hall].
Qed.

Lemma py_min_is_Some {A} (key : A → nat) (l : list A) :
  l ≠ [] → is_Some (py_min key l).
Proof. destruct l; [done|]. simpl. eauto. Qed.

Lemma elem_of_sorted_keys (m : gmap nat nat) (x : nat) :
  x ∈ sorted_keys m ↔ is_Some (m !! x).
Proof.
  unfold sorted_keys.
  rewrite (merge_sort_Permutation Nat.le), elem_of_elements. apply elem_of_dom.
Qed.

(** A width of the map is its own closest width. *)
Lemma closest_exact (m : gmap nat nat) (w : nat) :
  is_Some (m !! w) →
  py_min (λ x, abs_diff x w) (sorted_keys m) = Some w.
Proof.
  intros Hw%elem_of_sorted_keys.
  destruct (py_min_is_Some (λ x, abs_diff x w) (sorted_keys m)) as [c Hc].
  { intros Hnil. rewrite Hnil in Hw. by apply elem_of_nil in Hw. }
  rewrite Hc. f_equal. apply py_min_spec in Hc as [_ Hmin].
  specialize (Hmin w Hw). unfold abs_diff in Hmin. lia.
Qed.

(** Every non-blank line gets a closest width and a level as soon as the
    map holds one width. *)
Lemma closest_level_is_Some (m : gmap nat nat) (w indent : nat) :
  is_Some (m !! w) →
  ∃ c level, py_min (λ x, abs_diff x indent) (sorted_keys m) = Some c
             ∧ m !! c = Some level.
Proof.
  intros Hw%elem_of_sorted_keys.
  destruct (py_min_is_Some (λ x, abs_diff x indent) (sorted_keys m)) as [c Hc].
  { intros Hnil. rewrite Hnil in Hw. by apply elem_of_nil in Hw. }
  pose proof Hc as [[level Hl]%elem_of_sorted_keys _]%py_min_spec. eauto.
Qed.

Lemma is_list_item_nonempty (line : list ascii) :
  _is_list_item line = true → nonempty (lstrip line) = true.
Proof. unfold _is_list_item. by intros [? _]%andb_true_iff. Qed.

Section list_block.
Variable lines : list (list ascii).

Abbreviation m := ((collect_levels lines).1).

Lemma item_width_level (line : list ascii) :
  line ∈ lines → _is_list_item line = true →
  ∃ level, m !! _get_indent_level line = Some level
           ∧ first_seen (item_widths lines) !! level
             = Some (_get_indent_level line).
Proof.
  intros Hin Hitem.
  assert (_get_indent_level line ∈ first_seen (item_widths lines)) as Hw.
  { apply elem_of_first_seen, list_elem_of_fmap. exists line.
    split; [done|]. by apply list_elem_of_filter. }
  apply list_elem_of_lookup in Hw as [level Hlevel]. exists level.
  split; [|done]. by apply (collect_levels_first_seen lines).
Qed.

Lemma normalize_line_item (line : list ascii) :
  line ∈ lines → _is_list_item line = true →
  ∃ level,
    first_seen (item_widths lines) !! level = Some (_get_indent_level line)
    ∧ m !! _get_indent_level line = Some level
    ∧ normalize_line m (sorted_keys m) line
      = Some (str_mul (py "  ") level ++ py "* "
              ++ item_content (lstrip line)).
Proof.
  intros Hin Hitem. destruct (item_width_level line Hin Hitem) as (l & Hm & Hl).
  exists l. split; [done|]. split; [done|]. unfold normalize_line.
  rewrite (is_list_item_nonempty line Hitem). cbn [negb].
  rewrite closest_exact by eauto. cbn [mbind option_bind].
  by rewrite Hm, Hitem.
Qed.

Lemma normalize_line_is_Some (line : list ascii) :
  (∃ item, item ∈ lines ∧ _is_list_item item = true) →
  is_Some (normalize_line m (sorted_keys m) line).
Proof.
  intros (item & Hin & Hitem).
  destruct (item_width_level item Hin Hitem) as (l & Hm & _).
  unfold normalize_line. destruct (nonempty (lstrip line)); cbn [negb]; [|eauto].
  destruct (closest_level_is_Some m _ (_get_indent_level line) (mk_is_Some _ _ Hm))
    as (c & level & -> & Hlevel).
  cbn [mbind option_bind]. rewrite Hlevel. cbn [mbind option_bind].
  destruct (_is_list_item line); eauto.
Qed.

(** A block with a list item is normalized without an exception. *)
Lemma process_list_block_is_Some :
  (∃ item, item ∈ lines ∧ _is_list_item item = true) →
  ∃ result,
    mapM (normalize_line m (sorted_keys m)) lines = Some result
    ∧ _process_list_block lines = Some (result ++ [LIST_BLOCK_COMMENT]).
Proof.
  intros Hitem.
  destruct (mapM_is_Some_2 (normalize_line m (sorted_keys m)) lines)
    as [result Hresult].
  { apply Forall_forall. intros line _. by apply normalize_line_is_Some. }
  exists result. split; [done|]. unfold _process_list_block.
  destruct lines as [|l0 ls] eqn:Hlines.
  { destruct Hitem as (? & []%elem_of_nil & _). }
  by rewrite Hresult.
Qed.
End list_block.

(** ** List items as the specification describes them *)

Lemma digit_no_space (c : ascii) : isdigit c = true → isspace c = false.
Proof.
  unfold isdigit, isspace. generalize (nat_of_ascii c). intros n Hn.
  apply andb_true_iff in Hn as [H1%Nat.leb_le H2%Nat.leb_le].
  repeat (apply orb_false_iff; split); try apply andb_false_iff;
    rewrite ?Nat.leb_gt, ?Nat.eqb_neq; lia.
Qed.

Lemma marker_no_leading_space (t rest : list ascii) :
  is_marker t → no_leading_space (t ++ rest).
Proof.
  intros [->|[->|[->|(ds & Hne & Hds & ->)]]]; try done.
  destruct Hds as [|d ds Hd _]; [done|]. by apply digit_no_space.
Qed.

Lemma take_while_digits (ds rest : list ascii) :
  Forall (λ c, isdigit c = true) ds →
  take_while isdigit (ds ++ py "." ++ rest) = ds.
Proof. intros Hds. by apply take_while_app_stop. Qed.

Lemma drop_while_digits (ds rest : list ascii) :
  Forall (λ c, isdigit c = true) ds →
  drop_while isdigit (ds ++ py "." ++ rest) = py "." ++ rest.
Proof. intros Hds. by rewrite drop_while_app_all. Qed.

Lemma match_number_dot_digits (ds rest : list ascii) :
  ds ≠ [] → Forall (λ c, isdigit c = true) ds →
  match_number_dot (ds ++ py "." ++ rest) = true.
Proof.
  intros Hne Hds. unfold match_number_dot.
  rewrite take_while_digits, drop_while_digits by done. by destruct ds.
Qed.

(** Behind a marker followed by whitespace, the content is the rest. *)
Lemma item_content_marker (t sp body : list ascii) :
  is_marker t → whitespace sp → sp ≠ [] → no_leading_space body →
  item_content (t ++ sp ++ body) = body.
Proof.
  intros Ht Hsp Hne Hbody.
  assert (lstrip (sp ++ body) = body) as Hstrip.
  { unfold lstrip. rewrite drop_while_app_all by done. by apply lstrip_fixed. }
  assert (∀ c, c ∈ py "*-+" → in_chars (py "*-+") c = true
               ∧ item_content (c :: sp ++ body) = body) as Hbullet.
  { intros c Hc. destruct sp as [|s sp]; [done|].
    apply Forall_cons in Hsp as [Hs Hsp].
    assert (in_chars (py "*-+") s = false) as Hs'.
    { destruct (in_chars (py "*-+") s) eqn:Hin; [|done].
      unfold in_chars in Hin. cbn in Hin.
      rewrite !orb_true_iff, !ascii_eqb_true in Hin.
      destruct Hin as [->|[->|[->|[]]]]; done. }
    assert (in_chars (py "*-+") c = true ∧ isdigit c = false) as [Hin Hd].
    { cbn in Hc. rewrite !elem_of_cons in Hc.
      destruct Hc as [->|[->|[->|[]%elem_of_nil]]]; done. }
    split; [done|]. unfold item_content, match_number_dot, lstrip_chars.
    cbn [take_while drop_while app]. rewrite Hd, Hin.
    cbn [nonempty andb]. cbn [drop_while]. rewrite Hs'.
    fold (lstrip ((s :: sp) ++ body)). done. }
  destruct Ht as [->|[->|[->|(ds & Hds & Hall & ->)]]].
  - apply Hbullet. cbn. rewrite !elem_of_cons. tauto.
  - apply Hbullet. cbn. rewrite !elem_of_cons. tauto.
  - apply Hbullet. cbn. rewrite !elem_of_cons. tauto.
  - rewrite <-app_assoc. unfold item_content, sub_number_prefix.
    rewrite match_number_dot_digits, drop_while_digits by done. apply Hstrip.
Qed.

Lemma is_list_item_marker (ws t rest : list ascii) :
  whitespace ws → is_marker t → _is_list_item (ws ++ t ++ rest) = true.
Proof.
  intros Hws Ht. unfold _is_list_item, lstrip.
  rewrite drop_while_app_all by done.
  fold (lstrip (t ++ rest)). rewrite lstrip_fixed by by apply marker_no_leading_space.
  destruct Ht as [->|[->|[->|(ds & Hds & Hall & ->)]]]; try done.
  rewrite <-app_assoc, match_number_dot_digits, !orb_true_r by done.
  by destruct ds.
Qed.

Lemma indent_marker (ws t rest : list ascii) :
  whitespace ws → is_marker t →
  lstrip (ws ++ t ++ rest) = t ++ rest
  ∧ _get_indent_level (ws ++ t ++ rest) = length ws.
Proof.
  intros Hws Ht.
  assert (lstrip (ws ++ t ++ rest) = t ++ rest) as Hstrip.
  { unfold lstrip. rewrite drop_while_app_all by done.
    by apply lstrip_fixed, marker_no_leading_space. }
  split; [done|]. unfold _get_indent_level.
  rewrite Hstrip, !length_app. lia.
Qed.

(** ** The normalized list items (claim C1) *)

(** C1. For every block, each list-item line is rewritten as two spaces per
    level, then [* ], then its content, where the level of a width is its
    rank among the distinct list-item widths in first-seen top-to-bottom
    order (0, 1, 2, ...); for an item written as the specification has it
    (whitespace, a marker, whitespace, a body) the content is the body, so
    that the marker and a numeric prefix are gone and [*] stands in their
    place; and the block [* Item A], [  * Item B], [- Item C] becomes
    [* Item A], [  * Item B], [* Item C] and the list-block comment. *)
Theorem list_block_items_canonical :
  (∀ (lines : list (list ascii)) (i : nat) (line : list ascii),
     lines !! i = Some line → _is_list_item line = true →
     ∃ out level,
       _process_list_block lines = Some out
       ∧ length out = S (length lines)
       ∧ first_seen (item_widths lines) !! level
         = Some (_get_indent_level line)
       ∧ out !! i = Some (str_mul (py "  ") level ++ py "* "
                          ++ item_content (lstrip line)))
  ∧ (∀ ws t sp body : list ascii,
       whitespace ws → is_marker t → whitespace sp → sp ≠ [] →
       no_leading_space body →
       _is_list_item (ws ++ t ++ sp ++ body) = true
       ∧ _get_indent_level (ws ++ t ++ sp ++ body) = length ws
       ∧ item_content (lstrip (ws ++ t ++ sp ++ body)) = body)
  ∧ _process_list_block [py "* Item A"; py "  * Item B"; py "- Item C"]
    = Some [py "* Item A"; py "  * Item B"; py "* Item C";
            py "<!-- Type: List Block -->"].
Proof.
  split; [|split].
  - intros lines i line Hi Hitem.
    assert (line ∈ lines) as Hin by by eapply list_elem_of_lookup_2.
    destruct (process_list_block_is_Some lines) as (result & Hmap & Hout);
      [by eauto|].
    destruct (normalize_line_item lines line Hin Hitem) as (level & Hl & _ & Hn).
    apply mapM_Some_1 in Hmap.
    destruct (Forall2_lookup_l _ _ _ _ _ Hmap Hi) as (y & Hy & Hline).
    exists (result ++ [LIST_BLOCK_COMMENT]), level.
    split; [done|]. split.
    { rewrite length_app, <-(Forall2_length _ _ _ Hmap). simpl. lia. }
    split; [done|]. apply lookup_app_l_Some. congruence.
  - intros ws t sp body Hws Ht Hsp Hne Hbody.
    destruct (indent_marker ws t (sp ++ body) Hws Ht) as [Hstrip Hindent].
    split; [by apply is_list_item_marker|]. split; [done|].
    rewrite Hstrip. by apply item_content_marker.
  - vm_compute. reflexivity.
Qed.

Lemma list_block_items_canonical_witness :
  let lines := [py "* Item A"; py "  * Item B"; py "- Item C"] in
  (lines !! 1 = Some (py "  * Item B")
   ∧ _is_list_item (py "  * Item B") = true
   ∧ ∃ out level,
       _process_list_block lines = Some out
       ∧ length out = S (length lines)
       ∧ first_seen (item_widths lines) !! level
         = Some (_get_indent_level (py "  * Item B"))
       ∧ out !! 1 = Some (str_mul (py "  ") level ++ py "* "
                          ++ item_content (lstrip (py "  * Item B"))))
  ∧ (whitespace (py "   ") ∧ is_marker (py "12.") ∧ whitespace (py " ")
     ∧ py " " ≠ [] ∧ no_leading_space (py "twelve")
     ∧ _is_list_item (py "   " ++ py "12." ++ py " " ++ py "twelve") = true
     ∧ _get_indent_level (py "   " ++ py "12." ++ py " " ++ py "twelve")
       = length (py "   ")
     ∧ item_content (lstrip (py "   " ++ py "12." ++ py " " ++ py "twelve"))
       = py "twelve").
Proof.
  intros lines. split.
  - split; [reflexivity|]. split; [reflexivity|].
    apply (proj1 list_block_items_canonical lines 1 (py "  * Item B"));
      reflexivity.
  - assert (whitespace (py "   ")) as Hws by (repeat constructor).
    assert (is_marker (py "12.")) as Ht.
    { do 3 right. exists (py "12"). split; [discriminate|].
      split; [repeat constructor|reflexivity]. }
    assert (whitespace (py " ")) as Hsp by (repeat constructor).
    assert (py " " ≠ []) as Hne by discriminate.
    assert (no_leading_space (py "twelve")) as Hbody by reflexivity.
    do 5 (split; [assumption|]).
    exact (proj1 (proj2 list_block_items_canonical)
             (py "   ") (py "12.") (py " ") (py "twelve")
             Hws Ht Hsp Hne Hbody).
Defined.

(** ** Renormalizing a normalized block *)

Section renormalize.
Variable lines : list (list ascii).
Variable result : list (list ascii).

Abbreviation m := ((collect_levels lines).1).
Abbreviation m' := ((collect_levels result).1).
Abbreviation ds := (first_seen (item_widths lines)).
Abbreviation pad := (str_mul (py "  ")).

(** What the second pass does to one line of the block. *)
Lemma normalize_line_cases (x y : list ascii) :
  x ∈ lines → normalize_line m (sorted_keys m) x = Some y →
  (nonempty (lstrip x) = false ∧ y = x)
  ∨ (_is_list_item x = true ∧ ∃ l,
       m !! _get_indent_level x = Some l
       ∧ y = pad l ++ py "* " ++ item_content (lstrip x))
  ∨ (is_continuation x = true ∧ ∃ l,
       line_level lines x = Some l ∧ y = pad (l + 1) ++ lstrip x).
Proof.
  intros Hin Hy. destruct (nonempty (lstrip x)) eqn:Hne.
  - right. destruct (_is_list_item x) eqn:Hitem.
    + left. split; [done|].
      destruct (normalize_line_item lines x Hin Hitem) as (l & _ & Hl & Hn).
      exists l. split; [done|]. congruence.
    + right. split; [unfold is_continuation; by rewrite Hne, Hitem|].
      unfold normalize_line in Hy.
      rewrite Hne, Hitem in Hy. cbn [negb] in Hy. unfold line_level.
      destruct (py_min _ (sorted_keys m)) as [c|]; [|done].
      cbn [mbind option_bind] in Hy |- *.
      destruct (m !! c) as [l|]; [|done]. cbn [mbind option_bind] in Hy.
      exists l. split; [done|]. congruence.
  - left. split; [done|]. unfold normalize_line in Hy. rewrite Hne in Hy.
    cbn [negb] in Hy. congruence.
Qed.

Lemma level_lt (w l : nat) : m !! w = Some l → l < length ds.
Proof.
  intros Hw. apply (collect_levels_first_seen lines) in Hw.
  by apply lookup_lt_Some in Hw.
Qed.

Lemma pad_item_indent (l : nat) (c : list ascii) :
  _get_indent_level (pad l ++ py "* " ++ c) = 2 * l
  ∧ lstrip (pad l ++ py "* " ++ c) = py "* " ++ c
  ∧ _is_list_item (pad l ++ py "* " ++ c) = true.
Proof.
  split; [by apply indent_pad|]. split.
  - rewrite lstrip_pad. by apply lstrip_fixed.
  - by rewrite is_list_item_pad.
Qed.

Lemma normalize_keeps_kind (x y : list ascii) :
  x ∈ lines → normalize_line m (sorted_keys m) x = Some y →
  _is_list_item y = _is_list_item x
  ∧ (_is_list_item x = true →
     _get_indent_level y = 2 * default 0 (m !! _get_indent_level x)).
Proof.
  intros Hin Hy.
  destruct (normalize_line_cases x y Hin Hy)
    as [[Hne ->]|[(Hitem & l & Hl & ->)|(Hcont & l & Hl & ->)]].
  - split; [done|]. intros Hitem.
    apply is_list_item_nonempty in Hitem. congruence.
  - destruct (pad_item_indent l (item_content (lstrip x))) as (Hi & _ & Hk).
    rewrite Hk, Hitem, Hl. by split.
  - apply andb_true_iff in Hcont as [_ Hitem%negb_true_iff].
    rewrite is_list_item_pad, is_list_item_lstrip, Hitem. by split.
Qed.

(** The list-item widths of normalized lines are twice the levels. *)
Lemma item_widths_normalized (xs ys : list (list ascii)) :
  Forall (λ x, x ∈ lines) xs →
  Forall2 (λ x y, normalize_line m (sorted_keys m) x = Some y) xs ys →
  item_widths ys = (λ w, 2 * default 0 (m !! w)) <$> item_widths xs.
Proof.
  intros Hall Hxy. induction Hxy as [|x y xs ys Hy Hxy IH]; [done|].
  apply Forall_cons in Hall as [Hin Hall].
  destruct (normalize_keeps_kind x y Hin Hy) as [Hkind Hindent].
  rewrite !item_widths_cons, Hkind, (IH Hall).
  destruct (_is_list_item x); [|done].
  rewrite fmap_cons. f_equal. by apply Hindent.
Qed.

Hypothesis Hresult :
  Forall2 (λ x y, normalize_line m (sorted_keys m) x = Some y) lines result.

Lemma first_seen_result :
  first_seen (item_widths result)
  = (λ w, 2 * default 0 (m !! w)) <$> ds.
Proof.
  rewrite (item_widths_normalized lines result);
    [|apply Forall_forall; auto|done].
  apply first_seen_fmap. intros a b Ha Hb Hab.
  apply elem_of_first_seen, list_elem_of_lookup in Ha as [ka Ha].
  apply elem_of_first_seen, list_elem_of_lookup in Hb as [kb Hb].
  pose proof (proj2 (proj2 (collect_levels_first_seen lines) a ka) Ha) as Hma.
  pose proof (proj2 (proj2 (collect_levels_first_seen lines) b kb) Hb) as Hmb.
  rewrite Hma, Hmb in Hab. simpl in Hab.
  assert (ka = kb) as -> by lia. congruence.
Qed.

(** The level map of the result: the width [2 * k] has the level [k]. *)
Lemma result_levels (w' k : nat) :
  m' !! w' = Some k ↔ k < length ds ∧ w' = 2 * k.
Proof.
  rewrite (proj2 (collect_levels_first_seen result) w' k), first_seen_result.
  rewrite list_lookup_fmap. split.
  - destruct (ds !! k) as [w|] eqn:Hk; [|done]. simpl. intros [= <-].
    split; [by apply lookup_lt_Some in Hk|].
    apply (collect_levels_first_seen lines) in Hk. by rewrite Hk.
  - intros [Hlt ->]. apply lookup_lt_is_Some in Hlt as [w Hk].
    rewrite Hk. simpl. f_equal.
    apply (collect_levels_first_seen lines) in Hk. by rewrite Hk.
Qed.

Lemma result_levels_size : (collect_levels lines).2 = length ds.
Proof. apply (collect_levels_first_seen lines). Qed.

(** A normalized list item is left as it is. *)
Lemma renormalize_item (l : nat) (c : list ascii) :
  l < length ds → no_leading_space c →
  normalize_line m' (sorted_keys m') (pad l ++ py "* " ++ c)
  = Some (pad l ++ py "* " ++ c).
Proof.
  intros Hl Hc. destruct (pad_item_indent l c) as (Hi & Hs & Hk).
  assert (m' !! (2 * l) = Some l) as Hm' by by apply result_levels.
  unfold normalize_line. rewrite Hs, Hi, Hk, closest_exact by eauto.
  rewrite (item_content_star c Hc).
  change (nonempty (py "* " ++ c)) with true.
  cbn [negb mbind option_bind]. by rewrite Hm'.
Qed.

(** A normalized continuation line under the deepest level is left as it
    is. *)
Lemma renormalize_continuation (l : nat) (s : list ascii) :
  S l = length ds → nonempty s = true → no_leading_space s →
  _is_list_item s = false →
  normalize_line m' (sorted_keys m') (pad (l + 1) ++ s)
  = Some (pad (l + 1) ++ s).
Proof.
  intros Hl Hne Hs Hitem.
  assert (m' !! (2 * l) = Some l) as Hm' by (apply result_levels; lia).
  destruct (closest_level_is_Some m' (2 * l) (2 * (l + 1))) as (c & k & Hc & Hk);
    [by eauto|].
  pose proof Hc as [_ Hmin]%py_min_spec.
  specialize (Hmin (2 * l)). rewrite elem_of_sorted_keys in Hmin.
  specialize (Hmin (mk_is_Some _ _ Hm')).
  pose proof Hk as [Hlt ->]%result_levels.
  unfold abs_diff in Hmin. assert (k = l) as -> by lia.
  unfold normalize_line.
  rewrite lstrip_pad, (lstrip_fixed s Hs), Hne, (indent_pad _ s Hs), Hc.
  cbn [negb mbind option_bind]. rewrite Hk. cbn [mbind option_bind].
  by rewrite is_list_item_pad, Hitem.
Qed.

(** Under [continuations_deepest] the second pass on the result is the
    identity. *)
Lemma renormalize_lines :
  continuations_deepest lines = true →
  Forall2 (λ y y', normalize_line m' (sorted_keys m') y = Some y')
          result result.
Proof.
  intros Hdeep. apply Forall_Forall2_diag, Forall_forall. intros y Hy.
  apply list_elem_of_lookup in Hy as [i Hy].
  destruct (Forall2_lookup_r _ _ _ _ _ Hresult Hy) as (x & Hx & Hxy).
  apply list_elem_of_lookup_2 in Hx.
  destruct (normalize_line_cases x y Hx Hxy)
    as [[Hne ->]|[(Hitem & l & Hl & ->)|(Hcont & l & Hl & ->)]].
  - unfold normalize_line. by rewrite Hne.
  - apply renormalize_item; [by eapply level_lt|].
    apply item_content_no_leading_space.
  - unfold continuations_deepest in Hdeep.
    rewrite forallb_forall in Hdeep. apply list_elem_of_In, Hdeep in Hx.
    rewrite Hcont, Hl in Hx. apply Nat.eqb_eq in Hx.
    rewrite result_levels_size in Hx.
    apply andb_true_iff in Hcont as [Hne Hitem%negb_true_iff].
    apply renormalize_continuation; [done|done|apply lstrip_no_leading_space|].
    by rewrite is_list_item_lstrip.
Qed.
End renormalize.

(** ** Idempotence of the normalizer (claim C5) *)

(** C5, as the code has it. Normalizing the lines that the normalizer
    produced (its result without the trailing list-block comment) gives
    the same result again, for every block whose continuation lines (the
    lines that are neither blank nor list items) all resolve to the deepest
    level of the block. *)
Theorem renormalize_idempotent (lines res : list (list ascii)) :
  continuations_deepest lines = true →
  _process_list_block lines = Some res →
  _process_list_block (removelast res) = Some res.
Proof.
  intros Hdeep Hres. destruct lines as [|l0 ls] eqn:Hlines.
  { simpl in Hres. by injection Hres as <-. }
  rewrite <-Hlines in *. unfold _process_list_block in Hres.
  rewrite Hlines in Hres at 1.
  destruct (mapM _ lines) as [result|] eqn:Hmap; [|done].
  cbn [mbind option_bind] in Hres. injection Hres as <-.
  rewrite removelast_last. apply mapM_Some_1 in Hmap.
  pose proof (renormalize_lines lines result Hmap Hdeep) as Hagain.
  apply mapM_Some_2 in Hagain. unfold _process_list_block.
  destruct result as [|r0 rs] eqn:Hr.
  { apply Forall2_length in Hmap. rewrite Hlines in Hmap. done. }
  rewrite <-Hr in *. by rewrite Hagain.
Qed.

Lemma renormalize_idempotent_witness :
  let lines := [py "1. a"; py "   - b"; py "     more"; py ""; py "   + c"] in
  let res := [py "* a"; py "  * b"; py "    more"; py ""; py "  * c";
              LIST_BLOCK_COMMENT] in
  continuations_deepest lines = true
  ∧ _process_list_block lines = Some res
  ∧ _process_list_block (removelast res) = Some res.
Proof.
  intros lines res. split; [reflexivity|]. split; [reflexivity|].
  apply (renormalize_idempotent lines res); reflexivity.
Defined.

(** C5, as the specification states it, fails: a continuation line under
    an item of a shallower level can move one level deeper when the result
    is normalized again. Here the line under the first item is as close to
    the width 0 as to the width 4 and resolves to the first of the sorted
    widths; once normalized it stands at the width of the nested item, and
    the second normalization puts it under that item. *)
Lemma renormalize_not_idempotent :
  let lines := [py "* a"; py "  more about a"; py "    * b"] in
  let res := [py "* a"; py "  more about a"; py "  * b";
              LIST_BLOCK_COMMENT] in
  _process_list_block lines = Some res
  ∧ _process_list_block (removelast res)
    = Some [py "* a"; py "    more about a"; py "  * b"; LIST_BLOCK_COMMENT]
  ∧ _process_list_block (removelast res) ≠ Some res.
Proof.
  intros lines res. split; [reflexivity|]. split; [reflexivity|].
  vm_compute. discriminate.
Qed.

(** ** The segmentation pass *)

Lemma starts_with_item_Some (block : list (list ascii)) :
  starts_with_item block → is_Some (_process_list_block block).
Proof.
  intros (hd & tl & -> & Hhd).
  destruct (process_list_block_is_Some (hd :: tl)) as (r & _ & Hr).
  - exists hd. split; [by left|done].
  - eauto.
Qed.

Lemma starts_with_item_snoc (block : list (list ascii)) (line : list ascii) :
  starts_with_item block → starts_with_item (block ++ [line]).
Proof. intros (hd & tl & -> & Hhd). by exists hd, (tl ++ [line]). Qed.

Lemma flush_block_Some (st : seg_state) :
  starts_with_item (list_block st) →
  ∃ out, _process_list_block (list_block st) = Some out
         ∧ flush_block st
           = Some (SegState (seg_result st ++ out) [] (in_list st)
                            (passed st ++ [list_block st])).
Proof.
  intros [out Hout]%starts_with_item_Some. exists out. split; [done|].
  unfold flush_block. by rewrite Hout.
Qed.

Lemma blank_no_list_item (line : list ascii) :
  nonempty (lstrip line) = false → _is_list_item line = false.
Proof. unfold _is_list_item. by intros ->. Qed.

(** One iteration never raises and keeps the invariant. *)
Lemma seg_step_inv (st : seg_state) (line : list ascii) :
  seg_inv st → ∃ st', seg_step st line = Some st' ∧ seg_inv st'.
Proof.
  intros [Hblock Hpassed]. unfold seg_step.
  destruct (_is_list_item line) eqn:Hitem.
  - destruct (in_list st) eqn:Hin.
    + cbn [mbind option_bind]. eexists. split; [done|].
      split; [|done]. cbn [in_list list_block]. rewrite Hin.
      by apply starts_with_item_snoc.
    + rewrite Hblock. cbn [nonempty_list mbind option_bind set_in_list].
      eexists. split; [done|]. unfold set_in_list. split; [|done].
      cbn [in_list list_block]. rewrite Hblock. by exists line, [].
  - destruct (in_list st) eqn:Hin.
    + destruct (nonempty (lstrip line)) eqn:Hne.
      * eexists. split; [done|]. split; [|done]. cbn [in_list list_block].
        by apply starts_with_item_snoc.
      * assert (nonempty_list (list_block st) = true) as ->.
        { by destruct Hblock as (hd & tl & -> & _). }
        destruct (flush_block_Some st Hblock) as (out & _ & ->).
        cbn [mbind option_bind].
        eexists. split; [done|]. split; [done|]. cbn [passed].
        apply Forall_app. split; [done|]. by apply Forall_singleton.
    + eexists. split; [done|]. split; [|done]. by cbn [in_list list_block].
Qed.

Lemma seg_loop_inv (lines : list (list ascii)) (st : seg_state) :
  seg_inv st → ∃ st', seg_loop st lines = Some st' ∧ seg_inv st'.
Proof.
  revert st. induction lines as [|line lines IH]; intros st Hst; simpl.
  { eauto. }
  destruct (seg_step_inv st line Hst) as (st1 & -> & Hst1).
  cbn [mbind option_bind]. by apply IH.
Qed.

Lemma seg_init_inv : seg_inv seg_init.
Proof. split; [done|]. constructor. Qed.

(** The whole pass never raises; every block it passed starts with a list
    item. *)
Lemma seg_run_inv (lines : list (list ascii)) :
  ∃ st, seg_run lines = Some st ∧ Forall starts_with_item (passed st).
Proof.
  unfold seg_run.
  destruct (seg_loop_inv lines seg_init seg_init_inv) as (st & -> & Hb & Hp).
  cbn [mbind option_bind]. unfold seg_finish.
  destruct (nonempty_list (list_block st)) eqn:Hblock.
  2: { eauto. }
  assert (starts_with_item (list_block st)) as Hstart.
  { destruct (in_list st); [done|]. by rewrite Hb in Hblock. }
  destruct (flush_block_Some st Hstart) as (out & _ & ->).
  eexists. split; [done|]. cbn [passed].
  apply Forall_app. split; [done|]. by apply Forall_singleton.
Qed.

Lemma process_nested_lists_is_Some (lines : list (list ascii)) :
  is_Some (_process_nested_lists lines).
Proof.
  unfold _process_nested_lists.
  destruct (seg_run_inv lines) as (st & -> & _). by eexists.
Qed.

(** ** Blocks passed to the normalizer (claim C9) *)

(** C9. The segmentation never raises, and every block it passes to
    [_process_list_block] is non-empty and starts with a list item; so the
    widths observed in the block and the sorted widths are non-empty, the
    closest width and its level are defined for every indentation, and the
    normalizer returns. *)
Theorem segmentation_passes_list_blocks (lines : list (list ascii)) :
  ∃ st,
    seg_run lines = Some st
    ∧ Forall
        (λ block,
           (∃ hd tl, block = hd :: tl ∧ _is_list_item hd = true)
           ∧ item_widths block ≠ []
           ∧ sorted_keys (collect_levels block).1 ≠ []
           ∧ (∀ indent, ∃ closest level,
                py_min (λ x, abs_diff x indent)
                       (sorted_keys (collect_levels block).1) = Some closest
                ∧ (collect_levels block).1 !! closest = Some level)
           ∧ is_Some (_process_list_block block))
        (passed st).
Proof.
  destruct (seg_run_inv lines) as (st & Hrun & Hpassed).
  exists st. split; [done|].
  eapply Forall_impl; [exact Hpassed|].
  intros block Hblock. split; [exact Hblock|].
  pose proof Hblock as (hd & tl & -> & Hhd).
  destruct (item_width_level (hd :: tl) hd) as (level & Hlevel & _);
    [by left|done|].
  split; [by rewrite item_widths_cons, Hhd|]. split.
  - intros Hnil.
    assert (_get_indent_level hd ∈ sorted_keys (collect_levels (hd :: tl)).1)
      as Hin by (apply elem_of_sorted_keys; eauto).
    rewrite Hnil in Hin. by apply elem_of_nil in Hin.
  - split; [|by apply starts_with_item_Some].
    intros indent. eapply closest_level_is_Some. eauto.
Qed.

Example passed_blocks_example :
  passed <$> seg_run [py "intro"; py "* a"; py "  more"; py ""; py "1. b"]
  = Some [[py "* a"; py "  more"]; [py "1. b"]].
Proof. vm_compute. reflexivity. Qed.

(** ** Where a list block ends (claim C6) *)

Lemma flush_block_shift r p (st : seg_state) :
  flush_block (seg_shift r p st) = seg_shift r p <$> flush_block st.
Proof.
  unfold flush_block, seg_shift. cbn [list_block seg_result in_list passed].
  destruct (_process_list_block (list_block st)) as [out|]; [|done].
  cbn. by rewrite !app_assoc.
Qed.

(** The loop body does not look at the output produced so far. *)
Lemma seg_step_shift r p (st : seg_state) (line : list ascii) :
  seg_step (seg_shift r p st) line = seg_shift r p <$> seg_step st line.
Proof.
  unfold seg_step. destruct (_is_list_item line).
  - change (in_list (seg_shift r p st)) with (in_list st).
    change (list_block (seg_shift r p st)) with (list_block st).
    destruct (in_list st); [done|].
    destruct (nonempty_list (list_block st)); [|done].
    rewrite flush_block_shift. by destruct (flush_block st).
  - change (in_list (seg_shift r p st)) with (in_list st).
    change (list_block (seg_shift r p st)) with (list_block st).
    destruct (in_list st).
    + destruct (nonempty (lstrip line)); [done|].
      destruct (nonempty_list (list_block st)).
      * rewrite flush_block_shift. destruct (flush_block st); [|done].
        cbn. unfold seg_shift. cbn. by rewrite !app_assoc.
      * cbn. unfold seg_shift. cbn. by rewrite !app_assoc.
    + cbn. unfold seg_shift. cbn. by rewrite !app_assoc.
Qed.

Lemma seg_loop_shift r p (lines : list (list ascii)) (st : seg_state) :
  seg_loop (seg_shift r p st) lines = seg_shift r p <$> seg_loop st lines.
Proof.
  revert st. induction lines as [|line lines IH]; intros st; simpl; [done|].
  rewrite seg_step_shift. destruct (seg_step st line) as [st1|]; [|done].
  cbn. apply IH.
Qed.

(** Inside a list, lines that are not blank only extend the block. *)
Lemma seg_loop_in_list (more : list (list ascii)) (st : seg_state) :
  in_list st = true →
  forallb (λ l, nonempty (lstrip l)) more = true →
  seg_loop st more
  = Some (SegState (seg_result st) (list_block st ++ more) true (passed st)).
Proof.
  revert st. induction more as [|line more IH]; intros st Hin Hmore; simpl.
  { destruct st as [r b i p]. simpl in *. subst. by rewrite app_nil_r. }
  apply andb_true_iff in Hmore as [Hline Hmore].
  assert (seg_step st line
          = Some (SegState (seg_result st) (list_block st ++ [line]) true
                           (passed st))) as ->.
  { unfold seg_step. rewrite Hin, Hline.
    destruct (_is_list_item line); cbn [mbind option_bind]; by rewrite ?Hin. }
  cbn [mbind option_bind]. rewrite IH by done.
  cbn [seg_result list_block passed]. by rewrite <-app_assoc.
Qed.

(** Outside a list, a list run is collected into the pending block. *)
Lemma seg_loop_list_run (block : list (list ascii)) (st : seg_state) :
  in_list st = false → list_block st = [] → is_list_run block = true →
  seg_loop st block = Some (SegState (seg_result st) block true (passed st)).
Proof.
  intros Hin Hnil Hrun. destruct block as [|hd tl]; [done|].
  apply andb_true_iff in Hrun as [Hhd Htl]. cbn [seg_loop].
  assert (seg_step st hd
          = Some (SegState (seg_result st) [hd] true (passed st))) as ->.
  { unfold seg_step. rewrite Hhd, Hin, Hnil. cbn. by rewrite Hnil. }
  cbn [mbind option_bind]. by rewrite seg_loop_in_list.
Qed.

Lemma seg_loop_app (l1 l2 : list (list ascii)) (st : seg_state) :
  seg_loop st (l1 ++ l2) = st1 ← seg_loop st l1; seg_loop st1 l2.
Proof.
  revert st. induction l1 as [|x l1 IH]; intros st; simpl; [done|].
  destruct (seg_step st x); [|done]. cbn. apply IH.
Qed.

Lemma seg_finish_shift r p (st : seg_state) :
  seg_finish (seg_shift r p st) = seg_shift r p <$> seg_finish st.
Proof.
  unfold seg_finish.
  change (list_block (seg_shift r p st)) with (list_block st).
  destruct (nonempty_list (list_block st)); [|done]. apply flush_block_shift.
Qed.

(** From a state outside a list the rest of the pass is a fresh pass. *)
Lemma seg_run_shift r p (lines : list (list ascii)) :
  (st ← seg_loop (SegState r [] false p) lines; seg_finish st)
  = seg_shift r p <$> seg_run lines.
Proof.
  replace (SegState r [] false p) with (seg_shift r p seg_init)
    by (unfold seg_shift, seg_init; cbn; by rewrite !app_nil_r).
  rewrite seg_loop_shift. unfold seg_run.
  destruct (seg_loop seg_init lines) as [st|]; [|done].
  cbn. apply seg_finish_shift.
Qed.

Lemma ends_outside_list_state (pre : list (list ascii)) :
  ends_outside_list pre = true →
  ∃ r p, seg_loop seg_init pre = Some (SegState r [] false p)
         ∧ seg_run pre = Some (SegState r [] false p).
Proof.
  unfold ends_outside_list, seg_run. intros Hpre.
  destruct (seg_loop_inv pre seg_init seg_init_inv) as (st & Hst & Hb & _).
  rewrite Hst in Hpre |- *. apply negb_true_iff in Hpre. rewrite Hpre in Hb.
  destruct st as [r b i p]. simpl in *. subst. by exists r, p.
Qed.

Lemma is_list_run_starts_with_item (block : list (list ascii)) :
  is_list_run block = true → starts_with_item block.
Proof.
  destruct block as [|hd tl]; [done|]. intros [Hhd _]%andb_true_iff.
  by exists hd, tl.
Qed.

(** C6, as the code has it. A list block is ended by every blank line,
    whatever follows it, and by the end of the input, and by nothing else:
    met outside a list, a list item and the non-blank lines after it up to
    a blank line or the end of the input are passed to the normalizer as
    one block; the blank line is emitted after the normalized block and
    what follows is segmented afresh, so that list items after the blank
    line form a block of their own with its own trailing comment. *)
Theorem blank_line_ends_list_block
    (pre block rest : list (list ascii)) (blank : list ascii) :
  ends_outside_list pre = true →
  is_list_run block = true →
  nonempty (lstrip blank) = false →
  ∃ out_pre out_block out_rest p_pre p_rest,
    _process_nested_lists pre = Some out_pre
    ∧ _process_list_block block = Some out_block
    ∧ _process_nested_lists rest = Some out_rest
    ∧ _process_nested_lists (pre ++ block ++ blank :: rest)
      = Some (out_pre ++ out_block ++ blank :: out_rest)
    ∧ _process_nested_lists (pre ++ block) = Some (out_pre ++ out_block)
    ∧ passed <$> seg_run pre = Some p_pre
    ∧ passed <$> seg_run rest = Some p_rest
    ∧ passed <$> seg_run (pre ++ block ++ blank :: rest)
      = Some (p_pre ++ block :: p_rest)
    ∧ passed <$> seg_run (pre ++ block) = Some (p_pre ++ [block]).
Proof.
  intros Hpre Hblock Hblank.
  destruct (ends_outside_list_state pre Hpre) as (r & p & Hloop & Hrun).
  pose proof (is_list_run_starts_with_item block Hblock) as Hstart.
  destruct (starts_with_item_Some block Hstart) as [out_block Hout].
  destruct (seg_run_inv rest) as (st_rest & Hrest & _).
  exists r, out_block, (seg_result st_rest), p, (passed st_rest).
  assert (seg_loop seg_init (pre ++ block) = Some (SegState r block true p))
    as Hpb.
  { rewrite seg_loop_app, Hloop. cbn [mbind option_bind].
    by rewrite seg_loop_list_run. }
  assert (nonempty_list block = true) as Hne by by destruct block.
  assert (seg_run (pre ++ block ++ blank :: rest)
          = Some (seg_shift (r ++ out_block ++ [blank]) (p ++ [block]) st_rest))
    as Hall.
  { unfold seg_run. rewrite app_assoc, seg_loop_app, Hpb.
    cbn [mbind option_bind seg_loop]. unfold seg_step at 1.
    rewrite (blank_no_list_item blank Hblank), Hblank.
    cbn [in_list list_block]. rewrite Hne. unfold flush_block at 1.
    cbn [list_block]. rewrite Hout. cbn [mbind option_bind].
    cbn [seg_result list_block passed in_list].
    rewrite <-app_assoc, seg_run_shift, Hrest. done. }
  assert (seg_run (pre ++ block)
          = Some (SegState (r ++ out_block) [] true (p ++ [block]))) as Hend.
  { unfold seg_run. rewrite Hpb. cbn [mbind option_bind]. unfold seg_finish.
    cbn [list_block]. rewrite Hne. unfold flush_block. cbn [list_block].
    by rewrite Hout. }
  unfold _process_nested_lists. rewrite Hrun, Hrest, Hall, Hend. cbn.
  rewrite <-!app_assoc. done.
Qed.

Lemma blank_line_ends_list_block_witness :
  let pre := [py "intro"] in
  let block := [py "* a"; py "  more"] in
  let rest := [py "* b"] in
  ends_outside_list pre = true
  ∧ is_list_run block = true
  ∧ nonempty (lstrip (py "")) = false
  ∧ ∃ out_pre out_block out_rest p_pre p_rest,
      _process_nested_lists pre = Some out_pre
      ∧ _process_list_block block = Some out_block
      ∧ _process_nested_lists rest = Some out_rest
      ∧ _process_nested_lists (pre ++ block ++ py "" :: rest)
        = Some (out_pre ++ out_block ++ py "" :: out_rest)
      ∧ _process_nested_lists (pre ++ block) = Some (out_pre ++ out_block)
      ∧ passed <$> seg_run pre = Some p_pre
      ∧ passed <$> seg_run rest = Some p_rest
      ∧ passed <$> seg_run (pre ++ block ++ py "" :: rest)
        = Some (p_pre ++ block :: p_rest)
      ∧ passed <$> seg_run (pre ++ block) = Some (p_pre ++ [block]).
Proof.
  intros pre block rest. split; [reflexivity|]. split; [reflexivity|].
  split; [reflexivity|].
  apply (blank_line_ends_list_block pre block rest (py "")); reflexivity.
Defined.

(** C6, as the specification states it, fails: list items behind a blank
    line are not in the block of the items before it; there are two blocks
    and two trailing comments. *)
Lemma blank_line_splits_list_block :
  let lines := [py "* a"; py ""; py "* b"] in
  _process_nested_lists lines
  = Some [py "* a"; LIST_BLOCK_COMMENT; py ""; py "* b"; LIST_BLOCK_COMMENT]
  ∧ passed <$> seg_run lines = Some [[py "* a"]; [py "* b"]]
  ∧ ¬ ∃ st block,
        seg_run lines = Some st ∧ block ∈ passed st
        ∧ py "* a" ∈ block ∧ py "* b" ∈ block.
Proof.
  intros lines. split; [reflexivity|]. split; [reflexivity|].
  intros (st & block & Hst & Hblock & Ha & Hb).
  vm_compute in Hst. injection Hst as <-. cbn [passed] in Hblock.
  apply elem_of_cons in Hblock as [->|Hblock].
  - apply list_elem_of_singleton in Hb. discriminate Hb.
  - apply list_elem_of_singleton in Hblock as ->.
    apply list_elem_of_singleton in Ha. discriminate Ha.
Qed.

(** ** The table-grouping pass *)

Lemma tbl_step_inv (st : tbl_state) (line : list ascii) :
  tbl_inv st → tbl_inv (tbl_step st line).
Proof.
  unfold tbl_inv, tbl_step. intros Hst.
  destruct (is_metadata_line line); [done|].
  destruct (is_table_line line).
  - destruct (in_table st) eqn:Hin; cbn; rewrite ?Hin; [|done].
    by intros [? _]%app_eq_nil.
  - destruct (in_table st) eqn:Hin; cbn; by rewrite ?Hin.
Qed.

Lemma tbl_loop_inv (lines : list (list ascii)) (st : tbl_state) :
  tbl_inv st → tbl_inv (foldl tbl_step st lines).
Proof.
  revert st. induction lines as [|line lines IH]; intros st Hst; [done|].
  simpl. by apply IH, tbl_step_inv.
Qed.

(** The loop body does not look at the output produced so far. *)
Lemma tbl_step_shift r (st : tbl_state) (line : list ascii) :
  tbl_step (tbl_shift r st) line = tbl_shift r (tbl_step st line).
Proof.
  unfold tbl_step, tbl_shift. cbn [markdown_lines current_table in_table].
  destruct (is_metadata_line line); [by rewrite <-?app_assoc|].
  destruct (is_table_line line).
  - by destruct (in_table st).
  - destruct (in_table st) eqn:Hin;
      cbn [markdown_lines current_table in_table];
      by rewrite <-?app_assoc, ?Hin.
Qed.

Lemma tbl_loop_shift r (lines : list (list ascii)) (st : tbl_state) :
  foldl tbl_step (tbl_shift r st) lines = tbl_shift r (foldl tbl_step st lines).
Proof.
  revert st. induction lines as [|line lines IH]; intros st; [done|].
  simpl. by rewrite tbl_step_shift, IH.
Qed.

Lemma tbl_finish_shift r (st : tbl_state) :
  tbl_finish (tbl_shift r st) = r ++ tbl_finish st.
Proof.
  unfold tbl_finish, tbl_shift. cbn [markdown_lines current_table].
  destruct (nonempty_list (current_table st)); by rewrite <-?app_assoc.
Qed.

(** From a state outside a table the rest of the pass is a fresh pass. *)
Lemma group_tables_from r (lines : list (list ascii)) :
  tbl_finish (foldl tbl_step (TblState r [] false) lines)
  = r ++ group_tables lines.
Proof.
  replace (TblState r [] false) with (tbl_shift r tbl_init)
    by (unfold tbl_shift, tbl_init; cbn; by rewrite app_nil_r).
  by rewrite tbl_loop_shift, tbl_finish_shift.
Qed.

Lemma ends_outside_table_state (pre : list (list ascii)) :
  ends_outside_table pre = true →
  foldl tbl_step tbl_init pre = TblState (group_tables pre) [] false.
Proof.
  unfold ends_outside_table, group_tables, tbl_finish.
  intros Hpre%negb_true_iff.
  pose proof (tbl_loop_inv pre tbl_init eq_refl) as Hinv.
  unfold tbl_inv in Hinv. rewrite Hpre in Hinv.
  destruct (foldl tbl_step tbl_init pre) as [r c i]. simpl in *. by subst.
Qed.

(** Rows met in a table extend the buffer. *)
Lemma tbl_loop_rows (rows : list (list ascii)) r cur :
  forallb is_buffered_row rows = true →
  foldl tbl_step (TblState r cur true) rows = TblState r (cur ++ rows) true.
Proof.
  revert cur. induction rows as [|row rows IH]; intros cur Hrows; simpl.
  { by rewrite app_nil_r. }
  apply andb_true_iff in Hrows as [[Hm%negb_true_iff Ht]%andb_true_iff Hrows].
  unfold tbl_step at 2. rewrite Hm, Ht. cbn.
  by rewrite IH, <-app_assoc.
Qed.

(** Rows met outside a table start the buffer. *)
Lemma tbl_loop_table (rows : list (list ascii)) r :
  rows ≠ [] → forallb is_buffered_row rows = true →
  foldl tbl_step (TblState r [] false) rows = TblState r rows true.
Proof.
  destruct rows as [|row rows]; [done|]. intros _ Hrows. simpl.
  apply andb_true_iff in Hrows as [[Hm%negb_true_iff Ht]%andb_true_iff Hrows].
  unfold tbl_step at 2. rewrite Hm, Ht. cbn. by rewrite tbl_loop_rows.
Qed.

(** What leaves a pending table buffer: only metadata comments can come
    out before the buffered rows. *)
Lemma tbl_loop_pending (lines : list (list ascii)) r cur :
  cur ≠ [] →
  ∃ mid tail,
    tbl_finish (foldl tbl_step (TblState r cur true) lines)
    = r ++ mid ++ cur ++ tail
    ∧ forallb is_metadata_line mid = true.
Proof.
  revert r cur. induction lines as [|line lines IH]; intros r cur Hcur.
  { exists [], [[]]. split; [|done]. unfold tbl_finish. simpl.
    by destruct cur. }
  simpl. unfold tbl_step at 2. cbn [markdown_lines current_table in_table].
  destruct (is_metadata_line line) eqn:Hm.
  - destruct (IH (r ++ [line]) cur Hcur) as (mid & tail & -> & Hmid).
    exists (line :: mid), tail. split; [by rewrite <-app_assoc|].
    simpl. by rewrite Hm, Hmid.
  - destruct (is_table_line line) eqn:Ht; cbn.
    + destruct (IH r (cur ++ [line])) as (mid & tail & -> & Hmid).
      { by intros [? _]%app_eq_nil. }
      exists mid, (line :: tail). split; [|done]. by rewrite <-!app_assoc.
    + exists [], ([] :: line :: group_tables lines). split; [|done].
      rewrite group_tables_from. by rewrite <-!app_assoc.
Qed.

(** ** Table blocks and the blank line after them (claim C7) *)

(** C7, as the code has it. In the grouping pass, a run of buffered rows
    (table lines that carry no metadata comment) that starts outside a
    table and is followed by a line that is neither a table line nor a
    metadata comment is emitted unchanged and in order, then one blank line
    is inserted, then that following line is emitted; at the end of the
    input the run is emitted followed by one blank line. *)
Theorem table_block_then_blank_line
    (pre tbl rest : list (list ascii)) (nxt : list ascii) :
  ends_outside_table pre = true →
  nonempty_list tbl = true →
  forallb is_buffered_row tbl = true →
  ends_table nxt = true →
  group_tables (pre ++ tbl ++ nxt :: rest)
  = group_tables pre ++ tbl ++ [] :: nxt :: group_tables rest
  ∧ group_tables (pre ++ tbl) = group_tables pre ++ tbl ++ [[]].
Proof.
  intros Hpre Hne Htbl Hnxt.
  apply ends_outside_table_state in Hpre.
  assert (tbl ≠ []) as Hne' by by destruct tbl.
  apply andb_true_iff in Hnxt as [Hm%negb_true_iff Ht%negb_true_iff].
  split.
  - unfold group_tables at 1.
    rewrite !foldl_app, Hpre, tbl_loop_table by done.
    cbn [foldl]. unfold tbl_step at 2. rewrite Hm, Ht.
    cbn [in_table markdown_lines current_table].
    rewrite group_tables_from. by rewrite <-!app_assoc.
  - unfold group_tables at 1.
    rewrite !foldl_app, Hpre, tbl_loop_table by done.
    unfold tbl_finish. cbn [current_table markdown_lines]. by rewrite Hne.
Qed.

Lemma table_block_then_blank_line_witness :
  let pre := [py "intro"; py "<!-- Type: Text Body -->"] in
  let tbl := [py "| a | b |"; py "| 1 | 2 |"] in
  let rest := [py "<!-- Type: Text Body -->"] in
  ends_outside_table pre = true
  ∧ nonempty_list tbl = true
  ∧ forallb is_buffered_row tbl = true
  ∧ ends_table (py "body") = true
  ∧ group_tables (pre ++ tbl ++ py "body" :: rest)
    = group_tables pre ++ tbl ++ [] :: py "body" :: group_tables rest
  ∧ group_tables (pre ++ tbl) = group_tables pre ++ tbl ++ [[]].
Proof.
  intros pre tbl rest. do 4 (split; [reflexivity|]).
  apply (table_block_then_blank_line pre tbl rest (py "body")); reflexivity.
Defined.

(** C7, as the specification states it, fails. In the stream that the
    grouping pass reads, the maximal run of table lines [| h |], [|-|-|]
    is followed by the metadata comment of its separator; in the output it
    is followed by the next row, not by a blank line. And a table followed
    by a blank line of the input is followed by two blank lines. *)
Lemma table_block_not_isolated :
  let processed := [py "| h |"; py "|-|-|"; py "<!-- Type: Table -->";
                    py "| r |"; py "x"; py "<!-- Type: Text Body -->"] in
  let tbl := [py "| h |"; py "|-|-|"] in
  _process_nested_lists [py "| h |"; py "|-|-|"; py "| r |"; py "x"]
  = Some processed
  ∧ processed = tbl ++ py "<!-- Type: Table -->" :: drop 3 processed
  ∧ is_table_line (py "<!-- Type: Table -->") = false
  ∧ group_tables processed
    = [py "<!-- Type: Table -->"; py "| h |"; py "|-|-|"; py "| r |"; [];
       py "x"; py "<!-- Type: Text Body -->"]
  ∧ (¬ ∃ before after, group_tables processed = before ++ tbl ++ [] :: after)
  ∧ group_tables [py "| a |"; py ""; py "x"]
    = [py "| a |"; []; []; py "x"].
Proof.
  intros processed tbl. do 4 (split; [reflexivity|]). split; [|reflexivity].
  intros (before & after & Hout). vm_compute in Hout.
  destruct before as [|b0 [|b1 [|b2 [|b3 [|b4 [|b5 [|b6 [|b7 before]]]]]]]];
    discriminate Hout.
Qed.

(** ** Metadata comments in the grouping pass (claim C10) *)

(** C10. A line that contains [<!-- Type:] is appended to the output at
    once: the pending table buffer and the table flag stay as they are and
    no blank line is inserted. So when such a line comes behind buffered
    rows, the output has it before those rows, with nothing but further
    metadata comments in between. *)
Theorem metadata_line_bypasses_table_buffer :
  (∀ (st : tbl_state) (line : list ascii),
     is_metadata_line line = true →
     tbl_step st line
     = TblState (markdown_lines st ++ [line]) (current_table st) (in_table st))
  ∧ (∀ (pre rows rest : list (list ascii)) (meta : list ascii),
       ends_outside_table pre = true →
       nonempty_list rows = true →
       forallb is_buffered_row rows = true →
       is_metadata_line meta = true →
       ∃ mid tail,
         group_tables (pre ++ rows ++ meta :: rest)
         = group_tables pre ++ meta :: mid ++ rows ++ tail
         ∧ forallb is_metadata_line mid = true).
Proof.
  split.
  - intros st line Hm. unfold tbl_step. by rewrite Hm.
  - intros pre rows rest meta Hpre Hne Hrows Hm.
    apply ends_outside_table_state in Hpre.
    assert (rows ≠ []) as Hne' by by destruct rows.
    destruct (tbl_loop_pending rest (group_tables pre ++ [meta]) rows Hne')
      as (mid & tail & Hrest & Hmid).
    exists mid, tail. split; [|done]. unfold group_tables at 1.
    rewrite !foldl_app, Hpre, tbl_loop_table by done.
    cbn [foldl]. unfold tbl_step at 2. rewrite Hm.
    cbn [in_table markdown_lines current_table].
    rewrite Hrest. by rewrite <-!app_assoc.
Qed.

Lemma metadata_line_bypasses_table_buffer_witness :
  let rows := [py "| h |"; py "|-|-|"] in
  let meta := py "<!-- Type: Table -->" in
  let rest := [py "| r |"; py "x"] in
  ends_outside_table [] = true
  ∧ nonempty_list rows = true
  ∧ forallb is_buffered_row rows = true
  ∧ is_metadata_line meta = true
  ∧ ∃ mid tail,
      group_tables ([] ++ rows ++ meta :: rest)
      = group_tables [] ++ meta :: mid ++ rows ++ tail
      ∧ forallb is_metadata_line mid = true.
Proof.
  intros rows meta rest. do 4 (split; [reflexivity|]).
  apply (proj2 metadata_line_bypasses_table_buffer [] rows rest meta);
    reflexivity.
Defined.

(** ** The classifier and the list patterns (claim C3) *)

(** A line that one of the two list patterns matches is a list item for
    [_is_list_item]. *)
Lemma list_patterns_imply_is_list_item (line : list ascii) :
  LIST_BULLET_PATTERN_match line || LIST_NUMBER_PATTERN_match line = true →
  _is_list_item line = true.
Proof.
  unfold LIST_BULLET_PATTERN_match, LIST_NUMBER_PATTERN_match, _is_list_item.
  intros [Hb|Hn]%orb_true_iff.
  - destruct (lstrip line) as [|c [|d rest]]; try done.
    apply andb_true_iff in Hb as [Hc _]. unfold in_chars in Hc. cbn in Hc.
    rewrite !orb_true_iff, !ascii_eqb_true in Hc.
    destruct Hc as [->|[->|[->|?]]]; done || reflexivity.
  - apply andb_true_iff in Hn as [Hds Hdot].
    assert (nonempty (lstrip line) = true) as ->.
    { destruct (lstrip line); [done|done]. }
    unfold match_number_dot. rewrite Hds.
    destruct (drop_while isdigit (lstrip line)) as [|c [|d rest]]; try done.
    apply andb_true_iff in Hdot as [->%ascii_eqb_true _].
    cbn. by rewrite !orb_true_r.
Qed.

(** C3 at the line [**bold**]: neither list pattern of the class matches
    it, as no whitespace follows the marker, and [_is_list_item] takes it
    for a list item all the same; the pipeline rewrites it as one. *)
Lemma bold_line_is_list_item :
  let line := py "**bold**" in
  LIST_BULLET_PATTERN_match line = false
  ∧ LIST_NUMBER_PATTERN_match line = false
  ∧ _is_list_item line = true
  ∧ _process_nested_lists [line] = Some [py "* bold**"; LIST_BLOCK_COMMENT].
Proof. intros line. repeat split; reflexivity. Qed.

(** ** Table separators (claim C4) *)

(** C4 at the line [| --- | --- |]: TABLE_SEPARATOR_PATTERN finds a
    separator in it, [_add_metadata] classifies it as a table row, as it
    has no [-|-], and the final document has no table comment. With the
    separator [|---|---|] the comment is there, but ahead of the table,
    while the comment of a heading stands right after its line. *)
Lemma spaced_separator_is_table_row :
  let line := py "| --- | --- |" in
  startswith (py "|") (strip line) = true
  ∧ TABLE_SEPARATOR_PATTERN_search line = true
  ∧ _add_metadata line false = ([line], Some table_row)
  ∧ convert_to_markdown [py "| a | b |"; line; py "| 1 | 2 |"] [] []
    = Returns (join [newline] [py "| a | b |"; line; py "| 1 | 2 |"; []])
  ∧ _add_metadata (py "|---|---|") false
    = ([py "|---|---|"; py "<!-- Type: Table -->"], Some table_separator)
  ∧ convert_to_markdown [py "| a | b |"; py "|---|---|"; py "| 1 | 2 |"] [] []
    = Returns (join [newline]
        [py "<!-- Type: Table -->"; py "| a | b |"; py "|---|---|";
         py "| 1 | 2 |"; []])
  ∧ convert_to_markdown [py "## Title"; py "body"] [] []
    = Returns (join [newline]
        [py "## Title"; py "<!-- Type: Heading 2 -->"; py "body";
         py "<!-- Type: Text Body -->"]).
Proof. intros line. repeat split; reflexivity. Qed.

(** ** Replacement templates and link patterns *)

Lemma ascii_eqb_refl (c : ascii) : ascii_eqb c c = true.
Proof. by apply ascii_eqb_true. Qed.

Lemma ascii_eqb_neq (a b : ascii) : a ≠ b → ascii_eqb a b = false.
Proof.
  intros H. destruct (ascii_eqb a b) eqn:E; [|done].
  by apply ascii_eqb_true in E.
Qed.

Lemma lacks_cons (c x : ascii) (t : list ascii) :
  lacks c (x :: t) = true ↔ x ≠ c ∧ lacks c t = true.
Proof.
  unfold lacks. cbn [forallb]. rewrite andb_true_iff, negb_true_iff.
  split; intros [Hx Ht]; (split; [|done]).
  - intros ->. by rewrite ascii_eqb_refl in Hx.
  - by apply ascii_eqb_neq.
Qed.

Lemma lacks_app (c : ascii) (t u : list ascii) :
  lacks c (t ++ u) = lacks c t && lacks c u.
Proof. apply forallb_app. Qed.

(** The parser copies the characters up to the first backslash. *)
Lemma parse_template_lacks (groups : nat) (t s : list ascii) :
  lacks backslash t = true →
  parse_template groups None (t ++ s)
  = items ← parse_template groups None s; Returns ((Literal <$> t) ++ items).
Proof.
  induction t as [|c t IH]; intros Ht.
  { cbn [app fmap list_fmap]. by destruct (parse_template groups None s). }
  apply lacks_cons in Ht as [Hc Ht]. cbn [app parse_template].
  rewrite (ascii_eqb_neq c backslash Hc). cbn [negb]. rewrite IH by done.
  unfold literal. by destruct (parse_template groups None s).
Qed.

(** A template without a backslash stands for itself. *)
Lemma parse_template_literal (groups : nat) (t : list ascii) :
  lacks backslash t = true →
  parse_template groups None t = Returns (Literal <$> t).
Proof.
  intros Ht. rewrite <-(app_nil_r t) at 1.
  rewrite parse_template_lacks by done. cbn. by rewrite app_nil_r.
Qed.

Lemma expand_template_app (r1 r2 : list template_item)
    (groups : list (list ascii)) :
  expand_template (r1 ++ r2) groups
  = expand_template r1 groups ++ expand_template r2 groups.
Proof. unfold expand_template. apply bind_app. Qed.

Lemma expand_template_literal (t : list ascii) (groups : list (list ascii)) :
  expand_template (Literal <$> t) groups = t.
Proof.
  unfold expand_template. induction t as [|c t IH]; [done|].
  rewrite fmap_cons, bind_cons, IH. done.
Qed.

Lemma image_tag_lacks_backslash (image_info : ImageInfo) :
  lacks backslash (filename image_info) = true →
  lacks backslash (image_tag image_info) = true.
Proof. intros H. unfold image_tag. by rewrite !lacks_app, H. Qed.

(** With a file name without a backslash the substitution raises nothing
    and inserts the image reference as it is written. *)
Lemma IMAGE_PATTERN_sub1_literal (image_info : ImageInfo) (content : list ascii) :
  lacks backslash (filename image_info) = true →
  IMAGE_PATTERN_sub1 (image_tag image_info) content
  = Returns (IMAGE_PATTERN_replace (Literal <$> image_tag image_info) content).
Proof.
  intros H. unfold IMAGE_PATTERN_sub1.
  by rewrite parse_template_literal by by apply image_tag_lacks_backslash.
Qed.

(** The replacement of a link whose target has no backslash: the label in
    brackets, the target in parentheses. *)
Lemma parse_link_template (target : list ascii) :
  lacks backslash target = true →
  parse_template 1 None (link_template target) = Returns (literal_link target).
Proof.
  intros Ht. unfold link_template.
  change (py "[\1](" ++ target ++ py ")")
    with ("["%char :: backslash :: "1"%char :: "]"%char :: "("%char
          :: target ++ py ")").
  cbn [parse_template]. 
  change (ascii_eqb "[" backslash) with false.
  change (ascii_eqb backslash backslash) with true.
  change (ascii_eqb "1" "g") with false.
  change (ascii_eqb "1" "0") with false.
  change (isdigit "1") with true.
  change (isdigit "]") with false.
  change (ascii_eqb "]" backslash) with false.
  change (ascii_eqb "(" backslash) with false.
  cbn [negb]. rewrite parse_template_lacks by done.
  reflexivity.
Qed.

Lemma expand_literal_link (target whole label : list ascii) :
  expand_template (literal_link target) [whole; label]
  = py "[" ++ label ++ py "](" ++ target ++ py ")".
Proof.
  unfold literal_link.
  change ([Literal "["; GroupRef 1; Literal "]"; Literal "("]
          ++ (Literal <$> target) ++ [Literal ")"])
    with ([Literal "["%char] ++ [GroupRef 1] ++ [Literal "]"%char; Literal "("%char]
          ++ (Literal <$> target) ++ [Literal ")"%char]).
  rewrite !expand_template_app, expand_template_literal.
  unfold expand_template. cbn. by rewrite app_nil_r.
Qed.

Lemma compile_rId_literal (rid : list ascii) :
  literal_id rid = true → compile_rId rid = Some (Char <$> rid).
Proof.
  unfold compile_rId. induction rid as [|c rid IH]; [done|].
  cbn [literal_id forallb]. intros [Hc Hrid]%andb_true_iff.
  apply negb_true_iff in Hc. cbn [mapM]. fold (literal_id rid) in Hrid.
  rewrite (IH Hrid).
  assert (compile_char c = Some (Char c)) as ->; [|done].
  unfold compile_char. rewrite Hc.
  destruct (ascii_eqb c ".") eqn:E; [|done].
  apply ascii_eqb_true in E. by subst c.
Qed.

Lemma compile_rId_regular (rid : list ascii) :
  regular_id rid = true → is_Some (compile_rId rid).
Proof.
  unfold compile_rId. induction rid as [|c rid IH]; [by eexists|].
  cbn [regular_id forallb]. intros [Hc Hrid]%andb_true_iff.
  fold (regular_id rid) in Hrid. destruct (IH Hrid) as [atoms Ha].
  cbn [mapM]. rewrite Ha.
  assert (is_Some (compile_char c)) as [a ->]; [|by eexists].
  unfold compile_char. destruct (ascii_eqb c "."); [by eexists|].
  cbn [orb] in Hc. apply negb_true_iff in Hc. rewrite Hc. by eexists.
Qed.

Lemma literal_id_regular (rid : list ascii) :
  literal_id rid = true → regular_id rid = true.
Proof.
  unfold literal_id, regular_id. rewrite !forallb_forall.
  intros H c Hc. rewrite (H c Hc). apply orb_true_r.
Qed.

(** Literal atoms match the text they spell. *)
Lemma atoms_match_literal (rid s : list ascii) :
  atoms_match (Char <$> rid) s
  = if startswith rid s then Some (drop (length rid) s) else None.
Proof.
  revert s. induction rid as [|c rid IH]; intros s; [done|].
  destruct s as [|x s]; [done|].
  cbn [fmap list_fmap atoms_match atom_match startswith length drop].
  destruct (ascii_eqb c x); [apply IH|done].
Qed.

(** When the pattern and the template compile, a substitution returns. *)
Lemma link_sub_returns (rel : Rel) (content : list ascii) :
  regular_id (rId rel) = true → lacks backslash (target_ref rel) = true →
  ∃ rid, compile_rId (rId rel) = Some rid
         ∧ link_sub rel content
           = Returns (link_replace rid (literal_link (target_ref rel))
                        0 content).
Proof.
  intros [rid Hrid]%compile_rId_regular Ht. exists rid. split; [done|].
  unfold link_sub. by rewrite Hrid, parse_link_template.
Qed.

(** ** The empty input (claim C8) *)

Lemma resolve_images_nil (image_map : list (list ascii * ImageInfo)) :
  forallb (λ entry, lacks backslash (filename entry.2)) image_map = true →
  resolve_images image_map [] = Returns [].
Proof.
  induction image_map as [|entry image_map IH]; [done|].
  cbn [forallb resolve_images]. intros [Hf Hmap]%andb_true_iff.
  rewrite IMAGE_PATTERN_sub1_literal by done. by apply IH.
Qed.

Lemma resolve_links_nil (rels : list Rel) :
  forallb (λ rel, negb (is_external rel)
                  || regular_id (rId rel) && lacks backslash (target_ref rel))
          rels = true →
  resolve_links rels [] = Returns [].
Proof.
  induction rels as [|rel rels IH]; [done|].
  cbn [forallb resolve_links]. intros [Hrel Hrels]%andb_true_iff.
  destruct (is_external rel); [|by apply IH].
  cbn [negb orb] in Hrel. apply andb_true_iff in Hrel as [Hid Ht].
  destruct (link_sub_returns rel [] Hid Ht) as (rid & _ & ->).
  by apply IH.
Qed.

(** C8, as the code has it. On an empty sequence of lines the pipeline
    raises nothing and returns the empty document, for all images whose
    file name has no backslash and all relationships whose external ones
    have a target without a backslash and an id without a special
    character other than the dot. *)
Theorem empty_input_gives_empty_document
    (image_map : list (list ascii * ImageInfo)) (rels : list Rel) :
  forallb (λ entry, lacks backslash (filename entry.2)) image_map = true →
  forallb (λ rel, negb (is_external rel)
                  || regular_id (rId rel) && lacks backslash (target_ref rel))
          rels = true →
  convert_to_markdown [] image_map rels = Returns [].
Proof.
  intros Hmap Hrels.
  assert (convert_to_markdown [] image_map rels
          = content ← resolve_images image_map []; resolve_links rels content)
    as -> by reflexivity.
  rewrite resolve_images_nil by done. by apply resolve_links_nil.
Qed.

Lemma empty_input_gives_empty_document_witness :
  let image_map :=
    [(py "rId4", mkImageInfo (py "doc_0.png") [] (py "image/png"))] in
  let rels := [mkRel (py "rId4") false (py "media\image1.png");
               mkRel (py "rId.5") true (py "http://x")] in
  forallb (λ entry, lacks backslash (filename entry.2)) image_map = true
  ∧ forallb (λ rel, negb (is_external rel)
                    || regular_id (rId rel)
                       && lacks backslash (target_ref rel))
            rels = true
  ∧ convert_to_markdown [] image_map rels = Returns [].
Proof.
  intros image_map rels. split; [reflexivity|]. split; [reflexivity|].
  apply empty_input_gives_empty_document; reflexivity.
Defined.

(** C8, as the specification states it, fails: the empty input is not
    refused, an empty document is returned. *)
Lemma empty_input_not_refused :
  convert_to_markdown [] [] [] = Returns []
  ∧ convert_to_markdown [] [] [] ≠ Raises.
Proof. split; [reflexivity|discriminate]. Qed.

(** ** Image placeholders (claim C2) *)

(** C2 at two placeholders on one line with two images: the first
    substitution gives the first placeholder the first image; the second
    substitution then matches from the start of that new reference up to
    the end of the second placeholder and replaces both by the second
    image. On two lines each placeholder gets its image, and a placeholder
    without an image stays as it was. *)
Lemma two_placeholders_on_one_line :
  let img0 := (py "rId4", mkImageInfo (py "doc_0.png") [] (py "image/png")) in
  let img1 := (py "rId5", mkImageInfo (py "doc_1.png") [] (py "image/png")) in
  let p0 := py "![a](data:image/png;base64,AAAA)" in
  let p1 := py "![b](data:image/png;base64,BBBB)" in
  resolve_images [img0] (p0 ++ py " " ++ p1)
  = Returns (py "![Image](images/doc_0.png) " ++ p1)
  ∧ resolve_images [img0; img1] (p0 ++ py " " ++ p1)
    = Returns (py "![Image](images/doc_1.png)")
  ∧ convert_to_markdown [p0 ++ py " " ++ p1] [img0; img1] []
    = Returns (join [newline]
        [py "![Image](images/doc_1.png)"; py "<!-- Type: Image -->"])
  ∧ resolve_images [img0; img1] (join [newline] [p0; p1])
    = Returns (join [newline]
        [py "![Image](images/doc_0.png)"; py "![Image](images/doc_1.png)"])
  ∧ resolve_images [img0] (join [newline] [p0; p1])
    = Returns (join [newline] [py "![Image](images/doc_0.png)"; p1]).
Proof. intros img0 img1 p0 p1. repeat split; reflexivity. Qed.

(** ** Image placeholders, at most one per line *)

Lemma join_cons (x : list ascii) (ls : list (list ascii)) :
  join [newline] (x :: ls) = x ++ join_tail ls.
Proof. destruct ls; simpl; [by rewrite app_nil_r|done]. Qed.

Lemma plain_char_spec (c : ascii) :
  plain_char c = true → c ≠ "!"%char ∧ c ≠ "]"%char ∧ c ≠ newline.
Proof.
  unfold plain_char. rewrite !andb_true_iff, !negb_true_iff.
  intros [[H1 H2] H3]. repeat split; intros ->; done.
Qed.

(** No match starts at a character other than [!]. *)
Lemma IMAGE_PATTERN_match_not_bang (c : ascii) (s : list ascii) :
  c ≠ "!"%char → IMAGE_PATTERN_match (c :: s) = None.
Proof.
  intros Hc. unfold IMAGE_PATTERN_match. cbn [py list_ascii_of_string startswith].
  destruct (ascii_eqb "!" c) eqn:Heq; [|done].
  apply ascii_eqb_true in Heq. congruence.
Qed.

(** The substitution passes over text without [!]. *)
Lemma sub1_no_bang (repl : list template_item) (t s : list ascii) :
  no_bang t = true →
  IMAGE_PATTERN_replace repl (t ++ s) = t ++ IMAGE_PATTERN_replace repl s.
Proof.
  induction t as [|c t IH]; intros Ht; [done|].
  apply andb_true_iff in Ht as [Hc%negb_true_iff Ht].
  cbn [app IMAGE_PATTERN_replace].
  rewrite IMAGE_PATTERN_match_not_bang, IH; [done|done|].
  intros ->. done.
Qed.

Lemma plain_no_bang (t : list ascii) : plain t = true → no_bang t = true.
Proof.
  unfold plain, no_bang. rewrite !forallb_forall. intros Ht c Hc.
  specialize (Ht c Hc). unfold plain_char in Ht.
  by apply andb_true_iff in Ht as [[? _]%andb_true_iff _].
Qed.

Lemma sub1_plain (repl : list template_item) (t s : list ascii) :
  plain t = true →
  IMAGE_PATTERN_replace repl (t ++ s) = t ++ IMAGE_PATTERN_replace repl s.
Proof. intros Ht. by apply sub1_no_bang, plain_no_bang. Qed.

Lemma image_close_not_bracket (c : ascii) (s : list ascii) :
  c ≠ "]"%char → image_close (c :: s) = None.
Proof.
  intros Hc. unfold image_close. cbn [py list_ascii_of_string startswith].
  destruct (ascii_eqb "]" c) eqn:Heq; [|done].
  apply ascii_eqb_true in Heq. congruence.
Qed.

(** The lazy part runs over plain text. *)
Lemma image_lazy_plain (t w : list ascii) :
  plain t = true →
  image_lazy (t ++ w) = (λ n, length t + n) <$> image_lazy w.
Proof.
  induction t as [|c t IH]; intros Ht.
  { simpl. by destruct (image_lazy w). }
  apply andb_true_iff in Ht as [Hc Ht].
  apply plain_char_spec in Hc as (_ & Hb & Hn).
  cbn [app image_lazy]. rewrite image_close_not_bracket by done.
  destruct (ascii_eqb c newline) eqn:Heq.
  { apply ascii_eqb_true in Heq. congruence. }
  rewrite IH by done. by destruct (image_lazy w).
Qed.

Lemma image_lazy_end (tail : list ascii) :
  tail = [] ∨ (∃ rest, tail = newline :: rest) → image_lazy tail = None.
Proof. intros [->|[rest ->]]; reflexivity. Qed.

Lemma IMAGE_PATTERN_match_open (r : list ascii) :
  IMAGE_PATTERN_match ("!"%char :: "["%char :: r)
  = (λ n, 2 + n) <$> image_lazy r.
Proof. reflexivity. Qed.

Lemma image_lazy_other_target (w : list ascii) :
  image_lazy (py "](images/" ++ w) = S <$> image_lazy (py "(images/" ++ w).
Proof. reflexivity. Qed.

(** No match starts at the reference written for an image. *)
Lemma image_tag_no_match (f a tail : list ascii) :
  plain f = true → plain a = true →
  tail = [] ∨ (∃ rest, tail = newline :: rest) →
  IMAGE_PATTERN_match (py "![Image](images/" ++ f ++ py ")" ++ a ++ tail)
  = None.
Proof.
  intros Hf Ha Htail.
  assert (py "![Image](images/" ++ f ++ py ")" ++ a ++ tail
          = "!"%char :: "["%char
            :: py "Image" ++ py "](images/" ++ (f ++ py ")" ++ a) ++ tail)
    as -> by (by rewrite <-!app_assoc).
  rewrite IMAGE_PATTERN_match_open, image_lazy_plain by done.
  rewrite image_lazy_other_target.
  assert (py "(images/" ++ (f ++ py ")" ++ a) ++ tail
          = (py "(images/" ++ f ++ py ")" ++ a) ++ tail)
    as -> by (by rewrite <-!app_assoc).
  rewrite image_lazy_plain, image_lazy_end; [done|done|].
  unfold plain. rewrite !forallb_app. fold (plain f) (plain a).
  by rewrite Hf, Ha.
Qed.

Lemma no_bang_tag_rest (f a : list ascii) :
  plain f = true → plain a = true →
  no_bang (py "[Image](images/" ++ f ++ py ")" ++ a) = true.
Proof.
  intros Hf%plain_no_bang Ha%plain_no_bang. unfold no_bang in *.
  by rewrite !forallb_app, Hf, Ha.
Qed.

(** The substitution passes over a resolved line. *)
Lemma sub1_resolved (repl : list template_item) (b f a tail : list ascii) :
  plain b = true → plain f = true → plain a = true →
  tail = [] ∨ (∃ rest, tail = newline :: rest) →
  IMAGE_PATTERN_replace repl
    (b ++ (py "![Image](images/" ++ f ++ py ")") ++ a ++ tail)
  = b ++ (py "![Image](images/" ++ f ++ py ")") ++ a
    ++ IMAGE_PATTERN_replace repl tail.
Proof.
  intros Hb Hf Ha Htail. rewrite sub1_plain by done. f_equal.
  pose proof (image_tag_no_match f a tail Hf Ha Htail) as Hno.
  set (T := py "[Image](images/" ++ f ++ py ")" ++ a).
  assert (∀ u, (py "![Image](images/" ++ f ++ py ")") ++ a ++ u
               = "!"%char :: T ++ u) as E
    by (intros u; unfold T; by rewrite <-!app_assoc).
  assert (py "![Image](images/" ++ f ++ py ")" ++ a ++ tail
          = "!"%char :: T ++ tail) as E2
    by (unfold T; by rewrite <-!app_assoc).
  rewrite E2 in Hno. rewrite !E. cbn [IMAGE_PATTERN_replace]. rewrite Hno.
  rewrite sub1_no_bang by by apply no_bang_tag_rest. done.
Qed.

Lemma resolved_line_inert (image_info : ImageInfo) (l : image_line) :
  well_formed_line l = true → plain_filename (filename image_info) = true →
  inert (resolved_line image_info l).
Proof.
  unfold well_formed_line. rewrite !andb_true_iff.
  intros [[[Hb _] _] Ha] [Hf _]%andb_true_iff.
  unfold resolved_line, image_tag. split.
  - intros repl.
    pose proof (sub1_resolved repl (il_before l) (filename image_info)
                  (il_after l) [] Hb Hf Ha (or_introl eq_refl)) as H.
    by rewrite !app_nil_r in H.
  - intros repl rest. rewrite <-!app_assoc.
    pose proof (sub1_resolved repl (il_before l) (filename image_info)
                  (il_after l) (newline :: rest) Hb Hf Ha) as H.
    rewrite <-!app_assoc in H. rewrite H by eauto.
    cbn [IMAGE_PATTERN_replace].
    by rewrite IMAGE_PATTERN_match_not_bang.
Qed.

(** The pattern matches a placeholder, and no more than it. *)
Lemma IMAGE_PATTERN_match_placeholder (alt data rest : list ascii) :
  plain alt = true → no_close_paren data = true →
  IMAGE_PATTERN_match (placeholder alt data ++ rest)
  = Some (length (placeholder alt data)).
Proof.
  intros Halt Hdata. unfold placeholder.
  assert ((py "![" ++ alt ++ py "](data:image" ++ data ++ py ")") ++ rest
          = "!"%char :: "["%char
            :: alt ++ py "](data:image" ++ data ++ py ")" ++ rest)
    as -> by (by rewrite <-!app_assoc).
  rewrite IMAGE_PATTERN_match_open, image_lazy_plain by done.
  assert (image_lazy (py "](data:image" ++ data ++ py ")" ++ rest)
          = Some (12 + length data + 1)) as ->.
  { assert (image_close (py "](data:image" ++ data ++ py ")" ++ rest)
            = Some (12 + length data + 1)) as Hclose.
    { unfold image_close.
      change (startswith (py "](data:image")
                (py "](data:image" ++ data ++ py ")" ++ rest)) with true.
      change (drop 12 (py "](data:image" ++ data ++ py ")" ++ rest))
        with (data ++ py ")" ++ rest).
      cbv zeta. rewrite take_while_app_stop.
      - rewrite drop_app_length. reflexivity.
      - apply Forall_forall. intros c Hc.
        unfold no_close_paren in Hdata. rewrite forallb_forall in Hdata.
        by apply Hdata, list_elem_of_In.
      - reflexivity. }
    destruct (py "](data:image" ++ data ++ py ")" ++ rest) eqn:E; [done|].
    cbn [image_lazy]. by rewrite Hclose. }
  cbn [fmap option_fmap option_map]. f_equal.
  rewrite !length_app. cbn [py list_ascii_of_string length]. lia.
Qed.

(** The leftmost placeholder behind plain text is the one replaced. *)
Lemma sub1_raw (repl : list template_item) (b alt data rest : list ascii) :
  plain b = true → plain alt = true → no_close_paren data = true →
  IMAGE_PATTERN_replace repl (b ++ placeholder alt data ++ rest)
  = b ++ expand_template repl [placeholder alt data] ++ rest.
Proof.
  intros Hb Halt Hdata. rewrite sub1_plain by done. f_equal.
  pose proof (IMAGE_PATTERN_match_placeholder alt data rest Halt Hdata) as Hm.
  destruct (placeholder alt data ++ rest) as [|c s] eqn:E.
  { unfold placeholder in E. discriminate E. }
  cbn [IMAGE_PATTERN_replace]. rewrite Hm, <-E.
  by rewrite take_app_length, drop_app_length.
Qed.

Lemma sub1_join_inert (repl : list template_item) (done : list (list ascii)) :
  Forall inert done →
  IMAGE_PATTERN_replace repl (join [newline] done) = join [newline] done.
Proof.
  induction 1 as [|d done [Hd1 Hd2] _ IH]; [done|].
  rewrite join_cons. destruct done as [|d' done].
  { simpl. rewrite app_nil_r. apply Hd1. }
  cbn [join_tail]. by rewrite Hd2, IH.
Qed.

(** Behind inert lines the substitution acts as on the rest alone. *)
Lemma sub1_behind_inert (repl : list template_item)
    (done ls ls' : list (list ascii)) :
  Forall inert done → ls ≠ [] → ls' ≠ [] →
  IMAGE_PATTERN_replace repl (join [newline] ls) = join [newline] ls' →
  IMAGE_PATTERN_replace repl (join [newline] (done ++ ls))
  = join [newline] (done ++ ls').
Proof.
  intros Hdone Hls Hls' Hstep.
  induction Hdone as [|d done [_ Hd2] _ IH]; [done|].
  cbn [app]. rewrite !join_cons.
  destruct (done ++ ls) as [|x xs] eqn:E1.
  { by apply app_eq_nil in E1 as [_ ?]. }
  destruct (done ++ ls') as [|y ys] eqn:E2.
  { by apply app_eq_nil in E2 as [_ ?]. }
  cbn [join_tail]. by rewrite Hd2, IH.
Qed.

(** The first unresolved line takes the image. *)
Lemma sub1_raw_line (image_info : ImageInfo) (l : image_line)
    (rest : list (list ascii)) :
  well_formed_line l = true →
  IMAGE_PATTERN_replace (Literal <$> image_tag image_info)
    (join [newline] (raw_line l :: rest))
  = join [newline] (resolved_line image_info l :: rest).
Proof.
  unfold well_formed_line. rewrite !andb_true_iff.
  intros [[[Hb Halt] Hdata] _].
  rewrite !join_cons. unfold raw_line, resolved_line.
  rewrite <-!app_assoc, sub1_raw by done.
  by rewrite expand_template_literal.
Qed.

(** A stretch of text without the opener of an image reference. *)
Lemma sub1_without_opener (repl : list template_item) (s : list ascii) :
  contains (py "![") s = false → IMAGE_PATTERN_replace repl s = s.
Proof.
  induction s as [|c s IH]; [done|]. cbn [contains IMAGE_PATTERN_replace].
  intros [Hs Hc]%orb_false_iff. unfold IMAGE_PATTERN_match. rewrite Hs.
  by rewrite IH.
Qed.

Lemma sub1_over_without_opener (repl : list template_item)
    (t rest : list ascii) :
  contains (py "![") t = false →
  IMAGE_PATTERN_replace repl (t ++ newline :: rest)
  = t ++ newline :: IMAGE_PATTERN_replace repl rest.
Proof.
  induction t as [|c t IH]; intros Ht.
  { cbn [app IMAGE_PATTERN_replace].
    by rewrite IMAGE_PATTERN_match_not_bang. }
  cbn [contains] in Ht. apply orb_false_iff in Ht as [Hs Ht].
  cbn [app IMAGE_PATTERN_replace].
  assert (IMAGE_PATTERN_match (c :: t ++ newline :: rest) = None) as ->.
  { unfold IMAGE_PATTERN_match.
    assert (startswith (py "![") (c :: t ++ newline :: rest) = false) as ->;
      [|done].
    cbn [py list_ascii_of_string startswith] in Hs |- *.
    destruct (ascii_eqb "!" c); [|done]. cbn [andb] in Hs |- *.
    destruct t as [|x t]; [done|]. cbn [app].
    by destruct (ascii_eqb "[" x). }
  by rewrite IH.
Qed.

Lemma without_opener_inert (t : list ascii) :
  contains (py "![") t = false → inert t.
Proof.
  intros Ht. split.
  - intros repl. by apply sub1_without_opener.
  - intros repl rest. by apply sub1_over_without_opener.
Qed.

Lemma resolve_images_step (entry : list ascii * ImageInfo)
    (image_map : list (list ascii * ImageInfo)) (content : list ascii) :
  lacks backslash (filename entry.2) = true →
  resolve_images (entry :: image_map) content
  = resolve_images image_map
      (IMAGE_PATTERN_replace (Literal <$> image_tag entry.2) content).
Proof.
  intros Hf. cbn [resolve_images].
  by rewrite IMAGE_PATTERN_sub1_literal.
Qed.

(** The image loop leaves inert lines as they are. *)
Lemma resolve_images_inert (image_map : list (list ascii * ImageInfo))
    (done : list (list ascii)) :
  Forall inert done →
  forallb (λ entry, plain_filename (filename entry.2)) image_map = true →
  resolve_images image_map (join [newline] done)
  = Returns (join [newline] done).
Proof.
  intros Hdone. induction image_map as [|entry image_map IH]; [done|].
  cbn [forallb]. intros [[_ Hf]%andb_true_iff Hmap]%andb_true_iff.
  rewrite resolve_images_step, sub1_join_inert by done. by apply IH.
Qed.

Lemma resolve_images_behind (ls : list text_line)
    (image_map : list (list ascii * ImageInfo)) (done : list (list ascii)) :
  Forall inert done →
  forallb well_formed_text_line ls = true →
  forallb (λ entry, plain_filename (filename entry.2)) image_map = true →
  resolve_images image_map (join [newline] (done ++ (raw_text_line <$> ls)))
  = Returns (join [newline] (done ++ bind_in_order image_map ls)).
Proof.
  revert image_map done.
  induction ls as [|l ls IH]; intros image_map done Hdone Hls Hmap.
  { cbn [fmap list_fmap bind_in_order]. rewrite app_nil_r.
    by apply resolve_images_inert. }
  cbn [forallb] in Hls. apply andb_true_iff in Hls as [Hl Hls].
  assert (∀ x xs, done ++ x :: xs = (done ++ [x]) ++ xs) as E
    by (intros x xs; by rewrite <-app_assoc).
  destruct l as [l|t].
  - destruct image_map as [|entry image_map].
    + cbn [resolve_images]. f_equal. f_equal. f_equal.
      rewrite fmap_cons. cbn [raw_text_line bind_in_order]. f_equal.
      clear -Hls. induction ls as [|[l|t] ls IH]; [done| |];
        cbn [forallb] in Hls; apply andb_true_iff in Hls as [_ Hls];
        rewrite fmap_cons; cbn [raw_text_line bind_in_order];
        by rewrite IH.
    + cbn [forallb] in Hmap.
      apply andb_true_iff in Hmap as [Hf Hmap].
      pose proof Hf as [_ Hfb]%andb_true_iff.
      rewrite resolve_images_step by done.
      rewrite fmap_cons. cbn [raw_text_line bind_in_order].
      rewrite (sub1_behind_inert _ done _
                 (resolved_line entry.2 l :: (raw_text_line <$> ls)));
        [|done|done|done|by apply sub1_raw_line].
      rewrite (E (resolved_line entry.2 l) (raw_text_line <$> ls)),
              (E (resolved_line entry.2 l) (bind_in_order image_map ls)).
      apply IH; [|done|done].
      apply Forall_app. split; [done|].
      by apply Forall_singleton, resolved_line_inert.
  - rewrite fmap_cons. cbn [raw_text_line bind_in_order].
    rewrite (E t (raw_text_line <$> ls)), (E t (bind_in_order image_map ls)).
    apply IH; [|done|done].
    apply Forall_app. split; [done|].
    apply Forall_singleton, without_opener_inert.
    cbn [well_formed_text_line] in Hl. by apply negb_true_iff in Hl.
Qed.

(** In a text whose lines hold at most one well-formed placeholder each,
    the i-th placeholder becomes the reference to the i-th image, and the
    placeholders beyond the images and the lines without a placeholder stay
    as they are; the file names are plain and without a backslash. *)
Lemma images_bound_in_order (image_map : list (list ascii * ImageInfo))
    (ls : list text_line) :
  forallb well_formed_text_line ls = true →
  forallb (λ entry, plain_filename (filename entry.2)) image_map = true →
  resolve_images image_map (join [newline] (raw_text_line <$> ls))
  = Returns (join [newline] (bind_in_order image_map ls)).
Proof. intros Hls Hmap. by apply (resolve_images_behind ls image_map []). Qed.

Lemma images_bound_in_order_witness :
  let img0 := (py "rId4", mkImageInfo (py "doc_0.png") [] (py "image/png")) in
  let img1 := (py "rId5", mkImageInfo (py "doc_1.png") [] (py "image/png")) in
  let l0 := mkImageLine (py "see ") (py "a") (py "/png;base64,AAAA") (py ".") in
  let l1 := mkImageLine [] (py "b") (py "/jpeg;base64,BBBB") [] in
  let l2 := mkImageLine [] [] (py "/png;base64,CCCC") (py " end") in
  let ls := [Without (py "# Title!"); Without (py "<!-- Type: Heading 1 -->");
             WithImage l0; Without (py "<!-- Type: Image -->");
             WithImage l1; Without (py "<!-- Type: Image -->");
             WithImage l2; Without (py "<!-- Type: Image -->")] in
  forallb well_formed_text_line ls = true
  ∧ forallb (λ entry, plain_filename (filename entry.2)) [img0; img1] = true
  ∧ resolve_images [img0; img1] (join [newline] (raw_text_line <$> ls))
    = Returns (join [newline]
        [py "# Title!"; py "<!-- Type: Heading 1 -->";
         py "see ![Image](images/doc_0.png)."; py "<!-- Type: Image -->";
         py "![Image](images/doc_1.png)"; py "<!-- Type: Image -->";
         py "![](data:image/png;base64,CCCC) end";
         py "<!-- Type: Image -->"]).
Proof.
  intros img0 img1 l0 l1 l2 ls. split; [reflexivity|]. split; [reflexivity|].
  rewrite (images_bound_in_order [img0; img1] ls); reflexivity.
Defined.

(** * Further properties of the code *)

(** ** The normalizer: closest width, levels and kinds of lines *)

Lemma py_min_fold_first {A} (key : A → nat) (l pre mid : list A) (b : A) :
  (∀ y, y ∈ pre → key b < key y) →
  (∀ y, y ∈ mid → key b ≤ key y) →
  let r := foldl (λ best y, if key y <? key best then y else best) b l in
  ∃ l1 l2, pre ++ b :: mid ++ l = l1 ++ r :: l2
           ∧ (∀ y, y ∈ l1 → key r < key y)
           ∧ (∀ y, y ∈ l2 → key r ≤ key y).
Proof.
  revert pre mid b. induction l as [|x l IH]; intros pre mid b Hpre Hmid.
  { exists pre, mid. by rewrite app_nil_r. }
  cbn [foldl]. destruct (key x <? key b) eqn:Hlt.
  - apply Nat.ltb_lt in Hlt.
    destruct (IH (pre ++ b :: mid) [] x) as (l1 & l2 & E & H1 & H2).
    + intros y [Hy|[->|Hy]%elem_of_cons]%elem_of_app.
      * specialize (Hpre y Hy). lia.
      * done.
      * specialize (Hmid y Hy). lia.
    + intros y Hy. by apply elem_of_nil in Hy.
    + exists l1, l2. split; [|done]. rewrite <-E. cbn [app].
      by rewrite <-!app_assoc.
  - apply Nat.ltb_ge in Hlt.
    destruct (IH pre (mid ++ [x]) b) as (l1 & l2 & E & H1 & H2).
    + done.
    + intros y [Hy|Hy%list_elem_of_singleton]%elem_of_app;
        [by apply Hmid|by subst].
    + exists l1, l2. split; [|done]. rewrite <-E. by rewrite <-!app_assoc.
Qed.

(** [min] returns the first of the elements with the least key. *)
Lemma py_min_first {A} (key : A → nat) (l : list A) (x : A) :
  py_min key l = Some x →
  ∃ l1 l2, l = l1 ++ x :: l2
           ∧ (∀ y, y ∈ l1 → key x < key y)
           ∧ (∀ y, y ∈ l2 → key x ≤ key y).
Proof.
  destruct l as [|b l]; [done|]. cbn [py_min]. intros [= <-].
  destruct (py_min_fold_first key l [] [] b) as (l1 & l2 & E & H1 & H2).
  - intros y Hy. by apply elem_of_nil in Hy.
  - intros y Hy. by apply elem_of_nil in Hy.
  - exists l1, l2. by split.
Qed.

(** The closest width of the second pass is a known width at the least
    distance from the indentation of the line, and of two known widths at
    that distance it is the smaller one. *)
Theorem closest_width_least_distance_smaller_on_tie
    (m : gmap nat nat) (indent c : nat) :
  py_min (λ x, abs_diff x indent) (sorted_keys m) = Some c →
  is_Some (m !! c)
  ∧ ∀ w, is_Some (m !! w) →
      abs_diff c indent ≤ abs_diff w indent
      ∧ (abs_diff w indent = abs_diff c indent → c ≤ w).
Proof.
  intros Hc. pose proof Hc as (l1 & l2 & E & H1 & H2)%py_min_first.
  pose proof Hc as [Hin Hmin]%py_min_spec.
  split; [by apply elem_of_sorted_keys|].
  intros w Hw%elem_of_sorted_keys. split; [by apply Hmin|].
  intros Htie.
  assert (StronglySorted Nat.le (sorted_keys m)) as Hsorted
    by apply (StronglySorted_merge_sort Nat.le).
  rewrite E in Hw, Hsorted.
  apply elem_of_app in Hw as [Hw|[->|Hw]%elem_of_cons].
  - specialize (H1 w Hw). simpl in H1. lia.
  - done.
  - apply StronglySorted_app_1_r, StronglySorted_cons in Hsorted as [Hall _].
    rewrite Forall_forall in Hall. by apply Hall.
Qed.

Lemma closest_width_least_distance_smaller_on_tie_witness :
  let m := (collect_levels [py "    * b"; py "* a"]).1 in
  py_min (λ x, abs_diff x 2) (sorted_keys m) = Some 0
  ∧ is_Some (m !! 0)
  ∧ ∀ w, is_Some (m !! w) →
      abs_diff 0 2 ≤ abs_diff w 2 ∧ (abs_diff w 2 = abs_diff 0 2 → 0 ≤ w).
Proof.
  intros m. split; [reflexivity|].
  apply (closest_width_least_distance_smaller_on_tie m 2 0). reflexivity.
Defined.

Lemma process_list_block_inv (lines out : list (list ascii)) :
  lines ≠ [] → _process_list_block lines = Some out →
  ∃ result,
    Forall2 (λ x y, normalize_line (collect_levels lines).1
                      (sorted_keys (collect_levels lines).1) x = Some y)
            lines result
    ∧ out = result ++ [LIST_BLOCK_COMMENT].
Proof.
  intros Hne Hout. unfold _process_list_block in Hout.
  destruct lines as [|l0 ls] eqn:E; [done|]. rewrite <-E in *.
  destruct (mapM _ lines) as [result|] eqn:Hmap; [|done].
  cbn in Hout. injection Hout as <-. exists result.
  split; [by apply mapM_Some_1|done].
Qed.

(** List items of one block get the same indentation exactly when they had
    the same indentation: the levels tell the widths apart. *)
Theorem list_items_same_width_same_indent
    (lines out : list (list ascii)) (i j : nat) (xi xj : list ascii) :
  _process_list_block lines = Some out →
  lines !! i = Some xi → lines !! j = Some xj →
  _is_list_item xi = true → _is_list_item xj = true →
  ∃ yi yj,
    out !! i = Some yi ∧ out !! j = Some yj
    ∧ (_get_indent_level yi = _get_indent_level yj
       ↔ _get_indent_level xi = _get_indent_level xj).
Proof.
  intros Hout Hi Hj Hxi Hxj.
  assert (lines ≠ []) as Hne by (intros ->; done).
  destruct (process_list_block_inv lines out Hne Hout) as (result & Hres & ->).
  destruct (Forall2_lookup_l _ _ _ _ _ Hres Hi) as (yi & Hyi & Hni).
  destruct (Forall2_lookup_l _ _ _ _ _ Hres Hj) as (yj & Hyj & Hnj).
  apply list_elem_of_lookup_2 in Hi, Hj.
  destruct (normalize_line_item lines xi Hi Hxi) as (li & Hdi & Hmi & Hi').
  destruct (normalize_line_item lines xj Hj Hxj) as (lj & Hdj & Hmj & Hj').
  rewrite Hi' in Hni. rewrite Hj' in Hnj.
  injection Hni as <-. injection Hnj as <-.
  exists (str_mul (py "  ") li ++ py "* " ++ item_content (lstrip xi)),
         (str_mul (py "  ") lj ++ py "* " ++ item_content (lstrip xj)).
  split; [by apply lookup_app_l_Some|]. split; [by apply lookup_app_l_Some|].
  destruct (pad_item_indent li (item_content (lstrip xi))) as (-> & _ & _).
  destruct (pad_item_indent lj (item_content (lstrip xj))) as (-> & _ & _).
  split.
  - intros Heq. assert (li = lj) as -> by lia. congruence.
  - intros Heq. rewrite Heq in Hmi. assert (li = lj) by congruence. lia.
Qed.

Lemma list_items_same_width_same_indent_witness :
  let lines := [py "   - a"; py "* b"; py "   + c"] in
  let out := [py "* a"; py "  * b"; py "* c"; LIST_BLOCK_COMMENT] in
  _process_list_block lines = Some out
  ∧ ∃ yi yj,
      out !! 0 = Some yi ∧ out !! 2 = Some yj
      ∧ (_get_indent_level yi = _get_indent_level yj
         ↔ _get_indent_level (py "   - a") = _get_indent_level (py "   + c")).
Proof.
  intros lines out. split; [reflexivity|].
  apply (list_items_same_width_same_indent lines out 0 2); reflexivity.
Defined.

(** The normalizer keeps the lines of a block in number, order and kind: a
    list item stays one, a blank line stays blank, and a line that is no
    list item keeps its text behind the indentation; one comment is added
    at the end. *)
Theorem normalizer_keeps_lines (lines out : list (list ascii)) :
  lines ≠ [] → _process_list_block lines = Some out →
  length out = S (length lines)
  ∧ out !! length lines = Some LIST_BLOCK_COMMENT
  ∧ ∀ i x, lines !! i = Some x →
      ∃ y, out !! i = Some y
           ∧ _is_list_item y = _is_list_item x
           ∧ nonempty (lstrip y) = nonempty (lstrip x)
           ∧ (_is_list_item x = false → lstrip y = lstrip x)
           ∧ (nonempty (lstrip x) = false → y = x).
Proof.
  intros Hne Hout.
  destruct (process_list_block_inv lines out Hne Hout) as (result & Hres & ->).
  pose proof (Forall2_length _ _ _ Hres) as Hlen.
  split; [rewrite length_app; simpl; lia|]. split.
  { rewrite Hlen. by rewrite lookup_app_r, Nat.sub_diag. }
  intros i x Hi.
  destruct (Forall2_lookup_l _ _ _ _ _ Hres Hi) as (y & Hy & Hn).
  exists y. split; [by apply lookup_app_l_Some|].
  apply list_elem_of_lookup_2 in Hi.
  destruct (normalize_line_cases lines x y Hi Hn)
    as [[Hb ->]|[(Hitem & l & Hl & ->)|(Hcont & l & Hl & ->)]].
  - done.
  - destruct (pad_item_indent l (item_content (lstrip x))) as (_ & -> & ->).
    rewrite Hitem, (is_list_item_nonempty x Hitem).
    split; [done|]. split; [done|]. split; intros; congruence.
  - apply andb_true_iff in Hcont as [Hne' Hitem%negb_true_iff].
    rewrite is_list_item_pad, is_list_item_lstrip, lstrip_pad, lstrip_idemp.
    split; [done|]. split; [done|]. split; [done|]. intros Hb. congruence.
Qed.

Lemma normalizer_keeps_lines_witness :
  let lines := [py "1. a"; py "   note"; py " "; py "  * b"] in
  lines ≠ []
  ∧ _process_list_block lines
    = Some [py "* a"; py "    note"; py " "; py "  * b"; LIST_BLOCK_COMMENT]
  ∧ length [py "* a"; py "    note"; py " "; py "  * b"; LIST_BLOCK_COMMENT]
    = S (length lines).
Proof.
  intros lines. split; [discriminate|]. split; [reflexivity|].
  apply (normalizer_keeps_lines lines); [discriminate|reflexivity].
Defined.

(** ** The annotator *)

Lemma drop_while_nil_iff {A} (p : A → bool) (l : list A) :
  drop_while p l = [] ↔ Forall (λ x, p x = true) l.
Proof.
  induction l as [|x l IH]; simpl; [by split|].
  destruct (p x) eqn:Hx.
  - rewrite IH. split; [by constructor|by intros [_ ?]%Forall_cons].
  - split; [done|]. intros [? _]%Forall_cons. congruence.
Qed.

Lemma drop_while_app_stop {A} (p : A → bool) (l k : list A) :
  drop_while p l ≠ [] → drop_while p (l ++ k) = drop_while p l ++ k.
Proof.
  induction l as [|x l IH]; simpl; [done|]. destruct (p x); [done|done].
Qed.

(** A text with a character that is no whitespace is not stripped away,
    and what stands before it is kept by [rstrip]. *)
Lemma rstrip_app (a b : list ascii) :
  nonempty (lstrip b) = true →
  rstrip b ≠ [] ∧ rstrip (a ++ b) = a ++ rstrip b.
Proof.
  intros Hb.
  assert (drop_while isspace (reverse b) ≠ []) as Hne.
  { rewrite drop_while_nil_iff, Forall_reverse, <-drop_while_nil_iff.
    fold (lstrip b). by destruct (lstrip b). }
  unfold rstrip. split.
  - intros Hnil. apply Hne. by rewrite <-(reverse_involutive (drop_while _ _)), Hnil.
  - by rewrite reverse_app, drop_while_app_stop, reverse_app, reverse_involutive.
Qed.

Lemma take_while_hashes (n : nat) (c : ascii) (rest : list ascii) :
  isspace c = true →
  take_while (ascii_eqb "#") (replicate n "#"%char ++ c :: rest)
  = replicate n "#"%char.
Proof.
  intros Hc. apply take_while_app_stop.
  - apply Forall_forall. by intros x ->%elem_of_replicate_inv.
  - destruct (ascii_eqb "#" c) eqn:E; [|done].
    apply ascii_eqb_true in E. by subst.
Qed.

(** A heading of [n] hashes followed by whitespace and a title is kept
    (without trailing whitespace) and followed by the comment that carries
    the level [n]. *)
Theorem heading_comment_carries_hash_count
    (n : nat) (c : ascii) (rest : list ascii) (in_list : bool) :
  0 < n → isspace c = true → nonempty (lstrip rest) = true →
  _add_metadata (replicate n "#"%char ++ c :: rest) in_list
  = ([replicate n "#"%char ++ c :: rstrip rest;
      py "<!-- Type: Heading " ++ py (pretty n) ++ py " -->"],
     Some (heading n)).
Proof.
  intros Hn Hc Hrest.
  destruct (rstrip_app (replicate n "#"%char ++ [c]) rest Hrest) as [Hne E0].
  assert (rstrip (replicate n "#"%char ++ c :: rest)
          = replicate n "#"%char ++ c :: rstrip rest) as E.
  { replace (replicate n "#"%char ++ c :: rest)
      with ((replicate n "#"%char ++ [c]) ++ rest)
      by (by rewrite <-app_assoc).
    rewrite E0. by rewrite <-app_assoc. }
  unfold _add_metadata. cbv zeta. rewrite E.
  destruct n as [|n]; [lia|].
  assert (nonempty (replicate (S n) "#"%char ++ c :: rstrip rest) = true)
    as -> by done.
  cbn [negb].
  assert (HEADING_PATTERN_match (replicate (S n) "#"%char ++ c :: rstrip rest)
          = true) as ->.
  { unfold HEADING_PATTERN_match. rewrite take_while_hashes by done.
    rewrite drop_app_length. cbn [nonempty replicate andb]. done. }
  assert (length (first_token (replicate (S n) "#"%char ++ c :: rstrip rest))
          = S n) as ->.
  { unfold first_token. rewrite lstrip_fixed by done.
    rewrite take_while_app_stop.
    - apply length_replicate.
    - apply Forall_forall. by intros x ->%elem_of_replicate_inv.
    - by rewrite Hc. }
  unfold type_comment. by rewrite <-!app_assoc.
Qed.

Lemma heading_comment_carries_hash_count_witness :
  0 < 3 ∧ isspace " " = true ∧ nonempty (lstrip (py "Title  ")) = true
  ∧ _add_metadata (py "### Title  ") false
    = ([py "### Title"; py "<!-- Type: Heading 3 -->"], Some (heading 3)).
Proof.
  split; [lia|]. split; [reflexivity|]. split; [reflexivity|].
  apply (heading_comment_carries_hash_count 3 " " (py "Title  ") false);
    [lia|reflexivity|reflexivity].
Defined.

Lemma is_metadata_line_type_comment (body : list ascii) :
  is_metadata_line (type_comment body) = true.
Proof. reflexivity. Qed.

(** The annotator only adds: its output is the line without trailing
    whitespace, alone or followed by one comment, and that comment is a
    line that the grouping pass takes for metadata. A line of whitespace
    gives one empty line and no category. *)
Theorem add_metadata_only_adds (line : list ascii) (in_list : bool) :
  ((_add_metadata line in_list).1 = [rstrip line]
   ∨ ∃ comment,
       (_add_metadata line in_list).1 = [rstrip line; comment]
       ∧ is_metadata_line comment = true)
  ∧ (nonempty (rstrip line) = false →
     _add_metadata line in_list = ([[]], None)).
Proof.
  unfold _add_metadata. cbv zeta. split.
  - destruct (nonempty (rstrip line)); cbn [negb]; [|by left].
    repeat match goal with
           | |- context [if ?b then _ else _] => destruct b
           end; cbn [fst];
      (by left) || (right; eexists; split; [reflexivity|];
                    apply is_metadata_line_type_comment).
  - intros Hb. rewrite Hb. cbn [negb]. by destruct (rstrip line).
Qed.

Lemma add_metadata_only_adds_witness :
  nonempty (rstrip (py "   ")) = false
  ∧ _add_metadata (py "   ") false = ([[]], None)
  ∧ ((_add_metadata (py "text  ") false).1 = [rstrip (py "text  ")]
     ∨ ∃ comment,
         (_add_metadata (py "text  ") false).1
         = [rstrip (py "text  "); comment]
         ∧ is_metadata_line comment = true).
Proof.
  split; [reflexivity|]. split.
  - apply (proj2 (add_metadata_only_adds (py "   ") false)). reflexivity.
  - apply (proj1 (add_metadata_only_adds (py "text  ") false)).
Defined.

(** ** The segmentation pass on whole documents *)

Lemma seg_loop_no_items (lines : list (list ascii)) r p :
  forallb (λ line, negb (_is_list_item line)) lines = true →
  seg_loop (SegState r [] false p) lines
  = Some (SegState
            (r ++ concat ((λ line, (_add_metadata line false).1) <$> lines))
            [] false p).
Proof.
  revert r. induction lines as [|line lines IH]; intros r Hlines.
  { simpl. by rewrite app_nil_r. }
  apply andb_true_iff in Hlines as [Hline%negb_true_iff Hlines].
  cbn [seg_loop]. unfold seg_step at 1. rewrite Hline.
  cbn [in_list seg_result list_block passed mbind option_bind].
  rewrite IH by done. rewrite fmap_cons. cbn [concat].
  by rewrite <-!app_assoc.
Qed.

(** A document without list items is annotated line by line: the output is
    the concatenation of what the annotator gives for each line, and the
    normalizer is never called. *)
Theorem no_list_items_line_by_line (lines : list (list ascii)) :
  forallb (λ line, negb (_is_list_item line)) lines = true →
  _process_nested_lists lines
  = Some (concat ((λ line, (_add_metadata line false).1) <$> lines))
  ∧ passed <$> seg_run lines = Some [].
Proof.
  intros Hlines. unfold _process_nested_lists, seg_run, seg_init.
  by rewrite seg_loop_no_items.
Qed.

Lemma no_list_items_line_by_line_witness :
  let lines := [py "# Title"; py ""; py "| a |"; py "text  "] in
  forallb (λ line, negb (_is_list_item line)) lines = true
  ∧ _process_nested_lists lines
    = Some (concat ((λ line, (_add_metadata line false).1) <$> lines))
  ∧ passed <$> seg_run lines = Some [].
Proof.
  intros lines. split; [reflexivity|].
  apply (no_list_items_line_by_line lines). reflexivity.
Defined.

Lemma seg_step_blank_outside (st : seg_state) (blank : list ascii) :
  seg_inv st → nonempty (lstrip blank) = false →
  ∃ st', seg_step st blank = Some st' ∧ in_list st' = false.
Proof.
  intros [Hblock _] Hblank. unfold seg_step.
  rewrite (blank_no_list_item blank Hblank), Hblank.
  destruct (in_list st) eqn:Hin.
  - assert (nonempty_list (list_block st) = true) as ->.
    { by destruct Hblock as (hd & tl & -> & _). }
    destruct (flush_block_Some st Hblock) as (out & _ & ->).
    cbn [mbind option_bind]. by eexists.
  - eexists. split; [done|]. by cbn [in_list].
Qed.

(** The pass can be cut behind any blank line: the output for the whole
    document is the output for the part up to and with the blank line
    followed by the output for the rest. *)
Theorem segmentation_splits_at_blank_line
    (pre rest : list (list ascii)) (blank : list ascii) :
  nonempty (lstrip blank) = false →
  ∃ out_pre out_rest,
    _process_nested_lists (pre ++ [blank]) = Some out_pre
    ∧ _process_nested_lists rest = Some out_rest
    ∧ _process_nested_lists (pre ++ blank :: rest)
      = Some (out_pre ++ out_rest).
Proof.
  intros Hblank.
  assert (ends_outside_list (pre ++ [blank]) = true) as Hends.
  { unfold ends_outside_list. rewrite seg_loop_app.
    destruct (seg_loop_inv pre seg_init seg_init_inv) as (st & -> & Hst).
    cbn [mbind option_bind seg_loop].
    destruct (seg_step_blank_outside st blank Hst Hblank) as (st' & -> & Hin).
    cbn [mbind option_bind]. by rewrite Hin. }
  destruct (ends_outside_list_state _ Hends) as (r & p & Hloop & Hrun).
  destruct (seg_run_inv rest) as (st_rest & Hrest & _).
  exists r, (seg_result st_rest).
  unfold _process_nested_lists. rewrite Hrun, Hrest.
  split; [done|]. split; [done|].
  rewrite (cons_middle blank pre rest), app_assoc.
  unfold seg_run at 1. rewrite seg_loop_app, Hloop.
  cbn [mbind option_bind]. rewrite seg_run_shift, Hrest. done.
Qed.

Lemma segmentation_splits_at_blank_line_witness :
  let pre := [py "* a"; py "  more"] in
  let rest := [py "* b"; py "text"] in
  nonempty (lstrip (py "  ")) = false
  ∧ ∃ out_pre out_rest,
      _process_nested_lists (pre ++ [py "  "]) = Some out_pre
      ∧ _process_nested_lists rest = Some out_rest
      ∧ _process_nested_lists (pre ++ py "  " :: rest)
        = Some (out_pre ++ out_rest).
Proof.
  intros pre rest. split; [reflexivity|].
  apply (segmentation_splits_at_blank_line pre rest (py "  ")). reflexivity.
Defined.

(** ** The grouping pass on whole documents *)

Lemma rows_closed_app (a b : list (list ascii)) :
  rows_closed a = true → rows_closed (a ++ b) = rows_closed b.
Proof.
  induction a as [|l a IH]; [done|]. cbn [app rows_closed].
  intros [Hl Ha]%andb_true_iff. rewrite (IH Ha).
  destruct (is_buffered_row l); [|done].
  destruct a as [|l' a]; [done|]. cbn [app]. by rewrite Hl.
Qed.

Lemma rows_closed_rows (cur rest : list (list ascii)) :
  forallb is_buffered_row cur = true →
  rows_closed (cur ++ [] :: rest) = rows_closed rest.
Proof.
  induction cur as [|l cur IH]; [done|].
  intros [Hl Hcur]%andb_true_iff. cbn [app rows_closed].
  rewrite Hl, (IH Hcur). destruct cur as [|l' cur]; [done|].
  apply andb_true_iff in Hcur as [Hl' _]. cbn [app]. by rewrite Hl'.
Qed.

Lemma rows_closed_snoc (a : list (list ascii)) (x : list ascii) :
  rows_closed a = true → is_buffered_row x = false →
  rows_closed (a ++ [x]) = true.
Proof. intros Ha Hx. rewrite rows_closed_app by done. simpl. by rewrite Hx. Qed.

Lemma tbl_step_rows_closed (st : tbl_state) (line : list ascii) :
  rows_closed (markdown_lines st) = true →
  forallb is_buffered_row (current_table st) = true →
  rows_closed (markdown_lines (tbl_step st line)) = true
  ∧ forallb is_buffered_row (current_table (tbl_step st line)) = true.
Proof.
  intros Hout Hcur. unfold tbl_step.
  destruct (is_metadata_line line) eqn:Hm.
  { cbn [markdown_lines current_table]. split; [|done].
    apply rows_closed_snoc; [done|]. unfold is_buffered_row. by rewrite Hm. }
  destruct (is_table_line line) eqn:Ht.
  - assert (is_buffered_row line = true) as Hrow
      by (unfold is_buffered_row; by rewrite Hm, Ht).
    destruct (in_table st); cbn [negb markdown_lines current_table].
    + split; [done|]. rewrite forallb_app, Hcur. simpl. by rewrite Hrow.
    + split; [done|]. simpl. by rewrite Hrow.
  - assert (is_buffered_row line = false) as Hrow
      by (unfold is_buffered_row; by rewrite Hm, Ht).
    destruct (in_table st); cbn [markdown_lines current_table].
    + split; [|done]. apply rows_closed_snoc; [|done].
      by rewrite rows_closed_app, rows_closed_rows.
    + split; [|done]. by apply rows_closed_snoc.
Qed.

(** In the output of the grouping pass a table row is never followed by
    other content and never comes last: behind every buffered row stands
    another one or an empty line. *)
Theorem grouped_rows_end_in_empty_line (processed_lines : list (list ascii)) :
  rows_closed (group_tables processed_lines) = true.
Proof.
  unfold group_tables.
  assert (∀ ls st,
            rows_closed (markdown_lines st) = true →
            forallb is_buffered_row (current_table st) = true →
            rows_closed (tbl_finish (foldl tbl_step st ls)) = true) as Hloop.
  { induction ls as [|line ls IH]; intros st Hout Hcur.
    - unfold tbl_finish. cbn [foldl].
      destruct (nonempty_list (current_table st)); [|done].
      by rewrite rows_closed_app, rows_closed_rows.
    - cbn [foldl].
      destruct (tbl_step_rows_closed st line Hout Hcur) as [Hout' Hcur'].
      by apply IH. }
  by apply Hloop.
Qed.

Lemma tbl_step_keeps (st : tbl_state) (line : list ascii)
    (seen : list (list ascii)) :
  tbl_inv st →
  filter (λ l, is_metadata_line l = true) (markdown_lines st)
    = filter (λ l, is_metadata_line l = true) seen →
  filter (λ l, is_metadata_line l = true) (current_table st) = [] →
  filter is_content_line (markdown_lines st ++ current_table st)
    = filter is_content_line seen →
  let st' := tbl_step st line in
  filter (λ l, is_metadata_line l = true) (markdown_lines st')
    = filter (λ l, is_metadata_line l = true) (seen ++ [line])
  ∧ filter (λ l, is_metadata_line l = true) (current_table st') = []
  ∧ filter is_content_line (markdown_lines st' ++ current_table st')
    = filter is_content_line (seen ++ [line]).
Proof.
  intros Hinv Hmeta Hcur Hcontent. cbv zeta. unfold tbl_step.
  unfold tbl_inv in Hinv. rewrite !filter_app in Hcontent.
  assert (filter is_content_line [[]] = []) as Hempty.
  { rewrite filter_cons_False; [done|]. by intros [_ ?]. }
  destruct (is_metadata_line line) eqn:Hm.
  { cbn [markdown_lines current_table].
    rewrite !filter_app, Hmeta, <-Hcontent. split; [done|]. split; [done|].
    rewrite (filter_cons_False is_content_line line)
      by (intros [? _]; congruence).
    by rewrite filter_nil, !app_nil_r. }
  assert (filter (λ l, is_metadata_line l = true) [line] = []) as Hline
    by (rewrite filter_cons_False by congruence; done).
  assert (filter (λ l, is_metadata_line l = true) [[]] = []) as Hmempty
    by (rewrite filter_cons_False by done; done).
  destruct (is_table_line line) eqn:Ht;
    destruct (in_table st); cbn [negb markdown_lines current_table];
    rewrite ?Hinv in *; rewrite ?filter_app;
    rewrite ?Hmeta, ?Hline, ?Hcur, ?Hmempty, ?Hempty, <-?Hcontent;
    cbn [filter list_filter]; rewrite ?app_nil_r, <-?app_assoc; done.
Qed.

Lemma tbl_loop_keeps (ls seen : list (list ascii)) (st : tbl_state) :
  tbl_inv st →
  filter (λ l, is_metadata_line l = true) (markdown_lines st)
    = filter (λ l, is_metadata_line l = true) seen →
  filter (λ l, is_metadata_line l = true) (current_table st) = [] →
  filter is_content_line (markdown_lines st ++ current_table st)
    = filter is_content_line seen →
  filter (λ l, is_metadata_line l = true) (tbl_finish (foldl tbl_step st ls))
    = filter (λ l, is_metadata_line l = true) (seen ++ ls)
  ∧ filter is_content_line (tbl_finish (foldl tbl_step st ls))
    = filter is_content_line (seen ++ ls).
Proof.
  revert seen st. induction ls as [|line ls IH];
    intros seen st Hinv Hmeta Hcur Hcontent.
  - cbn [foldl]. rewrite app_nil_r. unfold tbl_finish.
    destruct (current_table st) as [|row cur] eqn:E; cbn [nonempty_list].
    + rewrite app_nil_r in Hcontent. by split.
    + rewrite !filter_app, Hcur, Hmeta. rewrite filter_app in Hcontent.
      rewrite <-Hcontent.
      rewrite (filter_cons_False (λ l, is_metadata_line l = true) [])
        by done.
      rewrite (filter_cons_False is_content_line []) by (by intros [_ ?]).
      by rewrite !filter_nil, !app_nil_r.
  - cbn [foldl].
    destruct (tbl_step_keeps st line seen Hinv Hmeta Hcur Hcontent)
      as (Hmeta' & Hcur' & Hcontent').
    rewrite (cons_middle line seen ls), app_assoc.
    apply IH; [by apply tbl_step_inv|done|done|done].
Qed.

Lemma tbl_step_permutation (st : tbl_state) (line : list ascii)
    (seen : list (list ascii)) (k : nat) :
  tbl_inv st →
  markdown_lines st ++ current_table st ≡ₚ seen ++ replicate k [] →
  let st' := tbl_step st line in
  ∃ k', k ≤ k' ≤ S k
        ∧ markdown_lines st' ++ current_table st'
          ≡ₚ (seen ++ [line]) ++ replicate k' [].
Proof.
  intros Hinv Hperm. cbv zeta. unfold tbl_step. unfold tbl_inv in Hinv.
  assert (∀ out cur : list (list ascii),
            out ++ cur ≡ₚ seen ++ replicate k [] →
            (out ++ [line]) ++ cur ≡ₚ (seen ++ [line]) ++ replicate k [])
    as Hline.
  { intros out cur H. rewrite <-!app_assoc.
    rewrite (Permutation_app_comm [line] cur),
            (Permutation_app_comm [line] (replicate k [])).
    by rewrite !app_assoc, H. }
  destruct (is_metadata_line line).
  { exists k. split; [lia|]. cbn [markdown_lines current_table].
    by apply Hline. }
  destruct (is_table_line line); destruct (in_table st);
    cbn [negb markdown_lines current_table].
  - exists k. split; [lia|].
    rewrite (app_assoc (markdown_lines st)), Hperm, <-!app_assoc.
    apply Permutation_app_head, Permutation_app_comm.
  - exists k. split; [lia|]. rewrite Hinv, app_nil_r in Hperm.
    rewrite Hperm, <-!app_assoc.
    apply Permutation_app_head, Permutation_app_comm.
  - exists (S k). split; [lia|]. rewrite app_nil_r, <-!app_assoc.
    rewrite (app_assoc (markdown_lines st)), Hperm, <-!app_assoc.
    apply Permutation_app_head.
    rewrite app_assoc, (Permutation_app_comm _ [line]).
    apply Permutation_app_head. cbn [replicate].
    by rewrite <-Permutation_cons_append.
  - exists k. split; [lia|]. by apply Hline.
Qed.

Lemma tbl_loop_permutation (ls seen : list (list ascii)) (st : tbl_state)
    (k : nat) :
  tbl_inv st →
  markdown_lines st ++ current_table st ≡ₚ seen ++ replicate k [] →
  ∃ k', k' ≤ k + S (length ls)
        ∧ tbl_finish (foldl tbl_step st ls)
          ≡ₚ (seen ++ ls) ++ replicate k' [].
Proof.
  revert seen st k. induction ls as [|line ls IH]; intros seen st k Hinv Hperm.
  - cbn [foldl]. rewrite app_nil_r. unfold tbl_finish.
    destruct (current_table st) as [|row cur] eqn:E; cbn [nonempty_list].
    + exists k. split; [lia|]. by rewrite app_nil_r in Hperm.
    + exists (S k). split; [simpl; lia|].
      rewrite app_assoc, Hperm, <-app_assoc.
      apply Permutation_app_head. cbn [replicate].
      by rewrite <-Permutation_cons_append.
  - cbn [foldl].
    destruct (tbl_step_permutation st line seen k Hinv Hperm)
      as (k' & Hk' & Hperm').
    destruct (IH (seen ++ [line]) (tbl_step st line) k'
                (tbl_step_inv st line Hinv) Hperm') as (k'' & Hk'' & Hfin).
    exists k''. split; [simpl; lia|].
    by rewrite (cons_middle line seen ls), app_assoc.
Qed.

(** The grouping pass loses no line and invents none but empty lines: its
    output holds the lines of its input, each as often as the input does,
    and beside them only empty lines, no more than one for each line read
    and one for the end. It keeps the order of the metadata comments, and
    that of the other lines that are not empty; comments only move ahead
    of buffered rows. *)
Theorem group_tables_keeps_lines (processed_lines : list (list ascii)) :
  (∃ k, k ≤ S (length processed_lines)
        ∧ group_tables processed_lines
          ≡ₚ processed_lines ++ replicate k [])
  ∧ filter (λ l, is_metadata_line l = true) (group_tables processed_lines)
    = filter (λ l, is_metadata_line l = true) processed_lines
  ∧ filter is_content_line (group_tables processed_lines)
    = filter is_content_line processed_lines.
Proof.
  split; [|by apply (tbl_loop_keeps processed_lines [] tbl_init)].
  destruct (tbl_loop_permutation processed_lines [] tbl_init 0)
    as (k & Hk & Hperm); [done|done|].
  exists k. split; [simpl in Hk; lia|done].
Qed.

Lemma tbl_loop_no_rows (ls : list (list ascii)) r :
  forallb (λ l, negb (is_buffered_row l)) ls = true →
  foldl tbl_step (TblState r [] false) ls = TblState (r ++ ls) [] false.
Proof.
  revert r. induction ls as [|line ls IH]; intros r Hls.
  { simpl. by rewrite app_nil_r. }
  apply andb_true_iff in Hls as [Hline%negb_true_iff Hls].
  cbn [foldl]. unfold tbl_step at 2. unfold is_buffered_row in Hline.
  destruct (is_metadata_line line).
  - cbn [markdown_lines current_table in_table].
    rewrite IH by done. by rewrite <-app_assoc.
  - cbn [negb andb] in Hline. rewrite Hline.
    cbn [markdown_lines current_table in_table].
    rewrite IH by done. by rewrite <-app_assoc.
Qed.

(** A stream without table rows leaves the grouping pass as it came. *)
Theorem group_tables_without_rows (processed_lines : list (list ascii)) :
  forallb (λ l, negb (is_buffered_row l)) processed_lines = true →
  group_tables processed_lines = processed_lines.
Proof.
  intros Hls. unfold group_tables, tbl_init.
  by rewrite tbl_loop_no_rows.
Qed.

Lemma group_tables_without_rows_witness :
  let ls := [py "# T"; py "<!-- Type: Heading 1 -->"; py "";
             py "| <!-- Type: x --> |"; py "* a"] in
  forallb (λ l, negb (is_buffered_row l)) ls = true
  ∧ group_tables ls = ls.
Proof.
  intros ls. split; [reflexivity|].
  apply (group_tables_without_rows ls). reflexivity.
Defined.

(** ** Image resolution on text without placeholders *)

(** A text in which no [![] occurs holds no placeholder: the image pass
    returns it as it is, for every image map whose file names have no
    backslash; so the metadata comments and every other exclamation mark
    are safe. *)
Theorem resolve_images_without_opener
    (image_map : list (list ascii * ImageInfo)) (content : list ascii) :
  forallb (λ entry, lacks backslash (filename entry.2)) image_map = true →
  contains (py "![") content = false →
  resolve_images image_map content = Returns content.
Proof.
  intros Hmap Hc. induction image_map as [|entry image_map IH]; [done|].
  cbn [forallb] in Hmap. apply andb_true_iff in Hmap as [Hf Hmap].
  rewrite resolve_images_step, sub1_without_opener by done. by apply IH.
Qed.

Lemma resolve_images_without_opener_witness :
  let content := py "# Title!" ++ [newline] ++ py "<!-- Type: Heading 1 -->"
                 ++ [newline] ++ py "[link](data:image/png;base64,AA)" in
  let image_map :=
    [(py "rId4", mkImageInfo (py "doc_0.png") [] (py "image/png"))] in
  forallb (λ entry, lacks backslash (filename entry.2)) image_map = true
  ∧ contains (py "![") content = false
  ∧ resolve_images image_map content = Returns content.
Proof.
  intros content image_map. split; [reflexivity|]. split; [reflexivity|].
  apply resolve_images_without_opener; reflexivity.
Defined.

(** ** Link resolution *)

Lemma link_match_not_bracket (rid : list atom) (c : ascii) (s : list ascii) :
  c ≠ "["%char → link_match rid (c :: s) = None.
Proof.
  intros Hc. unfold link_match. destruct (ascii_eqb c "[") eqn:E; [|done].
  by apply ascii_eqb_true in E.
Qed.

(** The substitution passes over text without an opening bracket. *)
Lemma link_replace_lacks (rid : list atom) (repl : list template_item)
    (t s : list ascii) :
  lacks "[" t = true →
  link_replace rid repl 0 (t ++ s) = t ++ link_replace rid repl 0 s.
Proof.
  induction t as [|c t IH]; [done|]. intros [Hc Ht]%lacks_cons.
  cbn [app link_replace]. by rewrite link_match_not_bracket, IH.
Qed.

(** The characters covered by a match are skipped. *)
Lemma link_replace_skip (rid : list atom) (repl : list template_item)
    (u s : list ascii) :
  link_replace rid repl (length u) (u ++ s) = link_replace rid repl 0 s.
Proof. induction u as [|c u IH]; [by destruct s|]. apply IH. Qed.

Lemma startswith_app (p s : list ascii) : startswith p (p ++ s) = true.
Proof.
  induction p as [|c p IH]; [done|]. cbn [app startswith].
  by rewrite ascii_eqb_refl, IH.
Qed.

Lemma startswith_app_inv (p p' s : list ascii) :
  startswith (p ++ p') (p ++ s) = startswith p' s.
Proof.
  induction p as [|c p IH]; [done|]. cbn [app startswith].
  by rewrite ascii_eqb_refl, IH.
Qed.

(** Two texts that end at the same terminator are equal when one starts
    with the other and its terminator. *)
Lemma startswith_terminated (q : ascii) (a b x y : list ascii) :
  lacks q a = true → lacks q b = true →
  startswith (a ++ q :: x) (b ++ q :: y) = true → a = b.
Proof.
  revert b. induction a as [|c a IH]; intros b Ha Hb Hs.
  - destruct b as [|d b]; [done|]. cbn [app startswith] in Hs.
    apply andb_true_iff in Hs as [->%ascii_eqb_true _].
    by apply lacks_cons in Hb as [? _].
  - apply lacks_cons in Ha as [Hc Ha]. destruct b as [|d b].
    + cbn [app startswith] in Hs.
      by apply andb_true_iff in Hs as [->%ascii_eqb_true _].
    + cbn [app startswith] in Hs. apply lacks_cons in Hb as [_ Hb].
      apply andb_true_iff in Hs as [->%ascii_eqb_true Hs].
      f_equal. by apply IH.
Qed.

(** A pattern with the character [q] behind a prefix [p] does not start a
    text that lacks [q] up to a character that is neither [q] nor in [p]. *)
Lemma startswith_other (q c : ascii) (p x u rest : list ascii) :
  lacks q u = true → c ≠ q → lacks c p = true →
  startswith (p ++ q :: x) (u ++ c :: rest) = false.
Proof.
  revert u. induction p as [|b p IH]; intros u Hu Hc Hp.
  - destruct u as [|a u]; cbn [app startswith].
    + destruct (ascii_eqb q c) eqn:E; [|done].
      apply ascii_eqb_true in E. congruence.
    + apply lacks_cons in Hu as [Ha _].
      destruct (ascii_eqb q a) eqn:E; [|done].
      apply ascii_eqb_true in E. congruence.
  - apply lacks_cons in Hp as [Hb Hp]. destruct u as [|a u]; cbn [app startswith].
    + destruct (ascii_eqb b c) eqn:E; [|done].
      apply ascii_eqb_true in E. congruence.
    + apply lacks_cons in Hu as [_ Hu]. rewrite (IH u) by done.
      apply andb_false_r.
Qed.

Lemma take_while_label (label rest : list ascii) :
  lacks "]" label = true →
  take_while (λ c, negb (ascii_eqb c "]")) (label ++ "]"%char :: rest) = label.
Proof.
  intros Hl. apply take_while_app_stop; [|done].
  apply Forall_forall. intros c Hc. unfold lacks in Hl.
  rewrite forallb_forall in Hl. by apply Hl, list_elem_of_In.
Qed.

(** What [link_match] does at an opening bracket followed by a label and a
    closing bracket. *)
Lemma startswith_split (p q s : list ascii) :
  startswith (p ++ q) s
  = startswith p s && startswith q (drop (length p) s).
Proof.
  revert s. induction p as [|c p IH]; intros s; [done|].
  destruct s as [|x s]; [done|]. cbn [app startswith length drop].
  by rewrite IH, andb_assoc.
Qed.

Lemma link_match_label (rid label rest : list ascii) :
  lacks "]" label = true →
  link_match (Char <$> rid) ("["%char :: label ++ "]"%char :: rest)
  = if startswith (py "(rel=" ++ [quote] ++ rid ++ [quote] ++ py ")") rest
    then Some (label, 1 + length label
                      + length (py "](rel=" ++ [quote] ++ rid ++ [quote]
                                ++ py ")"))
    else None.
Proof.
  intros Hl. unfold link_match.
  change (ascii_eqb "[" "[") with true. cbv iota zeta.
  rewrite take_while_label, drop_app_length by done.
  rewrite atoms_match_literal.
  pose (P := py "(rel=" ++ [quote]).
  change (startswith (py "](rel=" ++ [quote]) ("]"%char :: rest))
    with (startswith P rest).
  change (drop 7 ("]"%char :: rest)) with (drop 6 rest).
  change (py "(rel=" ++ [quote] ++ rid ++ [quote] ++ py ")")
    with (P ++ rid ++ (quote :: py ")")).
  rewrite (startswith_split P), (startswith_split rid).
  change (length P) with 6.
  destruct (startswith P rest); [|done].
  cbn [andb]. destruct (startswith rid (drop 6 rest)); [|done].
  cbn [andb]. destruct (startswith _ _); [|done].
  do 2 f_equal. rewrite length_fmap, !length_app. simpl. lia.
Qed.

Lemma link_match_same (rid label s : list ascii) :
  lacks "]" label = true →
  link_match (Char <$> rid) (render_piece (LinkRef label rid) ++ s)
  = Some (label, length (render_piece (LinkRef label rid))).
Proof.
  intros Hl.
  assert (render_piece (LinkRef label rid) ++ s
          = "["%char :: label ++ "]"%char
            :: (py "(rel=" ++ [quote] ++ rid ++ [quote] ++ py ")") ++ s) as ->.
  { cbn [render_piece]. by rewrite <-!app_assoc. }
  rewrite link_match_label, startswith_app by done.
  do 2 f_equal. cbn [render_piece]. rewrite !length_app. simpl. lia.
Qed.

Lemma link_match_other (rid rid' label s : list ascii) :
  lacks "]" label = true → lacks quote rid = true → lacks quote rid' = true →
  rid' ≠ rid →
  link_match (Char <$> rid) (render_piece (LinkRef label rid') ++ s) = None.
Proof.
  intros Hl Hr Hr' Hne.
  assert (render_piece (LinkRef label rid') ++ s
          = "["%char :: label ++ "]"%char
            :: py "(rel=" ++ [quote] ++ rid' ++ quote :: py ")" ++ s) as ->.
  { cbn [render_piece]. by rewrite <-!app_assoc. }
  rewrite link_match_label by done.
  destruct (startswith _ _) eqn:E; [|done]. exfalso. apply Hne.
  change (py "(rel=" ++ [quote] ++ rid ++ [quote] ++ py ")")
    with ((py "(rel=" ++ [quote]) ++ rid ++ quote :: py ")") in E.
  change (py "(rel=" ++ [quote] ++ rid' ++ quote :: py ")" ++ s)
    with ((py "(rel=" ++ [quote]) ++ rid' ++ quote :: py ")" ++ s) in E.
  rewrite startswith_app_inv in E. symmetry.
  by eapply startswith_terminated.
Qed.

Lemma link_match_link (rid label url s : list ascii) :
  lacks "]" label = true → lacks quote url = true →
  link_match (Char <$> rid) (render_piece (Link label url) ++ s) = None.
Proof.
  intros Hl Hu.
  assert (render_piece (Link label url) ++ s
          = "["%char :: label ++ "]"%char :: py "(" ++ url ++ ")"%char :: s)
    as ->.
  { cbn [render_piece]. by rewrite <-!app_assoc. }
  rewrite link_match_label by done.
  change (py "(rel=" ++ [quote] ++ rid ++ [quote] ++ py ")")
    with (py "(" ++ py "rel=" ++ quote :: rid ++ [quote] ++ py ")").
  rewrite startswith_app_inv, startswith_other; done.
Qed.

Lemma link_replace_at_none (rid : list atom) (repl : list template_item)
    (c : ascii) (s : list ascii) :
  link_match rid (c :: s) = None →
  link_replace rid repl 0 (c :: s) = c :: link_replace rid repl 0 s.
Proof. intros H. cbn [link_replace]. by rewrite H. Qed.

Lemma link_replace_at_some (rid : list atom) (target : list ascii) (c : ascii)
    (s g : list ascii) (n : nat) :
  link_match rid (c :: s) = Some (g, n) →
  link_replace rid (literal_link target) 0 (c :: s)
  = py "[" ++ g ++ py "](" ++ target ++ py ")"
    ++ link_replace rid (literal_link target) (n - 1) s.
Proof.
  intros H. cbn [link_replace]. rewrite H, expand_literal_link.
  by rewrite <-!app_assoc.
Qed.

Lemma render_piece_bracket (p : piece) :
  match p with
  | Plain _ => True
  | _ => ∃ u, render_piece p = "["%char :: u
  end.
Proof. destruct p; [done|by eexists|by eexists]. Qed.

(** One pass of the substitution over one piece. *)
Lemma link_replace_piece (rid target : list ascii) (p : piece) (s : list ascii) :
  well_formed_piece p = true → lacks quote rid = true →
  link_replace (Char <$> rid) (literal_link target) 0 (render_piece p ++ s)
  = render_piece (resolve_one rid target p)
    ++ link_replace (Char <$> rid) (literal_link target) 0 s.
Proof.
  intros Hp Hrid. destruct p as [t|label rid'|label url]; cbn [resolve_one].
  - by apply link_replace_lacks.
  - cbn [well_formed_piece] in Hp.
    apply andb_true_iff in Hp as [[[Hl1 Hl2]%andb_true_iff Hr1]%andb_true_iff Hr2].
    case_bool_decide as Heq.
    + subst rid'.
      pose proof (link_match_same rid label s Hl2) as Hm.
      set (u := label ++ py "](rel=" ++ [quote] ++ rid ++ [quote] ++ py ")").
      assert (render_piece (LinkRef label rid) = "["%char :: u) as E by done.
      rewrite E in Hm |- *. cbn [app] in Hm |- *.
      rewrite (link_replace_at_some _ _ _ _ _ _ Hm).
      cbn [length]. rewrite Nat.sub_succ, Nat.sub_0_r, link_replace_skip.
      cbn [render_piece]. by rewrite <-!app_assoc.
    + pose proof (link_match_other rid rid' label s Hl2 Hrid Hr2 Heq) as Hm.
      set (u := label ++ py "](rel=" ++ [quote] ++ rid' ++ [quote] ++ py ")").
      assert (render_piece (LinkRef label rid') = "["%char :: u) as E by done.
      rewrite E in Hm |- *. cbn [app] in Hm |- *.
      rewrite (link_replace_at_none _ _ _ _ Hm), link_replace_lacks; [done|].
      unfold u. rewrite !lacks_app, Hl1, Hr1. done.
  - cbn [well_formed_piece] in Hp.
    apply andb_true_iff in Hp as [[[Hl1 Hl2]%andb_true_iff Hu1]%andb_true_iff Hu2].
    pose proof (link_match_link rid label url s Hl2 Hu2) as Hm.
    set (u := label ++ py "](" ++ url ++ py ")").
    assert (render_piece (Link label url) = "["%char :: u) as E by done.
    rewrite E in Hm |- *. cbn [app] in Hm |- *.
    rewrite (link_replace_at_none _ _ _ _ Hm), link_replace_lacks; [done|].
    unfold u. rewrite !lacks_app, Hl1, Hu1. done.
Qed.

Lemma link_replace_render (rid target : list ascii) (ps : list piece) :
  forallb well_formed_piece ps = true → lacks quote rid = true →
  link_replace (Char <$> rid) (literal_link target) 0 (render ps)
  = render (resolve_one rid target <$> ps).
Proof.
  intros Hps Hrid. induction ps as [|p ps IH]; [done|].
  apply andb_true_iff in Hps as [Hp Hps]. unfold render in *.
  rewrite !fmap_cons. cbn [concat].
  by rewrite link_replace_piece, IH.
Qed.

(** The substitution for a relationship with a literal id and a target
    without a backslash. *)
Lemma link_sub_literal (rel : Rel) (content : list ascii) :
  literal_id (rId rel) = true → lacks backslash (target_ref rel) = true →
  link_sub rel content
  = Returns (link_replace (Char <$> rId rel) (literal_link (target_ref rel))
               0 content).
Proof.
  intros Hid Ht. unfold link_sub.
  by rewrite compile_rId_literal, parse_link_template.
Qed.

Lemma resolve_one_well_formed (rid target : list ascii) (p : piece) :
  lacks "[" target = true → lacks quote target = true →
  well_formed_piece p = true →
  well_formed_piece (resolve_one rid target p) = true.
Proof.
  intros Ht1 Ht2 Hp. destruct p as [t|label rid'|label url]; try done.
  cbn [resolve_one]. case_bool_decide; [|done].
  cbn [well_formed_piece] in *.
  apply andb_true_iff in Hp as [[[-> ->]%andb_true_iff _]%andb_true_iff _].
  by rewrite Ht1, Ht2.
Qed.

Lemma resolve_piece_cons (rel : Rel) (rels : list Rel) (p : piece) :
  resolve_piece (rel :: rels) p
  = if is_external rel
    then resolve_piece rels (resolve_one (rId rel) (target_ref rel) p)
    else resolve_piece rels p.
Proof.
  destruct p as [t|label rid'|label url]; try by destruct (is_external rel).
  cbn [resolve_piece resolve_one external_target].
  destruct (is_external rel); [|done]. cbn [andb].
  rewrite (bool_decide_ext (rId rel = rid') (rid' = rId rel)) by done.
  by case_bool_decide.
Qed.

(** Link resolution is by identifier. In a text made of plain text, link
    placeholders and links, every placeholder whose identifier is that of
    an external relationship becomes the link to the target of the first
    such relationship, wherever it stands and however often the identifier
    occurs; the other placeholders, the links and the text stay. The ids of
    the external relationships hold no special character and their targets
    no backslash. *)
Theorem links_resolved_by_identifier (rels : list Rel) (ps : list piece) :
  forallb well_formed_piece ps = true →
  forallb (λ rel, negb (is_external rel) || well_formed_rel rel) rels = true →
  resolve_links rels (render ps)
  = Returns (render (resolve_piece rels <$> ps)).
Proof.
  revert ps. induction rels as [|rel rels IH]; intros ps Hps Hrels.
  { cbn [resolve_links]. do 2 f_equal. induction ps as [|p ps IHps]; [done|].
    apply andb_true_iff in Hps as [_ Hps]. rewrite fmap_cons, <-IHps by done.
    by destruct p. }
  cbn [forallb] in Hrels. apply andb_true_iff in Hrels as [Hrel Hrels].
  cbn [resolve_links].
  assert (resolve_piece (rel :: rels) <$> ps
          = if is_external rel
            then resolve_piece rels
                   <$> (resolve_one (rId rel) (target_ref rel) <$> ps)
            else resolve_piece rels <$> ps) as ->.
  { destruct (is_external rel) eqn:Hext.
    - rewrite <-list_fmap_compose. apply list_fmap_ext. intros i p _.
      simpl. by rewrite resolve_piece_cons, Hext.
    - apply list_fmap_ext. intros i p _. by rewrite resolve_piece_cons, Hext. }
  destruct (is_external rel); [|by apply IH].
  cbn [negb orb] in Hrel. unfold well_formed_rel in Hrel.
  apply andb_true_iff in Hrel as [Hrel Ht3].
  apply andb_true_iff in Hrel as [Hrel Ht2].
  apply andb_true_iff in Hrel as [Hrel Ht1].
  apply andb_true_iff in Hrel as [Hlit Hid].
  rewrite link_sub_literal by done.
  change (mbind ?f (Returns ?x)) with (f x). cbv beta.
  rewrite link_replace_render by done. apply IH; [|done].
  rewrite forallb_forall in Hps |- *. intros p Hp.
  apply list_elem_of_In, list_elem_of_fmap in Hp as (p0 & -> & Hp0).
  apply resolve_one_well_formed; [done|done|].
  by apply Hps, list_elem_of_In.
Qed.

Lemma links_resolved_by_identifier_witness :
  let rels := [mkRel (py "rId5") true (py "http://x");
               mkRel (py "rId6") false (py "media/image1.png");
               mkRel (py "rId7") true (py "http://y")] in
  let ps := [Plain (py "see "); LinkRef (py "a") (py "rId5");
             Plain (py " and "); LinkRef (py "b") (py "rId6");
             Link (py "c") (py "http://z"); LinkRef (py "d") (py "rId5");
             LinkRef (py "e") (py "rId7")] in
  forallb well_formed_piece ps = true
  ∧ forallb (λ rel, negb (is_external rel) || well_formed_rel rel) rels = true
  ∧ resolve_links rels (render ps)
    = Returns (render [Plain (py "see "); Link (py "a") (py "http://x");
              Plain (py " and "); LinkRef (py "b") (py "rId6");
              Link (py "c") (py "http://z"); Link (py "d") (py "http://x");
              Link (py "e") (py "http://y")]).
Proof.
  intros rels ps. split; [reflexivity|]. split; [reflexivity|].
  rewrite (links_resolved_by_identifier rels ps); reflexivity.
Defined.

(** ** Collecting the images *)

Example collect_images_example :
  let rels : gmap (list ascii) PartRel :=
    <[py "rId4" := mkPartRel false true (py "image/png") (py "PNG")]>
    (<[py "rId5" := mkPartRel false true (py "image/jpeg") (py "JPG")]>
     (<[py "rId6" := mkPartRel true false [] []]> ∅)) in
  _collect_images true (py "doc") rels
    [[None; Some (py "rId5")]; [Some (py "rId6"); Some (py "rId4")];
     [Some (py "rId5")]] ([], 0)
  = ([(py "rId5", mkImageInfo (py "doc_2.jpeg") (py "JPG") (py "image/jpeg"));
      (py "rId4", mkImageInfo (py "doc_1.png") (py "PNG") (py "image/png"))],
     3).
Proof. vm_compute. reflexivity. Qed.

Lemma pretty_N_char_digit (x : N) : isdigit (pretty_N_char x) = true.
Proof. unfold pretty_N_char. by repeat case_match. Qed.

Lemma pretty_N_go_digits (x : N) (s : string) :
  Forall (λ c, isdigit c = true) (py s) →
  Forall (λ c, isdigit c = true) (py (pretty_N_go x s)).
Proof.
  revert s. induction (N.lt_wf_0 x) as [x _ IH]; intros s Hs.
  assert (x = 0 ∨ 0 < x)%N as [->|Hx] by lia.
  - by rewrite pretty_N_go_0.
  - rewrite pretty_N_go_step by done. apply IH.
    + by apply N.div_lt.
    + constructor; [apply pretty_N_char_digit|done].
Qed.

(** The decimal numeral of a counter is made of digits. *)
Lemma pretty_nat_digits (n : nat) :
  Forall (λ c, isdigit c = true) (py (pretty n)).
Proof.
  unfold pretty, pretty_nat, pretty, pretty_N. case_decide.
  - by repeat constructor.
  - apply pretty_N_go_digits. constructor.
Qed.

Lemma py_inj (s t : string) : py s = py t → s = t.
Proof.
  intros H. rewrite <-(string_of_list_ascii_of_string s),
    <-(string_of_list_ascii_of_string t). unfold py in H. by rewrite H.
Qed.

Lemma app_terminated_inj (q : ascii) (a b x y : list ascii) :
  lacks q a = true → lacks q b = true →
  a ++ q :: x = b ++ q :: y → a = b.
Proof.
  revert b. induction a as [|c a IH]; intros b Ha Hb E.
  - destruct b as [|d b]; [done|]. injection E as <- _.
    by apply lacks_cons in Hb as [? _].
  - apply lacks_cons in Ha as [Hc Ha]. destruct b as [|d b].
    + injection E as -> _. done.
    + apply lacks_cons in Hb as [_ Hb]. injection E as -> E.
      f_equal. by apply IH.
Qed.

Lemma digits_lack_dot (s : list ascii) :
  Forall (λ c, isdigit c = true) s → lacks "." s = true.
Proof.
  induction 1 as [|c s Hc _ IH]; [done|]. apply lacks_cons. split; [|done].
  intros ->. done.
Qed.

(** The file name tells the counter. *)
Lemma image_filename_inj (stem e1 e2 : list ascii) (c1 c2 : nat) :
  image_filename stem c1 e1 = image_filename stem c2 e2 → c1 = c2.
Proof.
  unfold image_filename. intros E.
  apply app_inv_head in E. cbn [py list_ascii_of_string app] in E.
  injection E as E.
  apply app_terminated_inj in E;
    [|apply digits_lack_dot, pretty_nat_digits..].
  by apply py_inj, (inj pretty) in E.
Qed.

Lemma elem_of_dict_set (k : list ascii) (v : ImageInfo)
    (d : list (list ascii * ImageInfo)) (entry : list ascii * ImageInfo) :
  entry ∈ dict_set k v d → entry = (k, v) ∨ entry ∈ d.
Proof.
  induction d as [|[k' v'] d IH]; cbn [dict_set].
  - intros ->%list_elem_of_singleton. by left.
  - case_bool_decide.
    + intros [->|Hin]%elem_of_cons; [by left|right; by right].
    + intros [->|Hin]%elem_of_cons; [right; by left|].
      destruct (IH Hin) as [->|?]; [by left|right; by right].
Qed.

Lemma NoDup_dict_set (k : list ascii) (v : ImageInfo)
    (d : list (list ascii * ImageInfo)) :
  NoDup ((λ entry, filename entry.2) <$> d) →
  filename v ∉ (λ entry, filename entry.2) <$> d →
  NoDup ((λ entry, filename entry.2) <$> dict_set k v d).
Proof.
  induction d as [|[k' v'] d IH]; cbn [dict_set]; intros Hd Hv.
  - rewrite fmap_cons. apply NoDup_singleton.
  - rewrite fmap_cons in Hd, Hv. apply NoDup_cons in Hd as [Hv' Hd].
    apply not_elem_of_cons in Hv as [Hne Hv]. case_bool_decide.
    + rewrite fmap_cons. by apply NoDup_cons.
    + rewrite fmap_cons. apply NoDup_cons. split; [|by apply IH].
      intros (entry & Hf & Hin)%list_elem_of_fmap.
      apply elem_of_dict_set in Hin as [->|Hin].
      * simpl in Hf, Hne. congruence.
      * apply Hv'. apply list_elem_of_fmap. by exists entry.
Qed.

Lemma collect_run_fresh (stem : list ascii) (rels : gmap (list ascii) PartRel)
    (st : list (list ascii * ImageInfo) * nat) (run : option (list ascii)) :
  filenames_fresh stem st → filenames_fresh stem (collect_run stem rels st run).
Proof.
  intros [Hnd Hbound]. unfold collect_run.
  destruct run as [rId|]; [|done].
  destruct (in_image_rels rels rId); cbn [negb]; [|done].
  destruct (_process_image stem rels st.2 rId) as [image_info|] eqn:Hp; [|done].
  assert (∃ ext, filename image_info = image_filename stem st.2 ext)
    as [ext Hname].
  { unfold _process_image in Hp. destruct (rels !! rId) as [rel|]; [|done].
    destruct (part_is_external rel); [done|].
    destruct (part_is_image rel); [|done]. cbn in Hp. injection Hp as <-.
    by eexists. }
  split; cbn [fst snd].
  - apply NoDup_dict_set; [done|].
    intros (entry & Hf & Hin)%list_elem_of_fmap.
    destruct (Hbound entry Hin) as (c & ext' & Hc & Hentry).
    rewrite Hname, Hentry in Hf. apply image_filename_inj in Hf. lia.
  - intros entry [->|Hin]%elem_of_dict_set.
    + exists st.2, ext. split; [lia|done].
    + destruct (Hbound entry Hin) as (c & ext' & Hc & Hentry).
      exists c, ext'. split; [lia|done].
Qed.

(** No two collected images have the same file name, whatever the
    document: saving them never writes one file over another. *)
Theorem collected_filenames_distinct (extract_images_option : bool)
    (stem : list ascii) (rels : gmap (list ascii) PartRel)
    (paragraphs : list (list (option (list ascii)))) :
  NoDup ((λ entry, filename entry.2)
           <$> (_collect_images extract_images_option stem rels paragraphs
                  ([], 0)).1).
Proof.
  assert (filenames_fresh stem
            (_collect_images extract_images_option stem rels paragraphs
               ([], 0))) as [H _]; [|done].
  unfold _collect_images.
  assert (filenames_fresh stem ([], 0)) as Hinit.
  { split; [constructor|]. intros entry Hin. by apply elem_of_nil in Hin. }
  destruct extract_images_option; cbn [negb]; [|done].
  generalize (concat paragraphs) as runs. revert Hinit.
  generalize (@nil (list ascii * ImageInfo), 0) as st.
  intros st Hst runs. revert st Hst.
  induction runs as [|run runs IH]; intros st Hst; [done|].
  cbn [foldl]. by apply IH, collect_run_fresh.
Qed.

Lemma dict_set_fresh (k : list ascii) (v : ImageInfo)
    (d : list (list ascii * ImageInfo)) :
  k ∉ d.*1 → dict_set k v d = d ++ [(k, v)].
Proof.
  induction d as [|[k' v'] d IH]; [done|]. cbn [dict_set fmap list_fmap fst].
  intros [Hne Hk]%not_elem_of_cons. rewrite bool_decide_false by congruence.
  cbn [app]. by rewrite IH.
Qed.

Lemma length_dict_set (k : list ascii) (v : ImageInfo)
    (d : list (list ascii * ImageInfo)) :
  length d ≤ length (dict_set k v d) ≤ S (length d).
Proof.
  induction d as [|[k' v'] d IH]; cbn [dict_set]; [simpl; lia|].
  case_bool_decide; simpl; lia.
Qed.

(** What one run does, in terms of [image_runs]. *)
Lemma collect_run_cases (stem : list ascii) (rels : gmap (list ascii) PartRel)
    (st : list (list ascii * ImageInfo) * nat) (run : option (list ascii)) :
  (image_runs rels [[run]] = [] ∧ collect_run stem rels st run = st)
  ∨ ∃ rId rel,
      image_runs rels [[run]] = [(rId, rel)]
      ∧ collect_run stem rels st run
        = (dict_set rId (image_info_of stem st.2 rel) st.1, S st.2).
Proof.
  unfold image_runs, collect_run, in_image_rels, _process_image.
  cbn [concat app omap list_omap].
  destruct run as [rId|]; [|by left]. cbn [mbind option_bind].
  destruct (rels !! rId) as [rel|]; [|by left]. cbn [mbind option_bind].
  destruct (part_is_external rel); [by left|].
  destruct (part_is_image rel); [|by left].
  right. by exists rId, rel.
Qed.

Lemma image_runs_cons (rels : gmap (list ascii) PartRel)
    (run : option (list ascii)) (runs : list (option (list ascii))) :
  image_runs rels [run :: runs] = image_runs rels [[run]] ++ image_runs rels [runs].
Proof.
  unfold image_runs. cbn [concat]. rewrite !app_nil_r.
  by rewrite <-omap_app.
Qed.

Lemma collect_loop_in_order (stem : list ascii)
    (rels : gmap (list ascii) PartRel) (runs : list (option (list ascii)))
    (d : list (list ascii * ImageInfo)) (n : nat) :
  NoDup (d.*1 ++ (image_runs rels [runs]).*1) →
  foldl (collect_run stem rels) (d, n) runs
  = (d ++ number_from stem n (image_runs rels [runs]),
     n + length (image_runs rels [runs])).
Proof.
  revert d n. induction runs as [|run runs IH]; intros d n Hnd.
  { cbn. by rewrite app_nil_r, Nat.add_0_r. }
  cbn [foldl]. rewrite image_runs_cons in Hnd |- *.
  destruct (collect_run_cases stem rels (d, n) run)
    as [[E1 E2]|(rId & rel & E1 & E2)]; rewrite E1 in Hnd |- *; rewrite E2.
  - cbn [app] in Hnd |- *. by apply IH.
  - cbn [app fst snd] in Hnd |- *.
    assert (rId ∉ d.*1) as Hfresh.
    { apply NoDup_app in Hnd as (_ & Hdisj & _). intros Hin.
      apply (Hdisj rId Hin). rewrite fmap_cons. by left. }
    rewrite dict_set_fresh by done. rewrite IH.
    + cbn [number_from length]. rewrite <-app_assoc. f_equal. lia.
    + rewrite fmap_app, <-app_assoc. done.
Qed.

(** When no image is referred to twice, the image map lists the images in
    the order of their runs in the document, the [i]-th (from 0) under the
    file name with the counter [i], and the counter ends as their number. *)
Theorem images_collected_in_document_order (stem : list ascii)
    (rels : gmap (list ascii) PartRel)
    (paragraphs : list (list (option (list ascii)))) :
  NoDup (image_runs rels paragraphs).*1 →
  _collect_images true stem rels paragraphs ([], 0)
  = (number_from stem 0 (image_runs rels paragraphs),
     length (image_runs rels paragraphs)).
Proof.
  intros Hnd. unfold _collect_images. cbn [negb].
  assert (image_runs rels paragraphs = image_runs rels [concat paragraphs])
    as E by (unfold image_runs; cbn [concat]; by rewrite app_nil_r).
  rewrite E in Hnd |- *. by rewrite collect_loop_in_order.
Qed.

Lemma images_collected_in_document_order_witness :
  let rels : gmap (list ascii) PartRel :=
    <[py "rId4" := mkPartRel false true (py "image/png") (py "PNG")]>
    (<[py "rId5" := mkPartRel false true (py "image/jpeg") (py "JPG")]>
     (<[py "rId6" := mkPartRel true false [] []]> ∅)) in
  let paragraphs := [[None; Some (py "rId5")];
                     [Some (py "rId6"); Some (py "rId4"); Some (py "rId9")]] in
  NoDup (image_runs rels paragraphs).*1
  ∧ _collect_images true (py "doc") rels paragraphs ([], 0)
    = ([(py "rId5", mkImageInfo (py "doc_0.jpeg") (py "JPG") (py "image/jpeg"));
        (py "rId4", mkImageInfo (py "doc_1.png") (py "PNG") (py "image/png"))],
       2).
Proof.
  intros rels paragraphs.
  assert (NoDup (image_runs rels paragraphs).*1) as Hnd.
  { apply (bool_decide_unpack (NoDup (image_runs rels paragraphs).*1)).
    vm_compute. exact I. }
  split; [exact Hnd|].
  rewrite (images_collected_in_document_order (py "doc") rels paragraphs Hnd).
  vm_compute. reflexivity.
Defined.

Lemma keys_dict_set (k : list ascii) (v : ImageInfo)
    (d : list (list ascii * ImageInfo)) :
  (dict_set k v d).*1 = if bool_decide (k ∈ d.*1) then d.*1 else d.*1 ++ [k].
Proof.
  induction d as [|[k' v'] d IH]; [done|]. cbn [dict_set].
  destruct (bool_decide (k' = k)) eqn:Hk.
  - apply bool_decide_eq_true in Hk as ->. rewrite !fmap_cons. cbn [fst].
    rewrite bool_decide_true; [done|by left].
  - apply bool_decide_eq_false in Hk. rewrite !fmap_cons, IH. cbn [fst].
    destruct (bool_decide (k ∈ d.*1)) eqn:Hin.
    + apply bool_decide_eq_true in Hin.
      rewrite bool_decide_true; [done|by right].
    + apply bool_decide_eq_false in Hin.
      rewrite bool_decide_false; [done|].
      intros [?|?]%elem_of_cons; [congruence|done].
Qed.

Lemma collect_loop_keys (stem : list ascii)
    (rels : gmap (list ascii) PartRel) (runs : list (option (list ascii)))
    (d : list (list ascii * ImageInfo)) (n : nat) :
  NoDup d.*1 →
  let st := foldl (collect_run stem rels) (d, n) runs in
  st.2 = n + length (image_runs rels [runs])
  ∧ NoDup st.1.*1
  ∧ ∀ k, k ∈ st.1.*1 ↔ k ∈ d.*1 ∨ k ∈ (image_runs rels [runs]).*1.
Proof.
  revert d n. induction runs as [|run runs IH]; intros d n Hnd.
  { cbn. split; [lia|]. split; [done|]. intros k. rewrite elem_of_nil. tauto. }
  cbv zeta. cbn [foldl]. rewrite image_runs_cons.
  destruct (collect_run_cases stem rels (d, n) run)
    as [[E1 E2]|(rId & rel & E1 & E2)]; rewrite E1, E2.
  - by apply IH.
  - cbn [fst snd app length].
    assert (NoDup (dict_set rId (image_info_of stem n rel) d).*1) as Hnd'.
    { rewrite keys_dict_set. case_bool_decide; [done|].
      apply NoDup_app. split; [done|]. split; [|apply NoDup_singleton].
      by intros x Hx ->%list_elem_of_singleton. }
    destruct (IH _ (S n) Hnd') as (Hc & Hk & Hiff).
    split; [lia|]. split; [done|].
    intros k. rewrite Hiff, keys_dict_set, fmap_cons, elem_of_cons. cbn [fst].
    case_bool_decide as Hin.
    + split; [tauto|]. intros [?|[->|?]]; tauto.
    + rewrite elem_of_app, list_elem_of_singleton. tauto.
Qed.

(** The counter counts the runs that refer to an internal image; the image
    map has one entry for each image referred to, however often, so it has
    at most as many entries as there are such runs. *)
Theorem collected_images_counted (stem : list ascii)
    (rels : gmap (list ascii) PartRel)
    (paragraphs : list (list (option (list ascii)))) :
  let st := _collect_images true stem rels paragraphs ([], 0) in
  st.2 = length (image_runs rels paragraphs)
  ∧ NoDup st.1.*1
  ∧ (∀ k, k ∈ st.1.*1 ↔ k ∈ (image_runs rels paragraphs).*1)
  ∧ length st.1 ≤ st.2.
Proof.
  cbv zeta. unfold _collect_images. cbn [negb].
  assert (image_runs rels paragraphs = image_runs rels [concat paragraphs])
    as E by (unfold image_runs; cbn [concat]; by rewrite app_nil_r).
  rewrite E.
  destruct (collect_loop_keys stem rels (concat paragraphs) [] 0)
    as (Hc & Hnd & Hiff); [constructor|].
  cbn [fmap list_fmap] in Hiff.
  assert (∀ k, k ∈ (foldl (collect_run stem rels) ([], 0)
                      (concat paragraphs)).1.*1
               ↔ k ∈ (image_runs rels [concat paragraphs]).*1) as Hiff'.
  { intros k. rewrite Hiff, elem_of_nil. tauto. }
  split; [done|]. split; [done|]. split; [done|].
  rewrite Hc. cbn [Nat.add].
  rewrite <-(length_fmap fst), <-(length_fmap fst (image_runs _ _)).
  apply submseteq_length, NoDup_submseteq; [done|].
  intros k. apply Hiff'.
Qed.

Lemma digits_plain (s : list ascii) :
  Forall (λ c, isdigit c = true) s → plain s = true.
Proof.
  induction 1 as [|c s Hc _ IH]; [done|]. cbn [plain forallb].
  fold (plain s). rewrite IH, andb_true_r. unfold plain_char.
  destruct (ascii_eqb c "!") eqn:E1.
  { apply ascii_eqb_true in E1. by subst. }
  destruct (ascii_eqb c "]") eqn:E2.
  { apply ascii_eqb_true in E2. by subst. }
  destruct (ascii_eqb c newline) eqn:E3; [|done].
  apply ascii_eqb_true in E3. by subst.
Qed.

Lemma plain_app (t u : list ascii) : plain (t ++ u) = plain t && plain u.
Proof. apply forallb_app. Qed.

Lemma digits_lack_backslash (s : list ascii) :
  Forall (λ c, isdigit c = true) s → lacks backslash s = true.
Proof.
  induction 1 as [|c s Hc _ IH]; [done|]. apply lacks_cons. split; [|done].
  intros ->. done.
Qed.

Lemma plain_filename_app (t u : list ascii) :
  plain_filename t = true → plain_filename u = true →
  plain_filename (t ++ u) = true.
Proof.
  unfold plain_filename. rewrite plain_app, lacks_app, !andb_true_iff. tauto.
Qed.

Lemma number_from_plain (stem : list ascii) (i : nat)
    (rs : list (list ascii * PartRel)) :
  plain_filename stem = true →
  forallb (λ r, plain_filename (split_last "/" (part_content_type r.2))) rs
  = true →
  forallb (λ entry, plain_filename (filename entry.2)) (number_from stem i rs)
  = true.
Proof.
  intros Hstem. revert i. induction rs as [|[rId rel] rs IH]; intros i Hrs;
    [done|].
  apply andb_true_iff in Hrs as [Hext Hrs]. cbn [snd] in Hext.
  cbn [number_from forallb].
  rewrite IH by done. rewrite andb_true_r.
  cbn [snd image_info_of filename]. unfold image_filename.
  repeat apply plain_filename_app; try done.
  unfold plain_filename.
  by rewrite (digits_plain _ (pretty_nat_digits i)),
             (digits_lack_backslash _ (pretty_nat_digits i)).
Qed.

(** From the document to the text: when no image is referred to twice, the
    [i]-th placeholder of the text becomes the reference to the file of the
    [i]-th image run of the document, and the placeholders beyond the
    images and the lines without a placeholder stay. The stem and the
    extensions are plain and without a backslash, and a line holds at most
    one placeholder. *)
Theorem placeholders_follow_document_order (stem : list ascii)
    (rels : gmap (list ascii) PartRel)
    (paragraphs : list (list (option (list ascii))))
    (ls : list text_line) :
  NoDup (image_runs rels paragraphs).*1 →
  plain_filename stem = true →
  forallb (λ r, plain_filename (split_last "/" (part_content_type r.2)))
          (image_runs rels paragraphs) = true →
  forallb well_formed_text_line ls = true →
  resolve_images (_collect_images true stem rels paragraphs ([], 0)).1
                 (join [newline] (raw_text_line <$> ls))
  = Returns (join [newline]
      (bind_in_order (number_from stem 0 (image_runs rels paragraphs)) ls)).
Proof.
  intros Hnd Hstem Hext Hls. unfold _collect_images. cbn [negb].
  assert (image_runs rels paragraphs = image_runs rels [concat paragraphs])
    as E by (unfold image_runs; cbn [concat]; by rewrite app_nil_r).
  rewrite E in Hnd, Hext |- *. rewrite collect_loop_in_order by done.
  cbn [fst app].
  apply (resolve_images_behind ls _ []); [constructor|done|].
  by apply number_from_plain.
Qed.

Lemma placeholders_follow_document_order_witness :
  let rels : gmap (list ascii) PartRel :=
    <[py "rId4" := mkPartRel false true (py "image/png") (py "PNG")]>
    (<[py "rId5" := mkPartRel false true (py "image/jpeg") (py "JPG")]> ∅) in
  let paragraphs := [[Some (py "rId5")]; [None; Some (py "rId4")]] in
  let ls := [Without (py "# Figures");
             Without (py "<!-- Type: Heading 1 -->");
             WithImage (mkImageLine [] [] (py "/jpeg;base64,AAAA") []);
             Without (py "<!-- Type: Image -->");
             WithImage
               (mkImageLine (py "see ") (py "fig") (py "/png;base64,BBBB") []);
             Without (py "<!-- Type: Image -->");
             WithImage (mkImageLine [] [] (py "/png;base64,CCCC") []);
             Without (py "<!-- Type: Image -->")] in
  NoDup (image_runs rels paragraphs).*1
  ∧ plain_filename (py "doc") = true
  ∧ forallb (λ r, plain_filename (split_last "/" (part_content_type r.2)))
            (image_runs rels paragraphs) = true
  ∧ forallb well_formed_text_line ls = true
  ∧ resolve_images (_collect_images true (py "doc") rels paragraphs ([], 0)).1
                   (join [newline] (raw_text_line <$> ls))
    = Returns (join [newline]
        [py "# Figures"; py "<!-- Type: Heading 1 -->";
         py "![Image](images/doc_0.jpeg)"; py "<!-- Type: Image -->";
         py "see ![Image](images/doc_1.png)"; py "<!-- Type: Image -->";
         py "![](data:image/png;base64,CCCC)"; py "<!-- Type: Image -->"]).
Proof.
  intros rels paragraphs ls.
  assert (NoDup (image_runs rels paragraphs).*1) as Hnd.
  { apply (bool_decide_unpack (NoDup (image_runs rels paragraphs).*1)).
    vm_compute. exact I. }
  split; [exact Hnd|]. split; [reflexivity|]. split; [reflexivity|].
  split; [reflexivity|].
  rewrite (placeholders_follow_document_order (py "doc") rels paragraphs ls
             Hnd eq_refl eq_refl eq_refl).
  vm_compute. reflexivity.
Defined.

(** ** Levels of the items of a block *)

Lemma first_seen_app (l1 l2 : list nat) :
  first_seen (l1 ++ l2)
  = first_seen l1 ++ filter (λ v, v ∉ l1) (first_seen l2).
Proof.
  induction l1 as [|w l1 IH].
  { cbn [app first_seen]. by rewrite filter_all by (intros; apply not_elem_of_nil). }
  cbn [app first_seen]. rewrite IH, filter_app, list_filter_filter. f_equal.
  f_equal. apply list_filter_iff. intros v. rewrite not_elem_of_cons. tauto.
Qed.

Lemma item_widths_app (l1 l2 : list (list ascii)) :
  item_widths (l1 ++ l2) = item_widths l1 ++ item_widths l2.
Proof. unfold item_widths. by rewrite filter_app, fmap_app. Qed.

(** A width that is not the first of the block has, in first-seen order, a
    predecessor among the widths of the items before it. *)
Lemma first_seen_predecessor (ws1 ws2 : list nat) (w k : nat) :
  first_seen (ws1 ++ w :: ws2) !! S k = Some w →
  ∃ w', first_seen ws1 !! k = Some w'
        ∧ first_seen (ws1 ++ w :: ws2) !! k = Some w'.
Proof.
  rewrite first_seen_app. intros Hw.
  destruct (decide (k < length (first_seen ws1))) as [Hlt|Hge].
  { apply lookup_lt_is_Some in Hlt as [w' Hw']. exists w'.
    split; [done|]. by apply lookup_app_l_Some. }
  exfalso. rewrite lookup_app_r in Hw by lia.
  cbn [first_seen] in Hw. rewrite filter_cons in Hw.
  destruct (decide (w ∉ ws1)) as [Hnotin|Hin].
  - destruct (S k - length (first_seen ws1)) as [|n] eqn:E; [lia|].
    cbn in Hw. apply list_elem_of_lookup_2 in Hw.
    apply list_elem_of_filter in Hw as [_ Hw].
    apply list_elem_of_filter in Hw as [Hne _]. done.
  - apply list_elem_of_lookup_2 in Hw.
    apply list_elem_of_filter in Hw as [Hw _]. done.
Qed.

(** Levels never skip: in the output of the normalizer the first list item
    is flush left, and every list item is flush left or exactly two spaces
    deeper than some list item before it. *)
Theorem levels_never_skip (lines out : list (list ascii)) (i : nat)
    (x : list ascii) :
  _process_list_block lines = Some out →
  lines !! i = Some x → _is_list_item x = true →
  ∃ y, out !! i = Some y
       ∧ (_get_indent_level y = 0
          ∨ ∃ j xj yj,
              j < i ∧ lines !! j = Some xj ∧ _is_list_item xj = true
              ∧ out !! j = Some yj
              ∧ _get_indent_level y = _get_indent_level yj + 2).
Proof.
  intros Hout Hi Hx.
  assert (lines ≠ []) as Hne by (intros ->; done).
  destruct (process_list_block_inv lines out Hne Hout) as (result & Hres & ->).
  destruct (Forall2_lookup_l _ _ _ _ _ Hres Hi) as (y & Hy & Hn).
  exists y. split; [by apply lookup_app_l_Some|].
  pose proof (list_elem_of_lookup_2 _ _ _ Hi) as Hin.
  destruct (normalize_line_item lines x Hin Hx) as (l & Hl & Hm & Hn').
  assert (y = str_mul (py "  ") l ++ py "* " ++ item_content (lstrip x))
    as -> by congruence.
  destruct (pad_item_indent l (item_content (lstrip x))) as (-> & _ & _).
  destruct l as [|k]; [by left|]. right.
  assert (item_widths lines
          = item_widths (take i lines)
            ++ _get_indent_level x :: item_widths (drop (S i) lines)) as E.
  { rewrite <-(take_drop_middle lines i x Hi) at 1.
    by rewrite item_widths_app, item_widths_cons, Hx. }
  rewrite E in Hl.
  destruct (first_seen_predecessor _ _ _ _ Hl) as (w' & Hw1 & Hw').
  rewrite <-E in Hw'.
  apply list_elem_of_lookup_2 in Hw1. rewrite elem_of_first_seen in Hw1.
  apply list_elem_of_fmap in Hw1 as (xj & -> & Hxj).
  apply list_elem_of_filter in Hxj as [Hitem Hxj].
  apply list_elem_of_lookup in Hxj as [j Hj].
  apply lookup_take_Some in Hj as [Hj Hlt].
  destruct (Forall2_lookup_l _ _ _ _ _ Hres Hj) as (yj & Hyj & Hnj).
  pose proof (list_elem_of_lookup_2 _ _ _ Hj) as Hinj.
  destruct (normalize_line_item lines xj Hinj Hitem) as (lj & Hlj & _ & Hnj').
  assert (yj = str_mul (py "  ") lj ++ py "* " ++ item_content (lstrip xj))
    as -> by congruence.
  assert (lj = k) as ->.
  { eapply NoDup_lookup; [apply NoDup_first_seen|exact Hlj|exact Hw']. }
  exists j, xj, (str_mul (py "  ") k ++ py "* " ++ item_content (lstrip xj)).
  split; [done|]. split; [done|]. split; [done|].
  split; [by apply lookup_app_l_Some|].
  destruct (pad_item_indent k (item_content (lstrip xj))) as (-> & _ & _).
  lia.
Qed.

Lemma levels_never_skip_witness :
  let lines := [py "    * a"; py "note"; py "* b"; py "  * c"] in
  let out := [py "* a"; py "    note"; py "  * b"; py "    * c";
              LIST_BLOCK_COMMENT] in
  _process_list_block lines = Some out
  ∧ lines !! 3 = Some (py "  * c")
  ∧ _is_list_item (py "  * c") = true
  ∧ ∃ y, out !! 3 = Some y
         ∧ (_get_indent_level y = 0
            ∨ ∃ j xj yj,
                j < 3 ∧ lines !! j = Some xj ∧ _is_list_item xj = true
                ∧ out !! j = Some yj
                ∧ _get_indent_level y = _get_indent_level yj + 2).
Proof.
  intros lines out. split; [reflexivity|]. split; [reflexivity|].
  split; [reflexivity|].
  apply (levels_never_skip lines out 3 (py "  * c")); reflexivity.
Defined.

(** ** The whole conversion *)

Lemma resolve_images_returns (image_map : list (list ascii * ImageInfo))
    (content : list ascii) :
  forallb (λ entry, lacks backslash (filename entry.2)) image_map = true →
  ∃ content', resolve_images image_map content = Returns content'.
Proof.
  revert content. induction image_map as [|entry image_map IH];
    intros content Hmap; [by eexists|].
  cbn [forallb] in Hmap. apply andb_true_iff in Hmap as [Hf Hmap].
  rewrite resolve_images_step by done. by apply IH.
Qed.

Lemma resolve_links_returns (rels : list Rel) (content : list ascii) :
  forallb (λ rel, negb (is_external rel)
                  || regular_id (rId rel) && lacks backslash (target_ref rel))
          rels = true →
  ∃ content', resolve_links rels content = Returns content'.
Proof.
  revert content. induction rels as [|rel rels IH]; intros content Hrels;
    [by eexists|].
  cbn [forallb] in Hrels. apply andb_true_iff in Hrels as [Hrel Hrels].
  cbn [resolve_links]. destruct (is_external rel); [|by apply IH].
  cbn [negb orb] in Hrel. apply andb_true_iff in Hrel as [Hid Ht].
  destruct (link_sub_returns rel content Hid Ht) as (rid & _ & ->).
  by apply IH.
Qed.

(** From the lines on, the conversion raises nothing and returns a
    document, for every sequence of lines: the list pass never raises, and
    the two substitution loops do not when no file name and no target of
    an external relationship holds a backslash and no id of an external
    relationship holds a special character other than the dot. *)
Theorem conversion_returns_document (lines : list (list ascii))
    (image_map : list (list ascii * ImageInfo)) (rels : list Rel) :
  forallb (λ entry, lacks backslash (filename entry.2)) image_map = true →
  forallb (λ rel, negb (is_external rel)
                  || regular_id (rId rel) && lacks backslash (target_ref rel))
          rels = true →
  ∃ processed_lines content document,
    _process_nested_lists lines = Some processed_lines
    ∧ resolve_images image_map
        (join [newline] (group_tables processed_lines)) = Returns content
    ∧ resolve_links rels content = Returns document
    ∧ convert_to_markdown lines image_map rels = Returns document.
Proof.
  intros Hmap Hrels.
  destruct (process_nested_lists_is_Some lines) as [processed Hp].
  destruct (resolve_images_returns image_map
              (join [newline] (group_tables processed)) Hmap)
    as [content Hc].
  destruct (resolve_links_returns rels content Hrels) as [document Hd].
  exists processed, content, document.
  split; [done|]. split; [done|]. split; [done|].
  unfold convert_to_markdown. rewrite Hp. cbv zeta. by rewrite Hc.
Qed.

Lemma conversion_returns_document_witness :
  let lines := [py "* a"; py "  text"; py "| x |"; py "![p](data:image/png,A)";
                py "[l](rel=" ++ [quote] ++ py "rIdX5" ++ [quote] ++ py ")"] in
  let image_map :=
    [(py "rId4", mkImageInfo (py "doc_0.png") [] (py "image/png"))] in
  let rels := [mkRel (py "rId4") false (py "media\image1.png");
               mkRel (py "rId.5") true (py "http://x")] in
  forallb (λ entry, lacks backslash (filename entry.2)) image_map = true
  ∧ forallb (λ rel, negb (is_external rel)
                    || regular_id (rId rel)
                       && lacks backslash (target_ref rel))
            rels = true
  ∧ ∃ processed_lines content document,
      _process_nested_lists lines = Some processed_lines
      ∧ resolve_images image_map
          (join [newline] (group_tables processed_lines)) = Returns content
      ∧ resolve_links rels content = Returns document
      ∧ convert_to_markdown lines image_map rels = Returns document.
Proof.
  intros lines image_map rels. split; [reflexivity|]. split; [reflexivity|].
  apply conversion_returns_document; reflexivity.
Defined.


